(** * QrScanner: a shallow embedding of [src/qr-scanner.ts]

    The scanner class is embedded as state-passing code over an explicit
    record of the scanner's fields, its video element and the parts of the
    browser it talks to.  [async] methods are written in a small resumption
    monad: a computation runs synchronously up to its next [await], where it
    stops with a continuation that is resumed later on whatever the state is
    by then. *)

From Stdlib Require Import String Ascii List ZArith Bool Lia DecimalString.
From stdpp Require Import base list.
Import ListNotations.

Local Open Scope string_scope.
Local Open Scope Z_scope.

(** ** Strings and the regular expressions of the source *)

(** [static readonly NO_QR_CODE_FOUND] *)
Definition NO_QR_CODE_FOUND : string := "No QR code found".

(** [String.prototype.includes] *)
Fixpoint includes (haystack needle : string) : bool :=
  String.prefix needle haystack
  || match haystack with
     | EmptyString => false
     | String _ rest => includes rest needle
     end.

(** Case folding of the [/i] flag: without the [u] flag only the letters
    A-Z and a-z are identified with each other by patterns made of ASCII
    letters. *)
Definition foldCase (c : ascii) : ascii :=
  let n := nat_of_ascii c in
  if ((65 <=? n) && (n <=? 90))%nat then ascii_of_nat (n + 32) else c.

Fixpoint foldCaseString (s : string) : string :=
  match s with
  | EmptyString => EmptyString
  | String c rest => String (foldCase c) (foldCaseString rest)
  end.

(** [/rear|back|environment/i.test(label)] *)
Definition re_rear_back_environment (label : string) : bool :=
  let l := foldCaseString label in
  includes l "rear" || includes l "back" || includes l "environment".

(** [/front|user|face/i.test(label)] *)
Definition re_front_user_face (label : string) : bool :=
  let l := foldCaseString label in
  includes l "front" || includes l "user" || includes l "face".

(** [/^(environment|user)$/.test(camera)] *)
Definition re_environment_or_user (camera : string) : bool :=
  String.eqb camera "environment" || String.eqb camera "user".

(** ** Scan regions, images and canvases *)

Module ScanRegion.
(** [interface ScanRegion]: every field is optional. *)
Record t : Type := mk {
  x : option Z;
  y : option Z;
  width : option Z;
  height : option Z;
  downScaledWidth : option Z;
  downScaledHeight : option Z;
}.
End ScanRegion.

Module Image.
(** What [_drawToCanvas] reads of its image argument. [videoWidth] and
    [videoHeight] are [undefined] on everything but a video element. *)
Record t : Type := mk {
  videoWidth : option Z;
  videoHeight : option Z;
  width : Z;
  height : Z;
}.
End Image.

Module Canvas.
(** [width] and [height] of a canvas. *)
Record t : Type := mk { width : Z; height : Z }.

(** What a canvas keeps of an integer assigned to its [width] or
    [height]: the attribute is an [unsigned long] limited to 2^31 - 1, so
    the integer is taken modulo 2^32 and, when that is more than 2^31 - 1,
    replaced by the default of the attribute, 300 or 150.  An integer from 0
    to 2^31 - 1 is kept as it is.  [_drawToCanvas] below is the method on
    sizes that are kept, and the properties of canvas sizes are stated for
    them. *)
Definition kept (default n : Z) : Z :=
  let m := n mod 4294967296 in
  if m <=? 2147483647 then m else default.
(** [document.createElement('canvas')] *)
Definition fresh : t := mk 300 150.
End Canvas.

(** Truthiness of an optional number: [undefined] and [0] are falsy. *)
Definition truthyNumber (n : option Z) : bool :=
  match n with
  | Some v => negb (v =? 0)
  | None => false
  end.

(** [a ? a : b] for an optional number [a] *)
Definition orElse (a : option Z) (b : Z) : Z :=
  match a with
  | Some v => if v =? 0 then b else v
  | None => b
  end.

(** [scanRegion && scanRegion.f ? scanRegion.f : dflt] *)
Definition regionField (scanRegion : option ScanRegion.t)
    (f : ScanRegion.t -> option Z) (dflt : Z) : Z :=
  match scanRegion with
  | Some r => orElse (f r) dflt
  | None => dflt
  end.

(** The arguments of [context.drawImage]. *)
Record DrawImage : Type := mkDrawImage {
  sx : Z; sy : Z; sWidth : Z; sHeight : Z;
  dx : Z; dy : Z; dWidth : Z; dHeight : Z;
}.

Definition scanRegionX (scanRegion : option ScanRegion.t) : Z :=
  regionField scanRegion ScanRegion.x 0.

Definition scanRegionY (scanRegion : option ScanRegion.t) : Z :=
  regionField scanRegion ScanRegion.y 0.

Definition scanRegionWidth (image : Image.t) (scanRegion : option ScanRegion.t) : Z :=
  regionField scanRegion ScanRegion.width
    (orElse (Image.videoWidth image) (Image.width image)).

Definition scanRegionHeight (image : Image.t) (scanRegion : option ScanRegion.t) : Z :=
  regionField scanRegion ScanRegion.height
    (orElse (Image.videoHeight image) (Image.height image)).

Definition canvasWidth (image : Image.t) (scanRegion : option ScanRegion.t) : Z :=
  regionField scanRegion ScanRegion.downScaledWidth (scanRegionWidth image scanRegion).

Definition canvasHeight (image : Image.t) (scanRegion : option ScanRegion.t) : Z :=
  regionField scanRegion ScanRegion.downScaledHeight (scanRegionHeight image scanRegion).

(** [_drawToCanvas], on a canvas that exists ([canvas || createElement] is
    done by the caller, see [drawToCanvas] below): the canvas as it is left
    and the [drawImage] call that was made.  The width and height assigned
    to the canvas are taken to be sizes the canvas keeps as they are
    ([Canvas.kept]). *)
Definition _drawToCanvas (image : Image.t) (scanRegion : option ScanRegion.t)
    (canvas : Canvas.t) (disallowCanvasResizing : bool) : Canvas.t * DrawImage :=
  let canvas :=
    if negb disallowCanvasResizing then
      let canvas :=
        if negb (Canvas.width canvas =? canvasWidth image scanRegion)
        then Canvas.mk (canvasWidth image scanRegion) (Canvas.height canvas)
        else canvas in
      if negb (Canvas.height canvas =? canvasHeight image scanRegion)
      then Canvas.mk (Canvas.width canvas) (canvasHeight image scanRegion)
      else canvas
    else canvas in
  (canvas,
   mkDrawImage (scanRegionX scanRegion) (scanRegionY scanRegion)
     (scanRegionWidth image scanRegion) (scanRegionHeight image scanRegion)
     0 0 (Canvas.width canvas) (Canvas.height canvas)).

(** ** JavaScript values and browser objects *)

(** A video track of a camera stream: its [label], whether [getSettings()]
    has a [torch] key, whether [stop()] was called on it and whether its
    light is on. *)
Record MediaStreamTrack : Type := mkTrack {
  label : string;
  torch : bool;
  stopped : bool;
  lit : bool;
}.

(** A [MediaStream]: the tracks [getTracks()] returns (all of them video
    tracks, streams are requested with [audio: false]) and the tracks that
    [removeTrack] took out of it. *)
Record MediaStream : Type := mkStream {
  getTracks : list MediaStreamTrack;
  removedTracks : list MediaStreamTrack;
}.

(** The values promises settle with. *)
Inductive Value : Type :=
| VUndefined
| VNull
| VBool (b : bool)
| VStr (s : string)
| VError (message : string)
    (** an [Error], [DOMException] or [ErrorEvent] object *)
| VTracks (tracks : list MediaStreamTrack)
    (** a new [MediaStream], as [getUserMedia] hands it over *)
| VImage (image : Image.t)
    (** an image that finished loading *)
| VDetected (rawValues : list string)
    (** the array [BarcodeDetector.detect] resolves with *)
| VTimedOut
    (** the timer of a [Promise.race] fired before the other promise *).

Inductive Settled : Type :=
| Fulfilled (v : Value)
| Rejected (reason : Value).

(** [!!v] *)
Definition truthy (v : Value) : bool :=
  match v with
  | VUndefined | VNull => false
  | VBool b => b
  | VStr s => negb (String.eqb s "")
  | _ => true
  end.

(** [String(v)], as string concatenation and template strings compute it *)
Definition toString (v : Value) : string :=
  match v with
  | VUndefined => "undefined"
  | VNull => "null"
  | VBool true => "true"
  | VBool false => "false"
  | VStr s => s
  | VError "" => "Error"
  | VError m => "Error: " ++ m
  | _ => "[object Object]"
  end.

(** [(e as Error).message || e]; reading a property of [undefined] or
    [null] throws a [TypeError], which is [None] here. *)
Definition messageOr (e : Value) : option Value :=
  match e with
  | VUndefined | VNull => None
  | VError m => Some (if String.eqb m "" then e else VStr m)
  | _ => Some e
  end.

Definition TypeError : Value := VError "TypeError".

(** [MediaTrackConstraints], as far as the scanner builds them:
    [width: { min }], [facingMode: { exact }], [deviceId: { exact }]. *)
Record MediaTrackConstraints : Type := mkConstraints {
  width_min : option Z;
  facingMode_exact : option string;
  deviceId_exact : option string;
}.

(** [$video.srcObject]: [null], a [MediaStream] of the store below, or a
    media provider that is no [MediaStream]. *)
Inductive SrcObject : Type :=
| SrcNull
| SrcMediaStream (id : nat)
| SrcOther.

Module Video.
(** The fields of [HTMLVideoElement] the scanner reads or writes;
    [scaleX] is the factor of [style.transform = 'scaleX(..)']. *)
Record t : Type := mk {
  srcObject : SrcObject;
  paused : bool;
  ended : bool;
  readyState : Z;
  videoWidth : Z;
  videoHeight : Z;
  width : Z;
  height : Z;
  scaleX : Z;
}.
End Video.

(** A decode engine: [new Worker(..)] or [new BarcodeDetector(..)]. *)
Inductive Engine : Type :=
| Worker (id : nat)
| BarcodeDetector (id : nat).

(** [_onDecodeError]: the default handler of the class or the caller's. *)
Inductive ErrorHandler : Type :=
| DefaultOnDecodeError
| CallerOnDecodeError.

(** The instance fields of [QrScanner].  [_calculateScanRegion] is the
    constructor's fourth argument; [_qrEnginePromise] is the engine the
    promise resolves to; [canvas] is the index of [$canvas] among the
    canvases. *)
Record QrScanner : Type := mkQrScanner {
  _onDecodeError : ErrorHandler;
  _calculateScanRegion : Video.t -> ScanRegion.t;
  _preferredCamera : string;
  _scanRegion : ScanRegion.t;
  _qrEnginePromise : Engine;
  _active : bool;
  _paused : bool;
  _flashOn : bool;
  _destroyed : bool;
  canvas : nat;
}.

(** What the scanner reads of [document], [navigator], [window]. *)
Record Browser : Type := mkBrowser {
  hidden : bool;               (** [document.hidden] *)
  mediaDevices : bool;         (** [navigator.mediaDevices] is there *)
  https : bool;                (** [location.protocol === 'https:'] *)
  nativeBarcodeDetector : bool (** the capability probe of [createQrEngine] *)
}.

(** What the scanner does to the outside, in the order it does it. *)
Inductive Effect : Type :=
| GetUserMediaCall (constraints : MediaTrackConstraints)
| OnDecodeCall (result : Value)
| OnDecodeErrorCall (error : Value)
| ConsoleLog (v : Value)
| ConsoleWarn (msg : string)
| PostMessage (worker : nat) (type : string)
| DetectCall (detector : nat)
| DrawImageCall (canvas : nat) (args : DrawImage)
| VideoPlay
| VideoPause.

Record State : Type := mkState {
  this : QrScanner;
  video : Video.t;
  browser : Browser;
  streams : list MediaStream;   (** every [MediaStream] created so far *)
  canvases : list Canvas.t;     (** every canvas created so far *)
  engines : nat;                (** number of engines created so far *)
  listening : bool;             (** the three DOM listeners are registered *)
  animationFrames : nat;        (** pending [requestAnimationFrame] callbacks *)
  effects : list Effect;        (** most recent last *)
}.

(** *** Field updates *)

Definition with_this (f : QrScanner -> QrScanner) (s : State) : State :=
  mkState (f (this s)) (video s) (browser s) (streams s) (canvases s)
    (engines s) (listening s) (animationFrames s) (effects s).

Definition with_video (f : Video.t -> Video.t) (s : State) : State :=
  mkState (this s) (f (video s)) (browser s) (streams s) (canvases s)
    (engines s) (listening s) (animationFrames s) (effects s).

Definition with_streams (f : list MediaStream -> list MediaStream) (s : State) : State :=
  mkState (this s) (video s) (browser s) (f (streams s)) (canvases s)
    (engines s) (listening s) (animationFrames s) (effects s).

Definition with_canvases (f : list Canvas.t -> list Canvas.t) (s : State) : State :=
  mkState (this s) (video s) (browser s) (streams s) (f (canvases s))
    (engines s) (listening s) (animationFrames s) (effects s).

Definition with_engines (f : nat -> nat) (s : State) : State :=
  mkState (this s) (video s) (browser s) (streams s) (canvases s)
    (f (engines s)) (listening s) (animationFrames s) (effects s).

Definition set_listening (b : bool) (s : State) : State :=
  mkState (this s) (video s) (browser s) (streams s) (canvases s)
    (engines s) b (animationFrames s) (effects s).

Definition with_animationFrames (f : nat -> nat) (s : State) : State :=
  mkState (this s) (video s) (browser s) (streams s) (canvases s)
    (engines s) (listening s) (f (animationFrames s)) (effects s).

Definition with_browser (f : Browser -> Browser) (s : State) : State :=
  mkState (this s) (video s) (f (browser s)) (streams s) (canvases s)
    (engines s) (listening s) (animationFrames s) (effects s).

Definition log (e : Effect) (s : State) : State :=
  mkState (this s) (video s) (browser s) (streams s) (canvases s)
    (engines s) (listening s) (animationFrames s) (effects s ++ [e])%list.

Definition set_preferredCamera (c : string) (q : QrScanner) : QrScanner :=
  mkQrScanner (_onDecodeError q) (_calculateScanRegion q) c (_scanRegion q)
    (_qrEnginePromise q) (_active q) (_paused q) (_flashOn q) (_destroyed q) (canvas q).

Definition set_scanRegion (r : ScanRegion.t) (q : QrScanner) : QrScanner :=
  mkQrScanner (_onDecodeError q) (_calculateScanRegion q) (_preferredCamera q) r
    (_qrEnginePromise q) (_active q) (_paused q) (_flashOn q) (_destroyed q) (canvas q).

Definition set_qrEnginePromise (e : Engine) (q : QrScanner) : QrScanner :=
  mkQrScanner (_onDecodeError q) (_calculateScanRegion q) (_preferredCamera q)
    (_scanRegion q) e (_active q) (_paused q) (_flashOn q) (_destroyed q) (canvas q).

Definition set_active (b : bool) (q : QrScanner) : QrScanner :=
  mkQrScanner (_onDecodeError q) (_calculateScanRegion q) (_preferredCamera q)
    (_scanRegion q) (_qrEnginePromise q) b (_paused q) (_flashOn q) (_destroyed q) (canvas q).

Definition set_paused (b : bool) (q : QrScanner) : QrScanner :=
  mkQrScanner (_onDecodeError q) (_calculateScanRegion q) (_preferredCamera q)
    (_scanRegion q) (_qrEnginePromise q) (_active q) b (_flashOn q) (_destroyed q) (canvas q).

Definition set_flashOn (b : bool) (q : QrScanner) : QrScanner :=
  mkQrScanner (_onDecodeError q) (_calculateScanRegion q) (_preferredCamera q)
    (_scanRegion q) (_qrEnginePromise q) (_active q) (_paused q) b (_destroyed q) (canvas q).

Definition set_destroyed (b : bool) (q : QrScanner) : QrScanner :=
  mkQrScanner (_onDecodeError q) (_calculateScanRegion q) (_preferredCamera q)
    (_scanRegion q) (_qrEnginePromise q) (_active q) (_paused q) (_flashOn q) b (canvas q).

Definition set_srcObject (o : SrcObject) (v : Video.t) : Video.t :=
  Video.mk o (Video.paused v) (Video.ended v) (Video.readyState v)
    (Video.videoWidth v) (Video.videoHeight v) (Video.width v) (Video.height v)
    (Video.scaleX v).

Definition set_video_paused (b : bool) (v : Video.t) : Video.t :=
  Video.mk (Video.srcObject v) b (Video.ended v) (Video.readyState v)
    (Video.videoWidth v) (Video.videoHeight v) (Video.width v) (Video.height v)
    (Video.scaleX v).

Definition set_scaleX (k : Z) (v : Video.t) : Video.t :=
  Video.mk (Video.srcObject v) (Video.paused v) (Video.ended v) (Video.readyState v)
    (Video.videoWidth v) (Video.videoHeight v) (Video.width v) (Video.height v) k.

(** ** Asynchronous code

    What an [await] waits for.  The browser answers each with a [Settled]
    value; what the answer means is said at the function that awaits. *)
Inductive Await : Type :=
| Microtask
    (** [await] on the promise of an [async] function of this class, or on
        an engine promise: the code goes on in a later microtask *)
| SetTimeout (ms : Z)
| GetUserMedia (constraints : MediaTrackConstraints)
| Play
| ApplyConstraints (stream : nat)
| ImageLoad
| WorkerResponse (worker : nat)
| DetectOrTimeout (detector : nat).

(** A suspended [async] call whose promise nobody awaits. *)
Inductive Task : Type :=
| TDone (s : State)
| TWait (s : State) (w : Await) (k : Settled -> State -> Task)
| TFork (w : Await) (k : Settled -> State -> Task) (rest : Task).

(** Where a computation that started on some state stands: it returned, it
    threw, or it waits at an [await] with the rest of its code; [Forked]
    records an [async] call it made without awaiting it, which waits on its
    own. *)
Inductive Co (A : Type) : Type :=
| Ret (s : State) (a : A)
| Exn (s : State) (e : Value)
| Susp (s : State) (w : Await) (k : Settled -> State -> Co A)
| Forked (w : Await) (k : Settled -> State -> Task) (rest : Co A).

Arguments Ret {A} s a.
Arguments Exn {A} s e.
Arguments Susp {A} s w k.
Arguments Forked {A} w k rest.

Definition M (A : Type) : Type := State -> Co A.

Definition ret {A} (a : A) : M A := fun s => Ret s a.

Definition throw {A} (e : Value) : M A := fun s => Exn s e.

Fixpoint bindCo {A B} (c : Co A) (f : A -> M B) : Co B :=
  match c with
  | Ret s a => f a s
  | Exn s e => Exn s e
  | Susp s w k => Susp s w (fun r s' => bindCo (k r s') f)
  | Forked w k rest => Forked w k (bindCo rest f)
  end.

Definition bind {A B} (m : M A) (f : A -> M B) : M B :=
  fun s => bindCo (m s) f.

#[global] Instance M_ret : MRet M := @ret.
#[global] Instance M_bind : MBind M := fun A B f m => bind m f.

Definition get : M State := fun s => Ret s s.

Definition modify (f : State -> State) : M unit := fun s => Ret (f s) tt.

Definition emit (e : Effect) : M unit := modify (log e).

(** [await p] for a promise [p] of the browser. *)
Definition await (w : Await) : M Value :=
  fun s => Susp s w (fun r s' =>
    match r with
    | Fulfilled v => Ret s' v
    | Rejected e => Exn s' e
    end).

(** [try { m }] with the exception, if any, turned into a value. *)
Fixpoint captureCo {A} (c : Co A) : Co (A + Value) :=
  match c with
  | Ret s a => Ret s (inl a)
  | Exn s e => Ret s (inr e)
  | Susp s w k => Susp s w (fun r s' => captureCo (k r s'))
  | Forked w k rest => Forked w k (captureCo rest)
  end.

Definition capture {A} (m : M A) : M (A + Value) := fun s => captureCo (m s).

(** [try { m } catch (e) { h e }] *)
Definition tryCatch {A} (m : M A) (h : Value -> M A) : M A :=
  r ← capture m;
  match r with
  | inl a => ret a
  | inr e => h e
  end.

(** The promise of an [async] call that nobody awaits: its result and its
    rejection are dropped. *)
Fixpoint forget {A} (c : Co A) : Task :=
  match c with
  | Ret s _ => TDone s
  | Exn s _ => TDone s
  | Susp s w k => TWait s w (fun r s' => forget (k r s'))
  | Forked w k rest => TFork w k (forget rest)
  end.

(** [m()] for an [async] function [m], without [await]: [m] runs up to its
    first [await], and the caller goes on. *)
Fixpoint detach {A} (c : Co A) : Co unit :=
  match c with
  | Ret s _ => Ret s tt
  | Exn s _ => Ret s tt
  | Susp s w k => Forked w (fun r s' => forget (k r s')) (Ret s tt)
  | Forked w k rest => Forked w k (detach rest)
  end.

Definition spawn {A} (m : M A) : M unit := fun s => detach (m s).

(** [await m()] for an [async] function [m] of this class: once [m] is
    through, the caller goes on in a later microtask. *)
Definition awaitCall {A} (m : M A) : M A :=
  r ← capture m;
  _ ← capture (await Microtask);
  match r with
  | inl a => ret a
  | inr e => throw e
  end.

(** ** Browser calls *)

Definition stopTrack (t : MediaStreamTrack) : MediaStreamTrack :=
  mkTrack (label t) (torch t) true false.

(** One turn of the loop of [_stopVideoStream]: the track at hand is the
    first one still in the stream, the ones before it were removed. *)
Definition stopAndRemoveFirst (stream : MediaStream) : MediaStream :=
  match getTracks stream with
  | track :: rest => mkStream rest (removedTracks stream ++ [stopTrack track])%list
  | [] => stream
  end.

(** [_stopVideoStream]: [for (const track of stream.getTracks())
    { track.stop(); stream.removeTrack(track); }], the loop running over
    the array [getTracks()] returned before the first turn. *)
Definition _stopVideoStream (stream : MediaStream) : MediaStream :=
  fold_left (fun st _ => stopAndRemoveFirst st) (getTracks stream) stream.

Definition stopVideoStream (id : nat) : M unit :=
  modify (with_streams (alter _stopVideoStream id)).

(** [$video.play()]: the element stops being paused at once, the promise
    settles later. *)
Definition video_play : M Value :=
  modify (with_video (set_video_paused false));;
  emit VideoPlay;;
  await Play.

(** [$video.pause()] *)
Definition video_pause : M unit :=
  modify (with_video (set_video_paused true));;
  emit VideoPause.

(** [navigator.mediaDevices.getUserMedia({ video: constraints, audio: false })]:
    fulfilled with the tracks of a new stream, or rejected. *)
Definition getUserMedia (constraints : MediaTrackConstraints) : M nat :=
  emit (GetUserMediaCall constraints);;
  v ← await (GetUserMedia constraints);
  match v with
  | VTracks tracks =>
      s ← get;
      modify (with_streams (fun l => l ++ [mkStream tracks []])%list);;
      ret (length (streams s))
  | _ => throw TypeError
  end.

(** [stream.getVideoTracks()[0]] *)
Definition firstVideoTrack (s : State) (stream : nat) : option MediaStreamTrack :=
  match streams s !! stream with
  | Some st => head (getTracks st)
  | None => None
  end.

(** ** Camera acquisition *)

(** [_getFacingMode] *)
Definition _getFacingMode (s : State) (videoStream : nat) : option string :=
  match firstVideoTrack s videoStream with
  | None => None
  | Some videoTrack =>
      if re_rear_back_environment (label videoTrack) then Some "environment"
      else if re_front_user_face (label videoTrack) then Some "user"
      else None
  end.

(** The facing mode [_getCameraStream] returns with a stream
    (lines 519-526): [this._getFacingMode(stream) || (constraints.facingMode
    ? this._preferredCamera : (this._preferredCamera === 'environment' ?
    'user' : 'environment'))]. *)
Definition facingModeOf (s : State) (stream : nat)
    (constraints : MediaTrackConstraints) : string :=
  match _getFacingMode s stream with
  | Some facingMode => facingMode
  | None =>
      match facingMode_exact constraints with
      | Some _ => _preferredCamera (this s)
      | None =>
          if String.eqb (_preferredCamera (this s)) "environment"
          then "user" else "environment"
      end
  end.

Definition constraintsWithoutCamera : list MediaTrackConstraints :=
  [ mkConstraints (Some 1024) None None;
    mkConstraints (Some 768) None None;
    mkConstraints None None None ].

(** [Object.assign({}, constraint, { [preferenceType]: { exact: camera } })] *)
Definition withCamera (camera : string) (constraint : MediaTrackConstraints)
    : MediaTrackConstraints :=
  if re_environment_or_user camera
  then mkConstraints (width_min constraint) (Some camera) (deviceId_exact constraint)
  else mkConstraints (width_min constraint) (facingMode_exact constraint) (Some camera).

Definition constraintsWithCamera (camera : string) : list MediaTrackConstraints :=
  map (withCamera camera) constraintsWithoutCamera.

(** The [for] loop of [_getCameraStream] and the [throw] after it. *)
Fixpoint getCameraStreamLoop (l : list MediaTrackConstraints) : M (nat * string) :=
  match l with
  | [] => throw (VStr "Camera not found.")
  | constraints :: rest =>
      r ← capture (stream ← getUserMedia constraints;
                   s ← get;
                   ret (stream, facingModeOf s stream constraints));
      match r with
      | inl found => ret found
      | inr _ => getCameraStreamLoop rest
      end
  end.

(** [_getCameraStream] *)
Definition _getCameraStream : M (nat * string) :=
  s ← get;
  if negb (mediaDevices (browser s)) then throw (VStr "Camera not found.")
  else
    getCameraStreamLoop
      (constraintsWithCamera (_preferredCamera (this s)) ++ constraintsWithoutCamera)%list.

(** [_setVideoMirror] *)
Definition _setVideoMirror (facingMode : string) : M unit :=
  let scaleFactor := if String.eqb facingMode "user" then -1 else 1 in
  modify (with_video (set_scaleX scaleFactor)).

(** ** Flash *)

(** ['torch' in stream.getVideoTracks()[0].getSettings()] *)
Definition torchInSettings (stream : nat) : M bool :=
  s ← get;
  match firstVideoTrack s stream with
  | Some track => ret (torch track)
  | None => throw TypeError
  end.

Definition srcObject_is (s : State) (stream : nat) : bool :=
  match Video.srcObject (video s) with
  | SrcMediaStream id => Nat.eqb id stream
  | _ => false
  end.

(** [hasFlash] *)
Definition hasFlash : M bool :=
  s ← get;
  match Video.srcObject (video s) with
  | SrcOther => ret false
  | SrcMediaStream stream =>
      r ← capture (torchInSettings stream);
      ret (match r with inl b => b | inr _ => false end)
  | SrcNull =>
      r ← capture (awaitCall _getCameraStream);
      match r with
      | inr _ => ret false
      | inl (stream, _) =>
          r ← capture (torchInSettings stream);
          s ← get;
          (if negb (srcObject_is s stream)
           then emit (ConsoleWarn "Call hasFlash after successfully starting the scanner to avoid creating a temporary video stream");;
                stopVideoStream stream
           else ret tt);;
          ret (match r with inl b => b | inr _ => false end)
      end
  end.

(** [isFlashOn] *)
Definition isFlashOn (s : State) : bool := _flashOn (this s).

Definition lightTrack (t : MediaStreamTrack) : MediaStreamTrack :=
  mkTrack (label t) (torch t) (stopped t) true.

Definition lightFirstTrack (stream : MediaStream) : MediaStream :=
  match getTracks stream with
  | track :: rest => mkStream (lightTrack track :: rest) (removedTracks stream)
  | [] => stream
  end.

(** [getVideoTracks()[0].applyConstraints({ advanced: [{ torch: true }] })]
    on [$video.srcObject]; when the promise is fulfilled the light of the
    track is on. *)
Definition applyTorch : M unit :=
  s ← get;
  match Video.srcObject (video s) with
  | SrcMediaStream stream =>
      match firstVideoTrack s stream with
      | Some _ =>
          await (ApplyConstraints stream);;
          modify (with_streams (alter lightFirstTrack stream))
      | None => throw TypeError
      end
  | _ => throw TypeError
  end.

(** [turnFlashOn] *)
Definition turnFlashOn : M unit :=
  s ← get;
  if _flashOn (this s) || _destroyed (this s) then ret tt
  else
    modify (with_this (set_flashOn true));;
    s ← get;
    if negb (_active (this s)) || _paused (this s) then ret tt
    else
      tryCatch
        (has ← awaitCall hasFlash;
         if negb has then throw (VStr "No flash available")
         else applyTorch)
        (fun e => modify (with_this (set_flashOn false));; throw e).

(** ** Start, pause, stop *)

(** The closure [stopStream] of [pause]. *)
Definition stopStream : M unit :=
  s ← get;
  match Video.srcObject (video s) with
  | SrcMediaStream stream =>
      stopVideoStream stream;;
      modify (with_video (set_srcObject SrcNull))
  | _ => ret tt
  end.

(** [pause] *)
Definition pause (stopStreamImmediately : bool) : M bool :=
  modify (with_this (set_paused true));;
  s ← get;
  if negb (_active (this s)) then ret true
  else
    video_pause;;
    if stopStreamImmediately then stopStream;; ret true
    else
      capture (await (SetTimeout 300));;
      s ← get;
      if negb (_paused (this s)) then ret false
      else stopStream;; ret true.

(** [stop] *)
Definition stop : M unit :=
  spawn (pause false);;
  modify (with_this (set_active false)).

(** [start] *)
Definition start : M unit :=
  s ← get;
  if (_active (this s) && negb (_paused (this s))) || _destroyed (this s) then ret tt
  else
    (if negb (https (browser s))
     then emit (ConsoleWarn "The camera stream is only accessible if the page is transferred via https.")
     else ret tt);;
    modify (with_this (set_active true));;
    s ← get;
    if hidden (browser s) then ret tt
    else
      modify (with_this (set_paused false));;
      s ← get;
      match Video.srcObject (video s) with
      | SrcMediaStream _ | SrcOther => video_play;; ret tt
      | SrcNull =>
          tryCatch
            ('(stream, facingMode) ← awaitCall _getCameraStream;
             s ← get;
             if negb (_active (this s)) || _paused (this s)
             then stopVideoStream stream
             else
               modify (with_video (set_srcObject (SrcMediaStream stream)));;
               video_play;;
               _setVideoMirror facingMode;;
               s ← get;
               if _flashOn (this s)
               then modify (with_this (set_flashOn false));;
                    spawn turnFlashOn
               else ret tt)
            (fun e =>
               s ← get;
               if _paused (this s) then ret tt
               else modify (with_this (set_active false));; throw e)
      end.

(** [_restartVideoStream] *)
Definition _restartVideoStream : M unit :=
  s ← get;
  let wasPaused := _paused (this s) in
  paused ← awaitCall (pause true);
  s ← get;
  if negb paused || wasPaused || negb (_active (this s)) then ret tt
  else awaitCall start.

(** [turnFlashOff] *)
Definition turnFlashOff : M unit :=
  s ← get;
  if negb (_flashOn (this s)) then ret tt
  else
    modify (with_this (set_flashOn false));;
    awaitCall _restartVideoStream.

(** [toggleFlash] *)
Definition toggleFlash : M unit :=
  s ← get;
  if _flashOn (this s) then awaitCall turnFlashOff else awaitCall turnFlashOn.

(** [setCamera] *)
Definition setCamera (facingModeOrDeviceId : string) : M unit :=
  s ← get;
  if String.eqb facingModeOrDeviceId (_preferredCamera (this s)) then ret tt
  else
    modify (with_this (set_preferredCamera facingModeOrDeviceId));;
    awaitCall _restartVideoStream.

(** [_postWorkerMessage] *)
Definition _postWorkerMessage (qrEngine : option Engine) (type : string) : M unit :=
  capture (await Microtask);;
  match qrEngine with
  | Some (Worker w) => emit (PostMessage w type)
  | _ => ret tt
  end.

(** [destroy] *)
Definition destroy : M unit :=
  modify (set_listening false);;
  modify (with_this (set_destroyed true));;
  modify (with_this (set_flashOn false));;
  stop;;
  s ← get;
  spawn (_postWorkerMessage (Some (_qrEnginePromise (this s))) "close").

(** ** The request to a worker engine

    The promise [scanImage] builds around a [Worker] (lines 339-371): its
    executor adds two listeners to the worker, sets a timer, reads the
    frame off the canvas and posts it; each of the listeners and the timer
    may settle the promise, and so does an exception of the executor. *)
Module WorkerRequest.

(** What can reach the request once the executor has run: a [message]
    event or an [error] event of the worker, or the 10 seconds of the timer
    being over. *)
Inductive Event : Type :=
| Message (type : string) (data : Value)
| Error (error : Value)
| TimerElapsed.

(** [settlements] are the calls of [resolve] and [reject], most recent
    last; the promise is settled by the first of them. *)
Record t : Type := mk {
  messageListener : bool;
  errorListener : bool;
  timer : bool;
  settlements : list Settled;
}.

(** After [addEventListener] twice and [setTimeout(.., 10000)]. *)
Definition pending : t := mk true true true [].

Definition settle (r : Settled) (q : t) : t :=
  mk (messageListener q) (errorListener q) (timer q) (settlements q ++ [r])%list.

(** The two [removeEventListener] and the [clearTimeout] *)
Definition unregister (q : t) : t := mk false false false (settlements q).

Definition onMessage (type : string) (data : Value) (q : t) : t :=
  if negb (String.eqb type "qrResult") then q
  else
    let q := unregister q in
    match data with
    | VNull => settle (Rejected (VStr NO_QR_CODE_FOUND)) q
    | _ => settle (Fulfilled data) q
    end.

(** [!error ? 'Unknown Error' : (error.message || error)], as the
    concatenation ['Scanner error: ' + errorMessage] reads it.  The listener
    is handed an [ErrorEvent], here [VError] with its [message], and the
    timer hands over the string ['timeout']; an [ErrorEvent] whose message
    is empty is itself concatenated, as ['[object ErrorEvent]']. *)
Definition errorMessage (error : Value) : string :=
  if negb (truthy error) then "Unknown Error"
  else match error with
       | VError message =>
           if String.eqb message "" then "[object ErrorEvent]" else message
       | _ => toString error
       end.

Definition onError (error : Value) (q : t) : t :=
  let q := unregister q in
  settle (Rejected (VStr ("Scanner error: " ++ errorMessage error))) q.

(** An event reaches a listener only while it is registered, the timer
    fires only while it is set, and only once. *)
Definition dispatch (q : t) (ev : Event) : t :=
  match ev with
  | Message type data => if messageListener q then onMessage type data q else q
  | Error error => if errorListener q then onError error q else q
  | TimerElapsed =>
      if timer q
      then onError (VStr "timeout")
             (mk (messageListener q) (errorListener q) false (settlements q))
      else q
  end.

(** The executor, lines 361-369: after [addEventListener] twice and
    [setTimeout] it calls [getImageData] and [postMessage]; what one of them
    throws ([thrown], [None] if nothing is thrown) rejects the promise, and
    nothing is taken off then. *)
Definition executor (thrown : option Value) : t :=
  match thrown with
  | None => pending
  | Some e => settle (Rejected e) pending
  end.

(** The request from its executor on, with what reaches it afterwards. *)
Definition request (thrown : option Value) (evs : list Event) : t :=
  fold_left dispatch evs (executor thrown).

(** A request whose frame was posted. *)
Definition run (evs : list Event) : t := request None evs.

(** The state of the promise. *)
Definition promise (q : t) : option Settled := head (settlements q).

(** The events that settle a pending request. *)
Definition settles (ev : Event) : bool :=
  match ev with
  | Message type _ => String.eqb type "qrResult"
  | Error _ => true
  | TimerElapsed => true
  end.

End WorkerRequest.

(** ** Decoding one image *)

(** The first argument of [scanImage]. *)
Inductive ImageSource : Type :=
| VideoElement
    (** an [HTMLVideoElement]; the scanner passes [$video] *)
| Drawable (image : Image.t)
    (** a canvas, SVG image or bitmap, or an [Image] that has loaded *)
| Loading
    (** an [Image] still loading, a [File], [Blob], [URL] or string *)
| Unsupported.

(** What [_loadImage] returns: the video element itself, whose size is
    read when it is drawn, an image, or an [Image] whose load has failed. *)
Inductive Loaded : Type :=
| LoadedVideo
| LoadedImage (image : Image.t)
| BrokenImage.

(** [_loadImage], with [_awaitImageLoad].  [ImageLoad] is answered by the
    event the listener of [_awaitImageLoad] is called with: the listener
    rejects when the event is an [ErrorEvent], which is the answer
    [Rejected], and resolves on every other event.  [Fulfilled (VImage image)]
    is the [load] event of an image of these sizes; any other [Fulfilled] is
    the plain [Event] an image fires on [error] when its load has failed,
    on which [_awaitImageLoad] resolves as well and the image is returned as
    it is. *)
Definition _loadImage (input : ImageSource) : M Loaded :=
  match input with
  | VideoElement => ret LoadedVideo
  | Drawable image => ret (LoadedImage image)
  | Loading =>
      r ← capture (await ImageLoad);
      match r with
      | inl (VImage image) => ret (LoadedImage image)
      | inl _ => ret BrokenImage
      | inr _ => throw (VStr "Image load error")
      end
  | Unsupported => throw (VStr "Unsupported image type.")
  end.

(** [createQrEngine] *)
Definition createQrEngine : M Engine :=
  s ← get;
  modify (with_engines S);;
  ret (if nativeBarcodeDetector (browser s)
       then BarcodeDetector (engines s) else Worker (engines s)).

(** The sizes [_drawToCanvas] reads off what was loaded; an image whose
    load has failed has none. *)
Definition imageOf (s : State) (image : Loaded) : Image.t :=
  match image with
  | LoadedVideo =>
      Image.mk (Some (Video.videoWidth (video s))) (Some (Video.videoHeight (video s)))
        (Video.width (video s)) (Video.height (video s))
  | LoadedImage image => image
  | BrokenImage => Image.mk None None 0 0
  end.

(** [drawImage] throws an [InvalidStateError] when its image is an [Image]
    whose load has failed. *)
Definition broken (image : Loaded) : bool :=
  match image with
  | BrokenImage => true
  | _ => false
  end.

(** [_drawToCanvas] on the canvases of the state, with its first line
    [canvas = canvas || document.createElement('canvas')]. *)
Definition drawToCanvas (image : Loaded) (scanRegion : option ScanRegion.t)
    (canvas : option nat) (disallowCanvasResizing : bool) : M nat :=
  s ← get;
  canvas ← match canvas with
           | Some id => ret id
           | None =>
               modify (with_canvases (fun l => l ++ [Canvas.fresh])%list);;
               ret (length (canvases s))
           end;
  s ← get;
  match canvases s !! canvas with
  | Some c =>
      let '(c, call) := _drawToCanvas (imageOf s image) scanRegion c disallowCanvasResizing in
      modify (with_canvases <[canvas := c]>);;
      if broken image then throw (VError "InvalidStateError")
      else emit (DrawImageCall canvas call);; ret canvas
  | None => throw TypeError
  end.

(** The request to a worker: [getImageData] throws on an empty canvas;
    otherwise the frame is posted and the promise of [WorkerRequest]
    awaited. *)
Definition decodeWithWorker (w : nat) (canvas : nat) : M Value :=
  s ← get;
  match canvases s !! canvas with
  | Some c =>
      if (Canvas.width c =? 0) || (Canvas.height c =? 0)
      then throw (VError "IndexSizeError")
      else emit (PostMessage w "decode");; await (WorkerResponse w)
  | None => throw TypeError
  end.

(** The race of [detect] against the timer.  [Rejected VTimedOut] says the
    timer was first; otherwise the answer is that of [detect]. *)
Definition decodeWithDetector (d : nat) : M Value :=
  emit (DetectCall d);;
  r ← capture (await (DetectOrTimeout d));
  match r with
  | inr VTimedOut => throw (VStr "Scanner error: timeout")
  | inl (VDetected (rawValue :: _)) => ret (VStr rawValue)
  | inl (VDetected []) => throw (VStr ("Scanner error: " ++ NO_QR_CODE_FOUND))
  | inl _ => throw (VStr "Scanner error: TypeError")
  | inr e =>
      match messageOr e with
      | Some m => throw (VStr ("Scanner error: " ++ toString m))
      | None => throw TypeError
      end
  end.

Definition isSome {A} (o : option A) : bool :=
  match o with Some _ => true | None => false end.

(** The [try] block of [scanImage], handing back the variables [qrEngine]
    and [canvas] as they are when it is left, and how it was left. *)
Definition scanImageTry (input : ImageSource) (scanRegion : option ScanRegion.t)
    (qrEngine : option Engine) (canvas : option nat) (disallowCanvasResizing : bool)
    : M (option Engine * option nat * (Value + Value)) :=
  let gotExternalEngine := isSome qrEngine in
  r ← capture (awaitCall (engine ← match qrEngine with
                                   | Some e => ret e
                                   | None => createQrEngine
                                   end;
                          image ← _loadImage input;
                          ret (engine, image)));
  match r with
  | inr e => ret (qrEngine, canvas, inr e)
  | inl (engine, image) =>
      r ← capture (drawToCanvas image scanRegion canvas disallowCanvasResizing);
      match r with
      | inr e => ret (Some engine, canvas, inr e)
      | inl canvas =>
          r ← capture
                match engine with
                | Worker w =>
                    (if negb gotExternalEngine
                     then emit (PostMessage w "inversionMode") else ret tt);;
                    decodeWithWorker w canvas
                | BarcodeDetector d => decodeWithDetector d
                end;
          ret (Some engine, Some canvas, r)
      end
  end.

(** The body of [scanImage]; [self] is [scanImage] where the body calls
    itself, with five arguments. *)
Definition scanImageBody
    (self : ImageSource -> option ScanRegion.t -> option Engine -> option nat
            -> bool -> M Value)
    (input : ImageSource) (scanRegion : option ScanRegion.t)
    (qrEngine : option Engine) (canvas : option nat)
    (disallowCanvasResizing alsoTryWithoutScanRegion : bool) : M Value :=
  let gotExternalEngine := isSome qrEngine in
  '(qrEngine, canvas, r) ← scanImageTry input scanRegion qrEngine canvas
                              disallowCanvasResizing;
  r ← match r with
      | inl result => ret (inl result)
      | inr e =>
          if negb (isSome scanRegion) || negb alsoTryWithoutScanRegion
          then ret (inr e)
          else capture (awaitCall (self input None qrEngine canvas disallowCanvasResizing))
      end;
  (if negb gotExternalEngine
   then spawn (_postWorkerMessage qrEngine "close") else ret tt);;
  match r with
  | inl result => ret result
  | inr e => throw e
  end.

(** The call the body makes to itself passes no sixth argument, so that
    call makes no further one: [scanImage] is its body unfolded twice. *)
Definition scanImageWithoutRetry (input : ImageSource)
    (scanRegion : option ScanRegion.t) (qrEngine : option Engine)
    (canvas : option nat) (disallowCanvasResizing : bool) : M Value :=
  scanImageBody (fun _ _ _ _ _ => throw TypeError)
    input scanRegion qrEngine canvas disallowCanvasResizing false.

(** [scanImage] *)
Definition scanImage (input : ImageSource) (scanRegion : option ScanRegion.t)
    (qrEngine : option Engine) (canvas : option nat)
    (disallowCanvasResizing alsoTryWithoutScanRegion : bool) : M Value :=
  scanImageBody scanImageWithoutRetry
    input scanRegion qrEngine canvas disallowCanvasResizing alsoTryWithoutScanRegion.

(** ** The scan loop *)

(** [_scanFrame]: the test, and the request for an animation frame. *)
Definition _scanFrame (s : State) : State :=
  if negb (_active (this s)) || Video.paused (video s) || Video.ended (video s)
  then s
  else with_animationFrames S s.

(** [error === QrScanner.NO_QR_CODE_FOUND] *)
Definition is_NO_QR_CODE_FOUND (error : Value) : bool :=
  match error with
  | VStr m => String.eqb m NO_QR_CODE_FOUND
  | _ => false
  end.

(** [this._onDecodeError(error)]: the default handler of the class, or the
    one the caller gave to the constructor. *)
Definition onDecodeError (error : Value) : M unit :=
  s ← get;
  match _onDecodeError (this s) with
  | CallerOnDecodeError => emit (OnDecodeErrorCall error)
  | DefaultOnDecodeError =>
      if is_NO_QR_CODE_FOUND error then ret tt else emit (ConsoleLog error)
  end.

(** What the callback of [_scanFrame] does once [await scanImage(..)] is
    through (lines 474-488): [r] is the result, or what was thrown. *)
Definition afterScan (r : Value + Value) : M unit :=
  match r with
  | inl result =>
      (if truthy result then emit (OnDecodeCall result) else ret tt);;
      modify _scanFrame
  | inr error =>
      s ← get;
      if negb (_active (this s)) then ret tt
      else
        match messageOr error with
        | Some (VStr errorMessage) =>
            (if includes errorMessage "service unavailable"
             then engine ← createQrEngine;
                  modify (with_this (set_qrEnginePromise engine))
             else ret tt);;
            onDecodeError error;;
            modify _scanFrame
        | _ => throw TypeError
        end
  end.

(** The callback [_scanFrame] gives to [requestAnimationFrame]. *)
Definition animationFrame : M unit :=
  s ← get;
  if Video.readyState (video s) <=? 1 then modify _scanFrame
  else
    r ← capture (awaitCall (scanImage VideoElement (Some (_scanRegion (this s)))
                              (Some (_qrEnginePromise (this s)))
                              (Some (canvas (this s))) false false));
    afterScan r.

(** ** The listeners of the constructor *)

Definition calculateScanRegion (s : State) : State :=
  with_this (set_scanRegion (_calculateScanRegion (this s) (video s))) s.

(** [_onPlay] *)
Definition _onPlay : M unit :=
  modify calculateScanRegion;;
  modify _scanFrame.

(** [_onLoadedMetaData] *)
Definition _onLoadedMetaData : M unit :=
  modify calculateScanRegion.

(** [_onVisibilityChange] *)
Definition _onVisibilityChange : M unit :=
  s ← get;
  if hidden (browser s) then spawn (pause false)
  else if _active (this s) then spawn start
  else ret tt.

(** ** The scanner in its environment

    The scanner's state together with the [async] calls that wait at an
    [await]; the environment calls methods, fires events and settles what
    is awaited, in any order. *)

Definition Kont : Type := Settled -> State -> Task.

Record Machine : Type := mkMachine {
  now : State;
  waiting : list (Await * Kont);
}.

Fixpoint absorb (t : Task) (pool : list (Await * Kont)) : Machine :=
  match t with
  | TDone s => mkMachine s pool
  | TWait s w k => mkMachine s (pool ++ [(w, k)])%list
  | TFork w k rest => absorb rest (pool ++ [(w, k)])%list
  end.

(** A call from outside, whose promise is not looked at. *)
Definition call {A} (m : M A) (mc : Machine) : Machine :=
  absorb (forget (m (now mc))) (waiting mc).

(** The public methods. *)
Inductive Method : Type :=
| Start
| Stop
| Pause (stopStreamImmediately : bool)
| SetCamera (facingModeOrDeviceId : string)
| TurnFlashOn
| TurnFlashOff
| ToggleFlash
| HasFlash
| Destroy.

Definition invoke (m : Method) : Machine -> Machine :=
  match m with
  | Start => call start
  | Stop => call stop
  | Pause b => call (pause b)
  | SetCamera c => call (setCamera c)
  | TurnFlashOn => call turnFlashOn
  | TurnFlashOff => call turnFlashOff
  | ToggleFlash => call toggleFlash
  | HasFlash => call hasFlash
  | Destroy => call destroy
  end.

Inductive Input : Type :=
| Calls (m : Method)
| PlayEvent
| LoadedMetadataEvent
| VisibilityChange (hidden : bool)
| AnimationFrame
| Settle (i : nat) (r : Settled)
| VideoChange (readyState videoWidth videoHeight : Z) (ended : bool).

Definition set_hidden (b : bool) (br : Browser) : Browser :=
  mkBrowser b (mediaDevices br) (https br) (nativeBarcodeDetector br).

(** The video gets or loses frames: its [readyState], the size of its
    frames and [ended] change. *)
Definition video_loads (readyState videoWidth videoHeight : Z) (ended : bool)
    (v : Video.t) : Video.t :=
  Video.mk (Video.srcObject v) (Video.paused v) ended readyState
    videoWidth videoHeight (Video.width v) (Video.height v) (Video.scaleX v).

Definition step (mc : Machine) (i : Input) : Machine :=
  match i with
  | Calls m => invoke m mc
  | PlayEvent =>
      if listening (now mc) then call _onPlay mc else mc
  | LoadedMetadataEvent =>
      if listening (now mc) then call _onLoadedMetaData mc else mc
  | VisibilityChange b =>
      let mc := mkMachine (with_browser (set_hidden b) (now mc)) (waiting mc) in
      if listening (now mc) then call _onVisibilityChange mc else mc
  | AnimationFrame =>
      match animationFrames (now mc) with
      | O => mc
      | S n =>
          call animationFrame
            (mkMachine (with_animationFrames (fun _ => n) (now mc)) (waiting mc))
      end
  | Settle i r =>
      match waiting mc !! i with
      | Some (_, k) => absorb (k r (now mc)) (delete i (waiting mc))
      | None => mc
      end
  | VideoChange readyState videoWidth videoHeight ended =>
      mkMachine (with_video (video_loads readyState videoWidth videoHeight ended) (now mc))
        (waiting mc)
  end.

Definition run (mc : Machine) (inputs : list Input) : Machine :=
  fold_left step inputs mc.

(** The constructor: the fields it sets, the canvas and the engine it
    creates and the listeners it registers.  The deprecated signatures with
    a canvas size and the restyling of a hidden video are left out. *)
Definition construct (video : Video.t) (onDecodeError : ErrorHandler)
    (calculateScanRegion : Video.t -> ScanRegion.t) (preferredCamera : string)
    (browser : Browser) : Machine :=
  mkMachine
    (mkState
       (mkQrScanner onDecodeError calculateScanRegion preferredCamera
          (calculateScanRegion video)
          (if nativeBarcodeDetector browser then BarcodeDetector 0 else Worker 0)
          false false false false 0)
       video browser [] [Canvas.fresh] 1 true 0 [])
    [].

(** What is awaited, in the order the calls stopped. *)
Definition awaited (mc : Machine) : list Await := map fst (waiting mc).

(** ** One call on its own

    Where a call stands, and how it goes on when what it awaits settles. *)

Fixpoint stateOf {A} (c : Co A) : State :=
  match c with
  | Ret s _ => s
  | Exn s _ => s
  | Susp s _ _ => s
  | Forked _ _ rest => stateOf rest
  end.

Fixpoint resultOf {A} (c : Co A) : option (A + Value) :=
  match c with
  | Ret _ a => Some (inl a)
  | Exn _ e => Some (inr e)
  | Susp _ _ _ => None
  | Forked _ _ rest => resultOf rest
  end.

Fixpoint awaitOf {A} (c : Co A) : option Await :=
  match c with
  | Ret _ _ => None
  | Exn _ _ => None
  | Susp _ w _ => Some w
  | Forked _ _ rest => awaitOf rest
  end.

(** The awaited promise settles with [r] while the state is [s']. *)
Fixpoint resumeOn {A} (r : Settled) (s' : State) (c : Co A) : Co A :=
  match c with
  | Susp _ _ k => k r s'
  | Forked w k rest => Forked w k (resumeOn r s' rest)
  | _ => c
  end.

(** The same, nothing else having run since the call stopped. *)
Definition resume {A} (r : Settled) (c : Co A) : Co A :=
  resumeOn r (stateOf c) c.

(** The awaits of a call are answered one after the other, nothing else
    running in between. *)
Definition feed {A} (c : Co A) (answers : list Settled) : Co A :=
  fold_left (fun c r => resume r c) answers c.

(** The call is given exactly these answers, one for each [await] it
    comes to, nothing else running in between: the state it ends in and what
    it returns or throws. *)
Fixpoint runTo {A} (c : Co A) (answers : list Settled) : option (State * (A + Value)) :=
  match c with
  | Ret s a => match answers with [] => Some (s, inl a) | _ => None end
  | Exn s e => match answers with [] => Some (s, inr e) | _ => None end
  | Susp s _ k =>
      match answers with
      | r :: rest => runTo (k r s) rest
      | [] => None
      end
  | Forked _ _ rest => runTo rest answers
  end.

(** ** Notions the properties are stated with *)

(** *** Scan regions *)

(** The width and the height [_drawToCanvas] takes for the whole image. *)
Definition sourceWidth (image : Image.t) : Z :=
  orElse (Image.videoWidth image) (Image.width image).

Definition sourceHeight (image : Image.t) : Z :=
  orElse (Image.videoHeight image) (Image.height image).

(** A field that is [0] read as a field that is not there. *)
Definition absentIfZero (v : option Z) : option Z :=
  match v with
  | Some n => if n =? 0 then None else Some n
  | None => None
  end.

Definition withoutZeros (r : ScanRegion.t) : ScanRegion.t :=
  ScanRegion.mk (absentIfZero (ScanRegion.x r)) (absentIfZero (ScanRegion.y r))
    (absentIfZero (ScanRegion.width r)) (absentIfZero (ScanRegion.height r))
    (absentIfZero (ScanRegion.downScaledWidth r))
    (absentIfZero (ScanRegion.downScaledHeight r)).

(** The value of a field, or [otherwise] when the field is not there or
    is [0]. *)
Definition fieldOr (field : option Z) (otherwise : Z) : Z :=
  match absentIfZero field with
  | Some n => n
  | None => otherwise
  end.

(** The sizes a canvas keeps as they are, see [Canvas.kept]. *)
Definition canvasSize (n : Z) : Prop := 0 <= n <= 2147483647.

Definition canvasSizeIfAny (field : option Z) : Prop :=
  match field with
  | Some n => canvasSize n
  | None => True
  end.

(** *** Camera negotiation *)

(** The tracks of the stream a [getUserMedia] promise is fulfilled with;
    [None] when the negotiation failed. *)
Definition tracksOf (r : Settled) : option (list MediaStreamTrack) :=
  match r with
  | Fulfilled (VTracks tracks) => Some tracks
  | _ => None
  end.

(** The first negotiation that succeeds, and its place among the answers. *)
Fixpoint firstNegotiated (answers : list Settled) : option (nat * list MediaStreamTrack) :=
  match answers with
  | [] => None
  | r :: rest =>
      match tracksOf r with
      | Some tracks => Some (O, tracks)
      | None =>
          match firstNegotiated rest with
          | Some (n, tracks) => Some (S n, tracks)
          | None => None
          end
      end
  end.

(** The constraint sets in the order of the specification: the three
    resolution tiers with the preferred camera as an exact facing mode or as
    an exact device id, then the three tiers alone. *)
Definition tiers (camera : string) : list MediaTrackConstraints :=
  if re_environment_or_user camera then
    [ mkConstraints (Some 1024) (Some camera) None;
      mkConstraints (Some 768) (Some camera) None;
      mkConstraints None (Some camera) None;
      mkConstraints (Some 1024) None None;
      mkConstraints (Some 768) None None;
      mkConstraints None None None ]
  else
    [ mkConstraints (Some 1024) None (Some camera);
      mkConstraints (Some 768) None (Some camera);
      mkConstraints None None (Some camera);
      mkConstraints (Some 1024) None None;
      mkConstraints (Some 768) None None;
      mkConstraints None None None ].

Definition noConstraints : MediaTrackConstraints := mkConstraints None None None.

(** The facing side as the specification infers it: from the label of the
    stream's track when the label tells; else the requested side when the
    stream was obtained under a facing-mode constraint; else the opposite
    side when a side was requested; else the rear. *)
Definition sideOfLabel (track : option MediaStreamTrack) : option string :=
  match track with
  | None => None
  | Some t =>
      if re_rear_back_environment (label t) then Some "environment"
      else if re_front_user_face (label t) then Some "user"
      else None
  end.

Definition oppositeSide (side : string) : string :=
  if String.eqb side "environment" then "user" else "environment".

Definition inferredSide (track : option MediaStreamTrack)
    (underFacingMode : bool) (requested : string) : string :=
  match sideOfLabel track with
  | Some side => side
  | None =>
      if underFacingMode then requested
      else if re_environment_or_user requested then oppositeSide requested
      else "environment"
  end.

Definition requested (l : list MediaTrackConstraints) (s : State) : list Effect :=
  (effects s ++ map GetUserMediaCall l)%list.

(** *** The worker request *)

(** What an event that settles a pending request settles it with. *)
Definition outcome (ev : WorkerRequest.Event) : Settled :=
  match ev with
  | WorkerRequest.Message _ VNull => Rejected (VStr NO_QR_CODE_FOUND)
  | WorkerRequest.Message _ data => Fulfilled data
  | WorkerRequest.Error error =>
      Rejected (VStr ("Scanner error: "
                      ++ match error with
                         | VUndefined | VNull | VBool false | VStr "" => "Unknown Error"
                         | VStr text => text
                         | VError "" => "[object ErrorEvent]"
                         | VError message => message
                         | VBool true => "true"
                         | _ => "[object Object]"
                         end))
  | WorkerRequest.TimerElapsed => Rejected (VStr "Scanner error: timeout")
  end.

(** Nothing is registered any more. *)
Definition unregistered (q : WorkerRequest.t) : Prop :=
  WorkerRequest.messageListener q = false
  /\ WorkerRequest.errorListener q = false
  /\ WorkerRequest.timer q = false.

(** *** Streams *)

(** A stream all of whose tracks were stopped and taken out. *)
Definition releasedStream (stream : MediaStream) : MediaStream :=
  mkStream [] (removedTracks stream ++ map stopTrack (getTracks stream))%list.

(** The state once [stopStream] of [pause] has run. *)
Definition afterStopStream (s : State) : State := stateOf (stopStream s).

(** *** The scan loop *)

(** What [await] makes of a settled promise. *)
Definition settledToSum (r : Settled) : Value + Value :=
  match r with
  | Fulfilled v => inl v
  | Rejected e => inr e
  end.

(** The state once the callback of [_scanFrame] has drawn the frame on
    [$canvas], so far [c], and posted it to the worker [w]. *)
Definition framePosted (w : nat) (c : Canvas.t) (s : State) : State :=
  let drawn := _drawToCanvas (imageOf s LoadedVideo) (Some (_scanRegion (this s))) c false in
  log (PostMessage w "decode")
    (log (DrawImageCall (canvas (this s)) (snd drawn))
       (with_canvases <[canvas (this s) := fst drawn]> s)).

(** The calls of the error handler that can be seen from outside: the
    caller's handler being called, the default one logging. *)
Definition isErrorReport (e : Effect) : bool :=
  match e with
  | OnDecodeErrorCall _ | ConsoleLog _ => true
  | _ => false
  end.

Definition errorReports (s : State) : list Effect := filter isErrorReport (effects s).

Definition isOnDecode (e : Effect) : bool :=
  match e with
  | OnDecodeCall _ => true
  | _ => false
  end.

Definition isGetUserMedia (e : Effect) : bool :=
  match e with
  | GetUserMediaCall _ => true
  | _ => false
  end.

(** *** The destroyed scanner *)

(** The flags as [destroy] leaves them. *)
Definition Destroyed (s : State) : Prop :=
  _destroyed (this s) = true
  /\ _active (this s) = false
  /\ _paused (this s) = true
  /\ _flashOn (this s) = false.

(** The calls of the decode callback so far. *)
Definition decodeCalls (s : State) : list Effect := filter isOnDecode (effects s).

(** A call that does nothing: it leaves the state [s0] as it is, it makes
    no call it does not wait for, and the only thing it ever waits for is
    the next microtask; and so again from the state it goes on in, as long
    as the scanner is still destroyed then. *)
Inductive Idle {A} (s0 : State) : Co A -> Prop :=
| Idle_Ret a : Idle s0 (Ret s0 a)
| Idle_Exn e : Idle s0 (Exn s0 e)
| Idle_Susp k :
    (forall r s', Destroyed s' -> Idle s' (k r s')) ->
    Idle s0 (Susp s0 Microtask k).

(** What a destroyed scanner keeps in any case, from one state to a later
    one: it stays destroyed, no error is reported, no animation frame is
    requested, and the video keeps its stream or loses it. *)
Definition lasts (s0 s : State) : Prop :=
  Destroyed s0 ->
  Destroyed s
  /\ errorReports s = errorReports s0
  /\ (animationFrames s <= animationFrames s0)%nat
  /\ (Video.srcObject (video s) = Video.srcObject (video s0)
      \/ Video.srcObject (video s) = SrcNull).

(** All of this, and the decode callback is not called. *)
Definition keeps (s0 s : State) : Prop :=
  lasts s0 s /\ (Destroyed s0 -> decodeCalls s = decodeCalls s0).

(** All of this, and the decode callback is called once at most. *)
Definition keepsButOne (s0 s : State) : Prop :=
  lasts s0 s
  /\ (Destroyed s0 -> (length (decodeCalls s) <= S (length (decodeCalls s0)))%nat).

Fixpoint stateOfTask (t : Task) : State :=
  match t with
  | TDone s => s
  | TWait s _ _ => s
  | TFork _ _ rest => stateOfTask rest
  end.

(** Code that keeps a destroyed scanner destroyed and calls no decode
    callback wherever it goes on. *)
Inductive RobustTask : Task -> Prop :=
| RobustTask_Done s : RobustTask (TDone s)
| RobustTask_Wait s w k :
    (forall r s', keeps s' (stateOfTask (k r s'))) ->
    (forall r s', RobustTask (k r s')) ->
    RobustTask (TWait s w k)
| RobustTask_Fork w k rest :
    (forall r s', keeps s' (stateOfTask (k r s'))) ->
    (forall r s', RobustTask (k r s')) ->
    RobustTask rest ->
    RobustTask (TFork w k rest).

Inductive Robust {A} : Co A -> Prop :=
| Robust_Ret s a : Robust (Ret s a)
| Robust_Exn s e : Robust (Exn s e)
| Robust_Susp s w k :
    (forall r s', keeps s' (stateOf (k r s'))) ->
    (forall r s', Robust (k r s')) ->
    Robust (Susp s w k)
| Robust_Forked w k rest :
    (forall r s', keeps s' (stateOfTask (k r s'))) ->
    (forall r s', RobustTask (k r s')) ->
    Robust rest ->
    Robust (Forked w k rest).

(** The code of a method, run from any state. *)
Definition Safe {A} (m : M A) : Prop :=
  forall s, keeps s (stateOf (m s)) /\ Robust (m s).

(** A turn of the scan loop: code that is robust but for one call of the
    decode callback.  Wherever it goes on, the decode callback is called
    once at most and what is left is a turn again; and either the decode
    callback is not called, or what is left is robust. *)
Inductive TurnTask : Task -> Prop :=
| TurnTask_Done s : TurnTask (TDone s)
| TurnTask_Wait s w k :
    (forall r s', keepsButOne s' (stateOfTask (k r s'))) ->
    (forall r s', TurnTask (k r s')) ->
    (forall r s', keeps s' (stateOfTask (k r s')) \/ RobustTask (k r s')) ->
    TurnTask (TWait s w k)
| TurnTask_Fork w k rest :
    (forall r s', keeps s' (stateOfTask (k r s'))) ->
    (forall r s', RobustTask (k r s')) ->
    TurnTask rest ->
    TurnTask (TFork w k rest).

Inductive Turn {A} : Co A -> Prop :=
| Turn_Ret s a : Turn (Ret s a)
| Turn_Exn s e : Turn (Exn s e)
| Turn_Susp s w k :
    (forall r s', keepsButOne s' (stateOf (k r s'))) ->
    (forall r s', Turn (k r s')) ->
    (forall r s', keeps s' (stateOf (k r s')) \/ Robust (k r s')) ->
    Turn (Susp s w k)
| Turn_Forked w k rest :
    (forall r s', keeps s' (stateOfTask (k r s'))) ->
    (forall r s', RobustTask (k r s')) ->
    Turn rest ->
    Turn (Forked w k rest).

(** *** A scanner at work

    A page served over https with a rear camera that has a torch, a worker
    engine and the default error handler; the runs below are used where a
    property is shown on a run. *)

Definition exampleVideo : Video.t := Video.mk SrcNull true false 0 0 0 0 0 1.

Definition exampleBrowser : Browser := mkBrowser false true true false.

Definition exampleRegion (v : Video.t) : ScanRegion.t :=
  ScanRegion.mk None None None None None None.

Definition rearCamera : list MediaStreamTrack :=
  [mkTrack "camera2 0, facing back" true false false].

Definition tick : Settled := Fulfilled VUndefined.

Definition newScanner : Machine :=
  construct exampleVideo DefaultOnDecodeError exampleRegion "environment" exampleBrowser.

(** [start()] and its stream: the video plays the rear camera. *)
Definition started : Machine :=
  run newScanner
    [Calls Start; Settle 0 (Fulfilled (VTracks rearCamera)); Settle 0 tick; Settle 0 tick].

(** The video has frames and an animation frame comes: a frame is posted
    to the worker and its answer awaited. *)
Definition decoding : Machine :=
  run started [PlayEvent; VideoChange 4 640 480 false; AnimationFrame; Settle 0 tick].

(** [turnFlashOn()] on the playing video: the torch is lit. *)
Definition lit_up : Machine :=
  run started [Calls TurnFlashOn; Settle 0 tick; Settle 0 tick].

(** State changes that keep what a destroyed scanner keeps. *)
Definition harmless (f : State -> State) : Prop := forall s, keeps s (f s).

(** A call that waits and is robust, and one that is a turn of the scan
    loop. *)
Definition RobustKont (wk : Await * Kont) : Prop :=
  forall r s', keeps s' (stateOfTask (snd wk r s')) /\ RobustTask (snd wk r s').

Definition TurnKont (wk : Await * Kont) : Prop :=
  forall r s',
    keepsButOne s' (stateOfTask (snd wk r s'))
    /\ TurnTask (snd wk r s')
    /\ (keeps s' (stateOfTask (snd wk r s')) \/ RobustTask (snd wk r s')).

(** Every call that waits in the machine is a turn of the scan loop, if
    it is not robust. *)
Definition TurnMachine (mc : Machine) : Prop := Forall TurnKont (waiting mc).

(** At most [n] of the calls that wait are not robust. *)
Inductive Debt : nat -> list (Await * Kont) -> Prop :=
| Debt_nil n : Debt n []
| Debt_robust n wk l : RobustKont wk -> Debt n l -> Debt n (wk :: l)
| Debt_turn n wk l : TurnKont wk -> Debt n l -> Debt (S n) (wk :: l).

(** The animation frames among the inputs of a run. *)
Definition isAnimationFrame (i : Input) : bool :=
  match i with
  | AnimationFrame => true
  | _ => false
  end.

(** An animation frame that fires takes a pending request away. *)
Definition fired (i : Input) : nat := if isAnimationFrame i then 1 else 0.

(** Code at the end of a turn: from wherever it is run, the decode
    callback is called once at most, and what is left is robust. *)
Definition Last {A B} (f : A -> M B) : Prop :=
  forall a s, keepsButOne s (stateOf (f a s)) /\ Robust (f a s).

(** The code of a callback that is a turn of the scan loop. *)
Definition TurnCall {A} (m : M A) : Prop :=
  forall s,
    keepsButOne s (stateOf (m s))
    /\ Turn (m s)
    /\ (keeps s (stateOf (m s)) \/ Robust (m s)).

(** What the destroyed machine owes: the calls of the decode callback so
    far, the animation frames that are pending and the calls that wait and
    are not robust never add up to more than [bound]. *)
Definition Owing (bound : nat) (mc : Machine) : Prop :=
  Destroyed (now mc)
  /\ exists debt,
       Debt debt (waiting mc)
       /\ (length (decodeCalls (now mc)) + animationFrames (now mc) + debt <= bound)%nat.

(** The states of these runs. *)
Definition playing : State := Eval vm_compute in now started.

Definition showingFrames : State :=
  Eval vm_compute in now (run started [PlayEvent; VideoChange 4 640 480 false]).

Definition torchLit : State := Eval vm_compute in now lit_up.


(** * Further definitions

    What the properties of the last part of the file are about: the default
    scan region, the static methods that list the cameras, and the notions
    their statements use. *)

(** ** The default scan region *)

(** [Math.round(n / d)] for integers [n] and [d > 0]: the nearest integer,
    a tie going up.  The quotients the scanner rounds are halves and thirds
    of sizes in pixels, which floating point rounds to the same integer. *)
Definition Math_round (n d : Z) : Z := (2 * n + d) / (2 * d).

(** [static readonly DEFAULT_CANVAS_SIZE] *)
Definition DEFAULT_CANVAS_SIZE : Z := 400.

Module Default.
(** The method [_calculateScanRegion] of the class, which the constructor
    uses when it is given no function; [_legacyCanvasSize] is
    [DEFAULT_CANVAS_SIZE] unless a deprecated signature was used. *)
Definition _calculateScanRegion (_legacyCanvasSize : Z) (video : Video.t) : ScanRegion.t :=
  let smallestDimension := Z.min (Video.videoWidth video) (Video.videoHeight video) in
  let scanRegionSize := Math_round (2 * smallestDimension) 3 in
  ScanRegion.mk
    (Some (Math_round (Video.videoWidth video - scanRegionSize) 2))
    (Some (Math_round (Video.videoHeight video - scanRegionSize) 2))
    (Some scanRegionSize)
    (Some scanRegionSize)
    (Some _legacyCanvasSize)
    (Some _legacyCanvasSize).
End Default.

(** ** Listing the cameras

    The static methods [listCameras] and [hasCamera] do not touch a
    scanner; they talk to [navigator.mediaDevices] only. *)

Module MediaDeviceInfo.
Record t : Type := mk { kind : string; deviceId : string; label : string }.
End MediaDeviceInfo.

Module Camera.
(** [interface Camera] *)
Record t : Type := mk { id : string; label : string }.
End Camera.

Module Navigator.
(** [navigator.mediaDevices] as the static methods use it: whether it is
    there, what [enumerateDevices()] answers to its calls, the first being
    call [0], and what [getUserMedia({ audio: false, video: true })]
    answers; [inr] is a rejection. *)
Record t : Type := mk {
  mediaDevices : bool;
  enumerateDevices : nat -> list MediaDeviceInfo.t + Value;
  getUserMedia : list MediaStreamTrack + Value;
}.
End Navigator.

(** What a static method does to the outside, in the order it does it. *)
Inductive Did : Type :=
| EnumerateDevicesCall
| GetUserMediaVideoCall
| Warn (msg : string)
| StopVideoStream (stream : MediaStream)
    (** [_stopVideoStream(stream)], with the stream as the call leaves it *).

Definition isVideoInput (device : MediaDeviceInfo.t) : bool :=
  String.eqb (MediaDeviceInfo.kind device) "videoinput".

(** The closure [enumerateCameras] of [listCameras], as call [n] of
    [enumerateDevices] *)
Definition enumerateCameras (nav : Navigator.t) (n : nat)
    : list MediaDeviceInfo.t + Value :=
  match Navigator.enumerateDevices nav n with
  | inl devices => inl (List.filter isVideoInput devices)
  | inr e => inr e
  end.

(** [camera.label || (i === 0 ? 'Default Camera' : `Camera ${i + 1}`)] *)
Definition cameraLabel (i : nat) (label : string) : string :=
  if String.eqb label "" then
    if Nat.eqb i 0 then "Default Camera"
    else "Camera " ++ NilZero.string_of_uint (Nat.to_uint (i + 1))
  else label.

Definition toCamera (i : nat) (camera : MediaDeviceInfo.t) : Camera.t :=
  Camera.mk (MediaDeviceInfo.deviceId camera) (cameraLabel i (MediaDeviceInfo.label camera)).

Definition unlabelled (camera : MediaDeviceInfo.t) : bool :=
  String.eqb (MediaDeviceInfo.label camera) "".

(** [listCameras]: what it did and what its promise settles with. *)
Definition listCameras (requestLabels : bool) (nav : Navigator.t)
    : list Did * (list Camera.t + Value) :=
  if negb (Navigator.mediaDevices nav) then ([], inl [])
  else
    (* the first [try], whose [catch] is empty *)
    let '(did, calls, openedStream) :=
      if requestLabels then
        match enumerateCameras nav 0 with
        | inl cameras =>
            if forallb unlabelled cameras then
              match Navigator.getUserMedia nav with
              | inl tracks =>
                  ([EnumerateDevicesCall; GetUserMediaVideoCall], 1%nat,
                   Some (mkStream tracks []))
              | inr _ => ([EnumerateDevicesCall; GetUserMediaVideoCall], 1%nat, None)
              end
            else ([EnumerateDevicesCall], 1%nat, None)
        | inr _ => ([EnumerateDevicesCall], 1%nat, None)
        end
      else ([], 0%nat, None) in
    (* the second [try] and its [finally] *)
    let result :=
      match enumerateCameras nav calls with
      | inl cameras => inl (imap toCamera cameras)
      | inr e => inr e
      end in
    let closing :=
      match openedStream with
      | Some stream =>
          [Warn "Call listCameras after successfully starting a QR scanner to avoid creating a temporary video stream";
           StopVideoStream (_stopVideoStream stream)]
      | None => []
      end in
    ((did ++ [EnumerateDevicesCall] ++ closing)%list, result).

(** [hasCamera] *)
Definition hasCamera (nav : Navigator.t) : list Did * (bool + Value) :=
  let '(did, r) := listCameras false nav in
  (did,
   match r with
   | inl cameras => inl (negb (Nat.eqb (length cameras) 0))
   | inr _ => inl false
   end).

(** The devices of a list that are cameras. *)
Definition videoInputs (devices : list MediaDeviceInfo.t) : list MediaDeviceInfo.t :=
  List.filter isVideoInput devices.

(** The page of the examples lists a microphone and two cameras, the
    second one without a label. *)
Definition exampleNavigator : Navigator.t :=
  Navigator.mk true
    (fun _ => inl [MediaDeviceInfo.mk "audioinput" "mic" "Microphone";
                   MediaDeviceInfo.mk "videoinput" "cam0" "Back Camera";
                   MediaDeviceInfo.mk "videoinput" "cam1" ""])
    (inl rearCamera).

(** ** Notions the further properties are stated with *)

(** The state after [getUserMedia] was called with each of these
    constraint sets. *)
Definition asked (l : list MediaTrackConstraints) (s : State) : State :=
  fold_left (fun s constraints => log (GetUserMediaCall constraints) s) l s.

(** The state with one more stream, of these tracks. *)
Definition acquired (tracks : list MediaStreamTrack) (s : State) : State :=
  with_streams (fun l => l ++ [mkStream tracks []])%list s.

(** A negotiation that fails. *)
Definition refused (r : Settled) : Prop := tracksOf r = None.

(** The warning of [start] on a page that is not served over https. *)
Definition httpsWarning (s : State) : list Effect :=
  if https (browser s) then []
  else [ConsoleWarn "The camera stream is only accessible if the page is transferred via https."].

(** A scanner that [start] starts: it is not running already and it was
    not destroyed, the page is visible and the video has no source. *)
Definition startable (s : State) : Prop :=
  (_active (this s) = false \/ _paused (this s) = true)
  /\ _destroyed (this s) = false
  /\ hidden (browser s) = false
  /\ Video.srcObject (video s) = SrcNull.

(** [start] up to its call of [_getCameraStream]: the warning, and the
    flags set. *)
Definition entered (s : State) : State :=
  with_this (set_paused false)
    (with_this (set_active true)
       (if https (browser s) then s
        else log (ConsoleWarn "The camera stream is only accessible if the page is transferred via https.") s)).

(** A call whose promise is never rejected, however and in whatever state
    of the scanner the promises it awaits settle. *)
Inductive NeverRejects {A} : Co A -> Prop :=
| NeverRejects_Ret s a : NeverRejects (Ret s a)
| NeverRejects_Susp s w k :
    (forall r s', NeverRejects (k r s')) -> NeverRejects (Susp s w k)
| NeverRejects_Forked w k rest :
    NeverRejects rest -> NeverRejects (Forked w k rest).

(** ['torch' in settings] of the first track, as [hasFlash] answers. *)
Definition torchOf (tracks : list MediaStreamTrack) : bool :=
  match head tracks with
  | Some track => torch track
  | None => false
  end.

(** A scanner on its own: nothing waits yet. *)
Definition alone (s : State) : Machine := mkMachine s [].

(** The message [destroy] and [scanImage] post to an engine of theirs. *)
Definition closing (engine : Engine) : list Effect :=
  match engine with
  | Worker w => [PostMessage w "close"]
  | BarcodeDetector _ => []
  end.

(** A scanner that plays the stream [id]: active, not paused, not
    destroyed and listening to the page. *)
Definition playingStream (s : State) (id : nat) (stream : MediaStream) : Prop :=
  listening s = true
  /\ _active (this s) = true /\ _paused (this s) = false
  /\ _destroyed (this s) = false
  /\ Video.srcObject (video s) = SrcMediaStream id
  /\ streams s !! id = Some stream.

(** The state once [pause(true)] has run on an active scanner that plays
    the stream [id]. *)
Definition pausedAtOnce (id : nat) (s : State) : State :=
  with_video (set_srcObject SrcNull)
    (with_streams (alter _stopVideoStream id)
       (log VideoPause
          (with_video (set_video_paused true)
             (with_this (set_paused true) s)))).

(** The state once [start] has attached the stream it got after [k]
    refusals and the video plays it. *)
Definition attached (k : nat) (tracks : list MediaStreamTrack) (s : State) : State :=
  let l := tiers (_preferredCamera (this s)) in
  let side := inferredSide (head tracks) (isSome (facingMode_exact (nth k l noConstraints)))
                (_preferredCamera (this s)) in
  with_video (set_scaleX (if String.eqb side "user" then -1 else 1))
    (log VideoPlay
       (with_video (set_video_paused false)
          (with_video (set_srcObject (SrcMediaStream (length (streams s))))
             (acquired tracks (asked (take (S k) l) (entered s)))))).

(** What the error handler of the scanner does with an error. *)
Definition reported (handler : ErrorHandler) (error : Value) : list Effect :=
  match handler with
  | CallerOnDecodeError => [OnDecodeErrorCall error]
  | DefaultOnDecodeError => if is_NO_QR_CODE_FOUND error then [] else [ConsoleLog error]
  end.

(** What a turn of the scan loop on an active scanner hands to the
    callbacks when the decode has settled. *)
Definition delivered (handler : ErrorHandler) (r : Value + Value) : list Effect :=
  match r with
  | inl result => if truthy result then [OnDecodeCall result] else []
  | inr error => reported handler error
  end.

(** A scanner in its scan loop: active, on a video that plays and has
    frames to draw. *)
Definition scanning (s : State) : Prop :=
  _active (this s) = true
  /\ Video.paused (video s) = false /\ Video.ended (video s) = false
  /\ (Video.readyState (video s) <=? 1) = false
  /\ Video.videoWidth (video s) <> 0 /\ Video.videoHeight (video s) <> 0.

(** The state once the callback of [_scanFrame] has drawn the frame on
    [$canvas], so far [c], and called [detect] of the native detector [d]. *)
Definition frameDetecting (d : nat) (c : Canvas.t) (s : State) : State :=
  let drawn := _drawToCanvas (imageOf s LoadedVideo) (Some (_scanRegion (this s))) c false in
  log (DetectCall d)
    (log (DrawImageCall (canvas (this s)) (snd drawn))
       (with_canvases <[canvas (this s) := fst drawn]> s)).

(** What [scanImage] throws when the native detector finds nothing. *)
Definition nativeNotFound : Value := VStr ("Scanner error: " ++ NO_QR_CODE_FOUND).

(** What [scanImage] returns or throws with a native detector, by what the
    race of [detect] against the timer settles with. *)
Definition detected (r : Settled) : Value + Value :=
  match r with
  | Rejected VTimedOut => inr (VStr "Scanner error: timeout")
  | Fulfilled (VDetected (rawValue :: _)) => inl (VStr rawValue)
  | Fulfilled (VDetected []) => inr nativeNotFound
  | Fulfilled _ => inr (VStr "Scanner error: TypeError")
  | Rejected e =>
      match messageOr e with
      | Some m => inr (VStr ("Scanner error: " ++ toString m))
      | None => inr TypeError
      end
  end.

(** The [drawImage] call [scanImage] makes for an image and a region on a
    canvas that so far is [c]. *)
Definition drawn (image : Image.t) (scanRegion : option ScanRegion.t) (c : Canvas.t)
    (id : nat) : Effect :=
  DrawImageCall id (snd (_drawToCanvas image scanRegion c false)).

(** Every way a call can end satisfies [P], of the state it ends in and of
    what it returns or throws, however and in whatever state of the scanner
    the promises it awaits settle. *)
Inductive Ends {A} (P : State -> A + Value -> Prop) : Co A -> Prop :=
| Ends_Ret s a : P s (inl a) -> Ends P (Ret s a)
| Ends_Exn s e : P s (inr e) -> Ends P (Exn s e)
| Ends_Susp s w k : (forall r s', Ends P (k r s')) -> Ends P (Susp s w k)
| Ends_Forked w k rest : Ends P rest -> Ends P (Forked w k rest).

(** The flash flag is off whenever the call is rejected. *)
Definition rejectedWithFlagOff (s : State) (r : unit + Value) : Prop :=
  forall e, r = inr e -> _flashOn (this s) = false.

(** [word] occurs in [text]. *)
Definition occursIn (word text : string) : Prop :=
  exists before after, text = before ++ word ++ after.

(** One of the words occurs in the label, whatever the case of the
    letters of the label. *)
Definition mentions (label : string) (words : list string) : Prop :=
  Exists (fun word => occursIn word (foldCaseString label)) words.

(** A scanner that plays and is paused at once: active, paused, the
    stream released. *)
Definition pausedScanner : State := Eval vm_compute in now (run started [Calls (Pause true)]).

(** * Proofs *)

(** ** Symbolic evaluation *)

Ltac monad :=
  repeat (progress
    (cbv beta iota zeta delta
       [mbind mret M_bind M_ret bind ret throw get modify emit await capture
        tryCatch spawn awaitCall feed resume];
     cbn [bindCo captureCo detach forget resumeOn stateOf resultOf awaitOf runTo
          fold_left negb andb orb isSome])).

Ltac fields :=
  cbn [this video browser streams canvases engines listening animationFrames
       effects with_this with_video with_streams with_canvases with_engines
       set_listening with_animationFrames with_browser log
       _onDecodeError _calculateScanRegion _preferredCamera _scanRegion
       _qrEnginePromise _active _paused _flashOn _destroyed canvas
       set_preferredCamera set_scanRegion set_qrEnginePromise set_active
       set_paused set_flashOn set_destroyed
       Video.srcObject Video.paused Video.ended Video.readyState
       Video.videoWidth Video.videoHeight Video.width Video.height Video.scaleX
       set_srcObject set_video_paused set_scaleX
       hidden mediaDevices https nativeBarcodeDetector set_hidden broken].

Ltac run_with tac := repeat (progress (monad; fields; tac)).

(** The same, an answer being consumed by rewriting and not by conversion. *)
Ltac monad_args :=
  repeat (progress
    (cbv beta iota zeta delta
       [mbind mret M_bind M_ret bind ret throw get modify emit await capture
        tryCatch spawn awaitCall];
     cbn [bindCo captureCo detach forget negb andb orb isSome])).
Ltac args_with tac := repeat (progress (monad_args; fields; tac)).

(** ** Zero fields of a scan region *)

Lemma orElse_absentIfZero v d : orElse (absentIfZero v) d = orElse v d.
Proof. destruct v as [n|]; simpl; trivial. destruct (n =? 0) eqn:E; simpl; rewrite ?E; trivial. Qed.

Lemma orElse_nonzero v d : d <> 0 -> orElse v d <> 0.
Proof.
  destruct v as [n|]; simpl; trivial.
  destruct (n =? 0) eqn:E; trivial. intros _. now apply Z.eqb_neq.
Qed.

Lemma regionField_withoutZeros r f g d :
  (forall r, g (withoutZeros r) = absentIfZero (f r)) ->
  regionField (Some (withoutZeros r)) g d = regionField (Some r) f d.
Proof. intros H. simpl. rewrite H. apply orElse_absentIfZero. Qed.

Lemma drawToCanvas_withoutZeros image r canvas disallow :
  _drawToCanvas image (Some (withoutZeros r)) canvas disallow
  = _drawToCanvas image (Some r) canvas disallow.
Proof.
  assert (HX : scanRegionX (Some (withoutZeros r)) = scanRegionX (Some r))
    by (apply regionField_withoutZeros; reflexivity).
  assert (HY : scanRegionY (Some (withoutZeros r)) = scanRegionY (Some r))
    by (apply regionField_withoutZeros; reflexivity).
  assert (HW : scanRegionWidth image (Some (withoutZeros r)) = scanRegionWidth image (Some r))
    by (apply regionField_withoutZeros; reflexivity).
  assert (HH : scanRegionHeight image (Some (withoutZeros r)) = scanRegionHeight image (Some r))
    by (apply regionField_withoutZeros; reflexivity).
  assert (HCW : canvasWidth image (Some (withoutZeros r)) = canvasWidth image (Some r)).
  { unfold canvasWidth. rewrite HW. apply regionField_withoutZeros; reflexivity. }
  assert (HCH : canvasHeight image (Some (withoutZeros r)) = canvasHeight image (Some r)).
  { unfold canvasHeight. rewrite HH. apply regionField_withoutZeros; reflexivity. }
  unfold _drawToCanvas. rewrite HX, HY, HW, HH, HCW, HCH. reflexivity.
Qed.

Lemma canvasWidth_nonzero image scanRegion :
  sourceWidth image <> 0 -> canvasWidth image scanRegion <> 0.
Proof.
  intros H. unfold canvasWidth, scanRegionWidth, regionField.
  destruct scanRegion as [r|]; [|exact H].
  apply orElse_nonzero, orElse_nonzero, H.
Qed.

Lemma canvasHeight_nonzero image scanRegion :
  sourceHeight image <> 0 -> canvasHeight image scanRegion <> 0.
Proof.
  intros H. unfold canvasHeight, scanRegionHeight, regionField.
  destruct scanRegion as [r|]; [|exact H].
  apply orElse_nonzero, orElse_nonzero, H.
Qed.

Lemma drawToCanvas_size image scanRegion canvas :
  fst (_drawToCanvas image scanRegion canvas false)
  = Canvas.mk (canvasWidth image scanRegion) (canvasHeight image scanRegion).
Proof.
  unfold _drawToCanvas. simpl.
  destruct (Canvas.width canvas =? canvasWidth image scanRegion) eqn:EW; simpl;
    destruct (Canvas.height canvas =? canvasHeight image scanRegion) eqn:EH; simpl;
    try reflexivity.
  - apply Z.eqb_eq in EW, EH. destruct canvas; simpl in *; congruence.
  - apply Z.eqb_eq in EW. destruct canvas; simpl in *; congruence.
  - apply Z.eqb_eq in EH. congruence.
Qed.

Lemma orElse_fieldOr v d : orElse v d = fieldOr v d.
Proof.
  unfold fieldOr. destruct v as [n|]; simpl; trivial. now destruct (n =? 0).
Qed.

Lemma fieldOr_canvasSize v d :
  canvasSizeIfAny v -> 1 <= d <= 2147483647 -> 1 <= fieldOr v d <= 2147483647.
Proof.
  unfold fieldOr, canvasSizeIfAny, canvasSize. destruct v as [n|]; simpl; trivial.
  destruct (Z.eqb_spec n 0); simpl; lia.
Qed.

Lemma kept_canvasSize default n : 1 <= n <= 2147483647 -> Canvas.kept default n = n.
Proof.
  intros H. unfold Canvas.kept. cbv zeta. rewrite Z.mod_small by lia.
  destruct (Z.leb_spec n 2147483647); [reflexivity | lia].
Qed.

(** C10, amended.  In [_drawToCanvas] a field of the scan region that is
    [0] counts as a field that is not there.  The rectangle of the source
    that is drawn starts at [x] and [y], at [0] where the field is [0] or
    missing, and has the [width] and [height] of the region, the source's
    own width or height where the field is [0] or missing.  The canvas,
    unless it may not be resized, is made as wide and high as
    [downScaledWidth] and [downScaledHeight] say, as wide or high as that
    rectangle where the field is [0] or missing, and the rectangle is drawn
    onto the whole of it.  So the call is the one made for the region
    without its zero fields; and with a source that is not empty, and a
    canvas that is not empty where it may not be resized, all sizes being
    sizes a canvas keeps, the canvas that is decoded has the width and
    height it was given and is not empty, whatever the region. *)
Theorem drawToCanvas_zero_fields
    (image : Image.t) (canvas : Canvas.t) (disallowCanvasResizing : bool)
    (x y width height downScaledWidth downScaledHeight : option Z)
    (Hsw : 1 <= fieldOr (Image.videoWidth image) (Image.width image) <= 2147483647)
    (Hsh : 1 <= fieldOr (Image.videoHeight image) (Image.height image) <= 2147483647)
    (Hcw : disallowCanvasResizing = true -> 1 <= Canvas.width canvas <= 2147483647)
    (Hch : disallowCanvasResizing = true -> 1 <= Canvas.height canvas <= 2147483647)
    (Hw : canvasSizeIfAny width) (Hh : canvasSizeIfAny height)
    (Hdw : canvasSizeIfAny downScaledWidth) (Hdh : canvasSizeIfAny downScaledHeight) :
  let r := ScanRegion.mk x y width height downScaledWidth downScaledHeight in
  let ownWidth := fieldOr (Image.videoWidth image) (Image.width image) in
  let ownHeight := fieldOr (Image.videoHeight image) (Image.height image) in
  let sWidth := fieldOr width ownWidth in
  let sHeight := fieldOr height ownHeight in
  let dWidth :=
    if disallowCanvasResizing then Canvas.width canvas else fieldOr downScaledWidth sWidth in
  let dHeight :=
    if disallowCanvasResizing then Canvas.height canvas
    else fieldOr downScaledHeight sHeight in
  _drawToCanvas image (Some r) canvas disallowCanvasResizing
  = (Canvas.mk dWidth dHeight,
     mkDrawImage (fieldOr x 0) (fieldOr y 0) sWidth sHeight 0 0 dWidth dHeight)
  /\ _drawToCanvas image (Some r) canvas disallowCanvasResizing
     = _drawToCanvas image (Some (withoutZeros r)) canvas disallowCanvasResizing
  /\ (width = Some 0 \/ width = None -> sWidth = ownWidth)
  /\ (height = Some 0 \/ height = None -> sHeight = ownHeight)
  /\ (downScaledWidth = Some 0 \/ downScaledWidth = None ->
      disallowCanvasResizing = false -> dWidth = sWidth)
  /\ (downScaledHeight = Some 0 \/ downScaledHeight = None ->
      disallowCanvasResizing = false -> dHeight = sHeight)
  /\ 1 <= dWidth <= 2147483647
  /\ 1 <= dHeight <= 2147483647
  /\ Canvas.kept 300 dWidth = dWidth
  /\ Canvas.kept 150 dHeight = dHeight.
Proof.
  cbv zeta. split; [|split; [symmetry; apply drawToCanvas_withoutZeros|]].
  - unfold _drawToCanvas, canvasWidth, canvasHeight, scanRegionWidth, scanRegionHeight,
      scanRegionX, scanRegionY, regionField.
    cbn [ScanRegion.x ScanRegion.y ScanRegion.width ScanRegion.height
         ScanRegion.downScaledWidth ScanRegion.downScaledHeight].
    rewrite !orElse_fieldOr.
    destruct disallowCanvasResizing; cbn [negb]; [now destruct canvas|].
    destruct canvas as [cw ch]. cbn [Canvas.width Canvas.height].
    set (dw := fieldOr downScaledWidth _). set (dh := fieldOr downScaledHeight _).
    destruct (Z.eqb_spec cw dw), (Z.eqb_spec ch dh); subst;
      cbn [negb Canvas.width Canvas.height]; rewrite ?Z.eqb_refl; cbn [negb];
      try reflexivity.
    all: destruct (Z.eqb_spec ch dh); try contradiction; reflexivity.
  - assert (HW : 1 <= (if disallowCanvasResizing then Canvas.width canvas
                       else fieldOr downScaledWidth
                              (fieldOr width (fieldOr (Image.videoWidth image)
                                                (Image.width image))))
                 <= 2147483647).
    { destruct disallowCanvasResizing; [now apply Hcw|].
      apply fieldOr_canvasSize; trivial. now apply fieldOr_canvasSize. }
    assert (HH : 1 <= (if disallowCanvasResizing then Canvas.height canvas
                       else fieldOr downScaledHeight
                              (fieldOr height (fieldOr (Image.videoHeight image)
                                                 (Image.height image))))
                 <= 2147483647).
    { destruct disallowCanvasResizing; [now apply Hch|].
      apply fieldOr_canvasSize; trivial. now apply fieldOr_canvasSize. }
    split; [|split; [|split; [|split; [|split; [|split; [|split]]]]]]; trivial.
    + intros [->| ->]; reflexivity.
    + intros [->| ->]; reflexivity.
    + intros [->| ->] ->; reflexivity.
    + intros [->| ->] ->; reflexivity.
    + now apply kept_canvasSize.
    + now apply kept_canvasSize.
Qed.

Lemma drawToCanvas_zero_fields_witness :
  _drawToCanvas (Image.mk (Some 640) (Some 480) 0 0)
    (Some (ScanRegion.mk (Some 10) None (Some 0) (Some 0) (Some 0) None))
    Canvas.fresh false
  = (Canvas.mk 640 480, mkDrawImage 10 0 640 480 0 0 640 480).
Proof.
  apply (drawToCanvas_zero_fields (Image.mk (Some 640) (Some 480) 0 0)
           Canvas.fresh false (Some 10) None (Some 0) (Some 0) (Some 0) None);
    vm_compute; intuition discriminate.
Defined.

(** C10, as claimed, fails: a region of no area on a video that has no
    frame yet makes the canvas empty, and [getImageData] throws on it; and
    a region of no area with a [downScaledWidth] of 2^32 has that width
    assigned to the canvas, of which the canvas keeps [0]. *)
Lemma zero_area_region_empty_buffer :
  let zeroArea := ScanRegion.mk None None (Some 0) (Some 0) None None in
  let scaled := ScanRegion.mk None None (Some 0) (Some 0) (Some 4294967296) None in
  let frame := Image.mk (Some 640) (Some 480) 0 0 in
  fst (_drawToCanvas (imageOf (now newScanner) LoadedVideo) (Some zeroArea) Canvas.fresh false)
  = Canvas.mk 0 0
  /\ option_map snd
       (runTo (scanImage VideoElement (Some zeroArea) (Some (Worker 0)) None false false
                 (now newScanner))
          [tick])
     = Some (inr (VError "IndexSizeError"))
  /\ fst (_drawToCanvas frame (Some scaled) Canvas.fresh false) = Canvas.mk 4294967296 480
  /\ Canvas.kept 300 4294967296 = 0.
Proof. vm_compute. repeat split. Qed.

(** ** Camera acquisition *)

Lemma tiers_spec camera :
  (constraintsWithCamera camera ++ constraintsWithoutCamera)%list = tiers camera.
Proof.
  unfold tiers, constraintsWithCamera, constraintsWithoutCamera, withCamera.
  simpl. destruct (re_environment_or_user camera); reflexivity.
Qed.

Lemma feed_Ret {A} (s : State) (a : A) answers : feed (Ret s a) answers = Ret s a.
Proof. induction answers as [|r l IH]; simpl; trivial. Qed.

Lemma feed_Exn {A} (s : State) e answers : feed (@Exn A s e) answers = Exn s e.
Proof. induction answers as [|r l IH]; simpl; trivial. Qed.

Lemma feed_cons {A} (c : Co A) r answers :
  feed c (r :: answers) = feed (resume r c) answers.
Proof. reflexivity. Qed.

(** One turn of the loop: the request is made, and when it is answered
    the loop returns the stream or goes on to the next constraints. *)
Lemma getCameraStreamLoop_stops constraints rest s :
  stateOf (getCameraStreamLoop (constraints :: rest) s)
  = log (GetUserMediaCall constraints) s
  /\ awaitOf (getCameraStreamLoop (constraints :: rest) s)
     = Some (GetUserMedia constraints)
  /\ resultOf (getCameraStreamLoop (constraints :: rest) s) = None.
Proof. repeat split. Qed.

Lemma getCameraStreamLoop_resumes constraints rest s r s' :
  resumeOn r s' (getCameraStreamLoop (constraints :: rest) s)
  = match tracksOf r with
    | Some tracks =>
        let s'' := with_streams (fun l => l ++ [mkStream tracks []])%list s' in
        Ret s'' (length (streams s'), facingModeOf s'' (length (streams s')) constraints)
    | None => getCameraStreamLoop rest s'
    end.
Proof. destruct r as [v|e]; [destruct v|]; reflexivity. Qed.

Lemma getCameraStreamLoop_feed l : forall answers s,
  let c := feed (getCameraStreamLoop l s) answers in
  match firstNegotiated (take (length l) answers) with
  | Some (n, tracks) =>
      resultOf c
      = Some (inl (length (streams s),
                   facingModeOf (stateOf c) (length (streams s)) (nth n l noConstraints)))
      /\ effects (stateOf c) = requested (take (S n) l) s
      /\ streams (stateOf c) = (streams s ++ [mkStream tracks []])%list
      /\ this (stateOf c) = this s
  | None =>
      effects (stateOf c) = requested (take (S (length answers)) l) s
      /\ streams (stateOf c) = streams s
      /\ if (length l <=? length answers)%nat
         then resultOf c = Some (inr (VStr "Camera not found."))
         else resultOf c = None
              /\ awaitOf c = Some (GetUserMedia (nth (length answers) l noConstraints))
  end.
Proof.
  induction l as [|constraints rest IH]; intros answers s.
  - cbn [getCameraStreamLoop length firstNegotiated]. unfold throw.
    rewrite feed_Exn. cbn [stateOf resultOf]. unfold requested.
    rewrite take_0. cbn. rewrite app_nil_r. auto.
  - destruct answers as [|r answers].
    + cbn [feed fold_left firstNegotiated length Nat.leb].
      destruct (getCameraStreamLoop_stops constraints rest s) as (H1 & H2 & H3).
      rewrite H1, H2, H3. unfold requested. cbn. auto.
    + rewrite feed_cons. unfold resume.
      rewrite getCameraStreamLoop_resumes.
      change (stateOf (getCameraStreamLoop (constraints :: rest) s))
        with (log (GetUserMediaCall constraints) s).
      change (take (length (constraints :: rest)) (r :: answers))
        with (r :: take (length rest) answers).
      cbn [firstNegotiated].
      destruct (tracksOf r) as [tracks|] eqn:Er.
      * cbn zeta. rewrite feed_Ret. cbn [resultOf stateOf nth].
        unfold requested. cbn. auto.
      * specialize (IH answers (log (GetUserMediaCall constraints) s)).
        cbn zeta in IH.
        destruct (firstNegotiated (take (length rest) answers)) as [[n tracks]|].
        -- destruct IH as (H1 & H2 & H3 & H4). cbn [nth].
           repeat split; trivial.
           rewrite H2. unfold requested. cbn.
           now rewrite <- app_assoc.
        -- destruct IH as (H1 & H2 & H3).
           repeat split; trivial.
           rewrite H1. unfold requested. cbn. now rewrite <- app_assoc.
Qed.

(** C1. [_getCameraStream] asks for the six constraint sets of [tiers] in
    their order: the three resolution tiers with the preferred camera, then
    the three tiers alone.  A negotiation that fails is passed over and the
    next set is asked for; the first one that succeeds ends the call with
    its stream; and the call throws ['Camera not found.'] exactly when there
    are no media devices or all six negotiations have failed. *)
Theorem getCameraStream_fallback (s : State) (answers : list Settled) :
  let c := feed (_getCameraStream s) answers in
  let camera := _preferredCamera (this s) in
  (if mediaDevices (browser s) then
     match firstNegotiated (take 6 answers) with
     | Some (n, tracks) =>
         (exists facingMode,
             resultOf c = Some (inl (length (streams s), facingMode)))
         /\ streams (stateOf c) = (streams s ++ [mkStream tracks []])%list
         /\ effects (stateOf c)
            = (effects s ++ map GetUserMediaCall (take (S n) (tiers camera)))%list
     | None =>
         effects (stateOf c)
         = (effects s
            ++ map GetUserMediaCall (take (S (length answers)) (tiers camera)))%list
         /\ streams (stateOf c) = streams s
         /\ if (6 <=? length answers)%nat
            then resultOf c = Some (inr (VStr "Camera not found."))
            else resultOf c = None
                 /\ awaitOf c
                    = Some (GetUserMedia (nth (length answers) (tiers camera) noConstraints))
     end
   else c = Exn s (VStr "Camera not found."))
  /\ ((exists e, resultOf c = Some (inr e))
      <-> mediaDevices (browser s) = false
          \/ ((6 <= length answers)%nat /\ firstNegotiated (take 6 answers) = None)).
Proof.
  intros c camera.
  assert (Hc : c = if mediaDevices (browser s)
                   then feed (getCameraStreamLoop (tiers camera) s) answers
                   else Exn s (VStr "Camera not found.")).
  { subst c camera. unfold _getCameraStream, mbind, M_bind, bind, get.
    cbn [bindCo]. destruct (mediaDevices (browser s)); cbn [negb].
    - now rewrite tiers_spec.
    - unfold throw. apply feed_Exn. }
  assert (Hlen : length (tiers camera) = 6%nat)
    by (unfold tiers; destruct (re_environment_or_user camera); reflexivity).
  pose proof (getCameraStreamLoop_feed (tiers camera) answers s) as H.
  rewrite Hlen in H. cbn zeta in H. fold (requested (take (S (length answers)) (tiers camera)) s).
  destruct (mediaDevices (browser s)) eqn:Hm.
  - rewrite <- Hc in H.
    destruct (firstNegotiated (take 6 answers)) as [[n tracks]|].
    + destruct H as (H1 & H2 & H3 & H4). split.
      * repeat split; eauto.
      * split.
        -- intros [e He]. rewrite H1 in He. discriminate.
        -- intros [?|[_ ?]]; discriminate.
    + destruct H as (H1 & H2 & H3). split.
      * repeat split; trivial.
      * destruct (6 <=? length answers)%nat eqn:E.
        -- split; [intros _; right; split; trivial; now apply Nat.leb_le | eauto].
        -- destruct H3 as [H3 _]. split.
           ++ intros [e He]. rewrite H3 in He. discriminate.
           ++ intros [?|[Hle _]]; [discriminate|].
              apply Nat.leb_le in Hle. congruence.
  - rewrite Hc. split; trivial. split; eauto.
Qed.

Lemma getFacingMode_new_stream s' l tracks :
  streams s' = (l ++ [mkStream tracks []])%list ->
  _getFacingMode s' (length l) = sideOfLabel (head tracks).
Proof.
  intros H. unfold _getFacingMode, firstVideoTrack. rewrite H.
  rewrite list_lookup_middle by reflexivity. reflexivity.
Qed.

Lemma facingModeOf_inferredSide s' l tracks constraints :
  streams s' = (l ++ [mkStream tracks []])%list ->
  facingModeOf s' (length l) constraints
  = inferredSide (head tracks) (isSome (facingMode_exact constraints))
      (_preferredCamera (this s')).
Proof.
  intros H. unfold facingModeOf, inferredSide.
  rewrite (getFacingMode_new_stream _ _ _ H).
  destruct (sideOfLabel (head tracks)); trivial.
  destruct (facingMode_exact constraints); simpl; trivial.
  unfold re_environment_or_user, oppositeSide.
  destruct (String.eqb (_preferredCamera (this s')) "environment"); simpl; trivial.
  now destruct (String.eqb (_preferredCamera (this s')) "user").
Qed.

Lemma tiers_facingMode camera n :
  isSome (facingMode_exact (nth n (tiers camera) noConstraints)) = true
  <-> (n < 3)%nat /\ re_environment_or_user camera = true.
Proof.
  unfold tiers. destruct (re_environment_or_user camera);
    do 6 (destruct n as [|n]; [cbn; intuition (lia || discriminate)|]);
    destruct n; cbn; intuition (lia || discriminate).
Qed.

(** C6.  The facing side is read when the stream arrives, off the
    preferred camera as it is then, not as it was requested.  A scanner that
    prefers ['user'] is started and asks for a camera under the facing mode
    ['user']; the stream it gets has a label that tells nothing.  Left
    alone, [_getCameraStream] returns the requested side ['user'] with the
    stream, and the video is mirrored.  With [setCamera('abc123')] called
    while the camera is asked for, the same stream, obtained under the same
    constraint, is returned with the facing mode ['abc123'], which is no
    side, and the video is not mirrored. *)
Theorem facing_side_follows_late_preference :
  let scanner :=
    construct exampleVideo DefaultOnDecodeError exampleRegion "user" exampleBrowser in
  let underUser := mkConstraints (Some 1024) (Some "user") None in
  let stream := Fulfilled (VTracks [mkTrack "USB 2.0 Camera" false false false]) in
  let negotiating := run scanner [Calls Start] in
  let undisturbed := run negotiating [Settle 0 stream; Settle 0 tick; Settle 0 tick] in
  let switched := run negotiating [Calls (SetCamera "abc123"); Settle 1 tick] in
  let disturbed := run switched [Settle 0 stream; Settle 1 tick; Settle 1 tick] in
  awaited negotiating = [GetUserMedia underUser]
  /\ resultOf (resumeOn stream (now negotiating) (_getCameraStream (now scanner)))
     = Some (inl (0%nat, "user"))
  /\ Video.srcObject (video (now undisturbed)) = SrcMediaStream 0
  /\ Video.scaleX (video (now undisturbed)) = -1
  /\ awaited switched
     = [GetUserMedia underUser; GetUserMedia (mkConstraints (Some 1024) None (Some "abc123"))]
  /\ resultOf (resumeOn stream (now switched) (_getCameraStream (now scanner)))
     = Some (inl (0%nat, "abc123"))
  /\ Video.srcObject (video (now disturbed)) = SrcMediaStream 0
  /\ Video.scaleX (video (now disturbed)) = 1.
Proof. vm_compute. repeat split. Qed.

(** ** The worker request *)

Section WorkerRequestFacts.
Import WorkerRequest.

Lemma dispatch_unregistered q ev : unregistered q -> dispatch q ev = q.
Proof.
  intros (Hm & He & Ht). destruct ev; simpl; now rewrite ?Hm, ?He, ?Ht.
Qed.

Lemma run_unregistered evs : forall q,
  unregistered q -> fold_left dispatch evs q = q.
Proof.
  induction evs as [|ev evs IH]; intros q Hq; simpl; trivial.
  rewrite dispatch_unregistered by trivial. now apply IH.
Qed.

Lemma onError_outcome error l :
  onError error (mk true true true l) = mk false false false (l ++ [outcome (Error error)]).
Proof.
  unfold onError, errorMessage, unregister, settle. cbn [settlements outcome].
  destruct error as [| |[]|[|c text]|[|c message]| | | |]; reflexivity.
Qed.

(** An event on a request that has everything registered, whatever was
    settled before. *)
Lemma dispatch_registered l ev :
  dispatch (mk true true true l) ev
  = if settles ev then mk false false false (l ++ [outcome ev]) else mk true true true l.
Proof.
  destruct ev as [type data|error|]; cbn [dispatch messageListener errorListener timer settles].
  - unfold onMessage. destruct (String.eqb type "qrResult"); simpl; trivial.
    now destruct data.
  - apply onError_outcome.
  - reflexivity.
Qed.

Lemma run_registered evs : forall l,
  fold_left dispatch evs (mk true true true l)
  = match find settles evs with
    | Some ev => mk false false false (l ++ [outcome ev])
    | None => mk true true true l
    end.
Proof.
  induction evs as [|ev evs IH]; intros l; simpl; trivial.
  rewrite dispatch_registered. destruct (settles ev); trivial.
  apply run_unregistered. repeat split.
Qed.

Lemma executor_registered thrown :
  executor thrown
  = mk true true true match thrown with Some e => [Rejected e] | None => [] end.
Proof. now destruct thrown. Qed.

Lemma request_find thrown evs :
  request thrown evs
  = let rejected := match thrown with Some e => [Rejected e] | None => [] end in
    match find settles evs with
    | Some ev => mk false false false (rejected ++ [outcome ev])
    | None => mk true true true rejected
    end.
Proof. unfold request. rewrite executor_registered. apply run_registered. Qed.

Lemma run_find evs :
  run evs = match find settles evs with
            | Some ev => mk false false false [outcome ev]
            | None => pending
            end.
Proof. unfold run. now rewrite request_find. Qed.

End WorkerRequestFacts.



(** ** Releasing a stream *)

Lemma stopVideoStream_loop snapshot : forall tracks removed,
  fold_left (fun st _ => stopAndRemoveFirst st) snapshot
    (mkStream (snapshot ++ tracks) removed)
  = mkStream tracks (removed ++ map stopTrack snapshot)%list.
Proof.
  induction snapshot as [|t snapshot IH]; intros tracks removed; simpl.
  - now rewrite app_nil_r.
  - unfold stopAndRemoveFirst at 2. simpl. rewrite IH.
    now rewrite <- app_assoc.
Qed.

Lemma stopVideoStream_released stream : _stopVideoStream stream = releasedStream stream.
Proof.
  unfold _stopVideoStream, releasedStream. destruct stream as [tracks removed]. simpl.
  rewrite <- (app_nil_r tracks) at 2. apply stopVideoStream_loop.
Qed.

Lemma stopStream_releases s id stream :
  Video.srcObject (video s) = SrcMediaStream id ->
  streams s !! id = Some stream ->
  Video.srcObject (video (afterStopStream s)) = SrcNull
  /\ streams (afterStopStream s) !! id = Some (releasedStream stream)
  /\ this (afterStopStream s) = this s
  /\ effects (afterStopStream s) = effects s.
Proof.
  intros Hsrc Hst. unfold afterStopStream, stopStream, stopVideoStream. monad.
  rewrite Hsrc. monad. cbn. repeat split.
  rewrite list_lookup_alter_eq, Hst. cbn. now rewrite stopVideoStream_released.
Qed.

Lemma stopStream_returns s : stopStream s = Ret (afterStopStream s) tt.
Proof.
  unfold afterStopStream, stopStream, stopVideoStream. monad.
  destruct (Video.srcObject (video s)); reflexivity.
Qed.

Lemma afterStopStream_idle s :
  Video.srcObject (video s) = SrcNull -> afterStopStream s = s.
Proof. intros H. unfold afterStopStream, stopStream. monad. now rewrite H. Qed.

(** [pause], once more, on a scanner that plays a stream. *)
Lemma pause_again s id stream again :
  _active (this s) = true ->
  Video.srcObject (video s) = SrcMediaStream id ->
  streams s !! id = Some stream ->
  let s4 := stateOf (pause again s) in
  awaitOf (pause false s) = Some (SetTimeout 300)
  /\ _paused (this s4) = true
  /\ Video.srcObject (video (afterStopStream s4)) = SrcNull
  /\ streams (afterStopStream s4) !! id = Some (releasedStream stream).
Proof.
  intros Ha Hsrc Hst. cbv zeta. unfold pause, video_pause.
  split; [run_with ltac:(rewrite ?Ha); reflexivity|].
  destruct again; run_with ltac:(rewrite ?Ha, ?stopStream_returns).
  - match goal with |- context [afterStopStream (afterStopStream ?s0)] =>
      destruct (stopStream_releases s0 id stream Hsrc Hst) as (H1 & H2 & H3 & H4) end.
    rewrite (afterStopStream_idle _ H1), H1, H2, H3. auto.
  - match goal with |- context [afterStopStream ?s0] =>
      destruct (stopStream_releases s0 id stream Hsrc Hst) as (H1 & H2 & H3 & H4) end.
    auto.
Qed.

(** C2, amended.  [pause] on an active scanner with a camera stream.
    With [stopStreamImmediately] the call returns [true] without waiting for
    anything, the tracks of the stream stopped and taken out and the stream
    off the video.  Without it the call waits 300ms with the stream as it
    is, and goes on from the state it finds then, whatever has happened in
    between: if the scanner is paused then, the stream is released and the
    call returns [true], and if it is not, the stream is left alone and the
    call returns [false].  When [start] has run in between on a visible
    page, it has resumed the scanner and the video on the same stream; if
    nothing has paused the scanner again, the call returns [false] with the
    stream attached and its tracks untouched, whether the 300ms are over
    before or after the video plays; if [pause] was called again, the call
    returns [true] and releases the stream, though the 300ms of that second
    [pause] have only begun. *)
Theorem pause_releases_or_defers (s : State) (id : nat) (stream : MediaStream)
    (Hactive : _active (this s) = true)
    (Hsrc : Video.srcObject (video s) = SrcMediaStream id)
    (Hstream : streams s !! id = Some stream) :
  (exists s',
      pause true s = Ret s' true
      /\ Video.srcObject (video s') = SrcNull
      /\ streams s' !! id = Some (releasedStream stream)
      /\ _paused (this s') = true)
  /\ (exists s1 k,
        pause false s = Susp s1 (SetTimeout 300) k
        /\ _paused (this s1) = true
        /\ Video.paused (video s1) = true
        /\ Video.srcObject (video s1) = SrcMediaStream id
        /\ streams s1 = streams s
        /\ (forall r s2,
              k r s2 = if _paused (this s2)
                       then Ret (afterStopStream s2) true
                       else Ret s2 false)
        /\ (hidden (browser s) = false -> _destroyed (this s) = false ->
            exists s2 kp,
              start s1 = Susp s2 Play kp
              /\ _paused (this s2) = false
              /\ Video.paused (video s2) = false
              /\ (forall r rp s3,
                    (s3 = s2 \/ s3 = stateOf (kp rp s2)) ->
                    k r s3 = Ret s3 false
                    /\ Video.srcObject (video s3) = SrcMediaStream id
                    /\ streams s3 = streams s)
              /\ (forall r rp s3 again,
                    (s3 = s2 \/ s3 = stateOf (kp rp s2)) ->
                    let s4 := stateOf (pause again s3) in
                    awaitOf (pause false s3) = Some (SetTimeout 300)
                    /\ k r s4 = Ret (afterStopStream s4) true
                    /\ Video.srcObject (video (afterStopStream s4)) = SrcNull
                    /\ streams (afterStopStream s4) !! id = Some (releasedStream stream)))).
Proof.
  split.
  - eexists. unfold pause, video_pause. run_with ltac:(rewrite ?Hactive).
    rewrite stopStream_returns. monad. split; [reflexivity|].
    match goal with |- context [afterStopStream ?s0] =>
      destruct (stopStream_releases s0 id stream Hsrc Hstream) as (H1 & H2 & H3 & H4) end.
    rewrite H1, H2, H3. auto.
  - do 2 eexists. unfold pause at 1, video_pause. run_with ltac:(rewrite ?Hactive).
    split; [reflexivity|]. fields.
    lazymatch goal with
    | |- _ /\ _ /\ _ /\ _ /\ (forall r s2, @?P r s2) /\ _ =>
        assert (Hk : forall r s2, P r s2)
    end.
    { intros r s2. destruct r; monad; destruct (_paused (this s2)); monad; trivial;
        now rewrite stopStream_returns. }
    repeat split; trivial.
    intros Hh Hd. unfold start, video_play.
    destruct (https (browser s)) eqn:Hs; do 2 eexists;
      run_with ltac:(rewrite ?Hactive, ?Hd, ?Hh, ?Hsrc, ?Hs).
    all: (split; [reflexivity|]); fields.
    all: split; [reflexivity|]. all: split; [reflexivity|]. all: split.
    all: intros.
    all: match goal with H : _ \/ _ |- _ => destruct H as [->| ->] end.
    all: try (fields; repeat split; trivial; try (destruct r; reflexivity);
              destruct rp; run_with idtac; trivial; destruct r; reflexivity).
    all: match goal with
         | |- context [stateOf (pause ?a ?s3)] =>
             destruct (pause_again s3 id stream a) as (P1 & P2 & P3 & P4);
               [try destruct rp; reflexivity
               |try destruct rp; cbn; fields; exact Hsrc
               |try destruct rp; cbn; fields; exact Hstream|]
         end.
    all: cbv zeta in P2 |- *; rewrite Hk, P2; auto.
Qed.

Lemma pause_releases_or_defers_witness :
  exists s1 k,
    pause false playing = Susp s1 (SetTimeout 300) k
    /\ _paused (this s1) = true
    /\ Video.paused (video s1) = true
    /\ Video.srcObject (video s1) = SrcMediaStream 0
    /\ streams s1 = streams playing
    /\ (forall r s2,
          k r s2 = if _paused (this s2)
                   then Ret (afterStopStream s2) true
                   else Ret s2 false)
    /\ (hidden (browser playing) = false -> _destroyed (this playing) = false ->
        exists s2 kp,
          start s1 = Susp s2 Play kp
          /\ _paused (this s2) = false
          /\ Video.paused (video s2) = false
          /\ (forall r rp s3,
                (s3 = s2 \/ s3 = stateOf (kp rp s2)) ->
                k r s3 = Ret s3 false
                /\ Video.srcObject (video s3) = SrcMediaStream 0
                /\ streams s3 = streams playing)
          /\ (forall r rp s3 again,
                (s3 = s2 \/ s3 = stateOf (kp rp s2)) ->
                let s4 := stateOf (pause again s3) in
                awaitOf (pause false s3) = Some (SetTimeout 300)
                /\ k r s4 = Ret (afterStopStream s4) true
                /\ Video.srcObject (video (afterStopStream s4)) = SrcNull
                /\ streams (afterStopStream s4) !! 0%nat
                   = Some (releasedStream (mkStream rearCamera [])))).
Proof.
  exact (proj2 (pause_releases_or_defers playing 0 (mkStream rearCamera [])
                  eq_refl eq_refl eq_refl)).
Defined.

(** C2, as claimed, fails: [pause()], [start()] and [pause()] again,
    all within 300ms.  [start] has resumed the scanner within the window of
    the first call, but the timer of the first call finds it paused, by the
    second call: the first call releases the stream and returns [true], and
    the stream is gone while the second call still waits for its timer. *)
Lemma stale_pause_timer_releases_stream :
  let resumed := run (alone playing) [Calls (Pause false); Calls Start] in
  let pausedAgain := run resumed [Calls (Pause false)] in
  let elapsed := run pausedAgain [Settle 0 tick] in
  _paused (this (now resumed)) = false
  /\ Video.srcObject (video (now resumed)) = SrcMediaStream 0
  /\ awaited pausedAgain = [SetTimeout 300; Play; SetTimeout 300]
  /\ resultOf (resumeOn tick (now pausedAgain) (pause false playing)) = Some (inl true)
  /\ awaited elapsed = [Play; SetTimeout 300]
  /\ Video.srcObject (video (now elapsed)) = SrcNull
  /\ streams (now elapsed) = [releasedStream (mkStream rearCamera [])].
Proof. vm_compute. repeat split. Qed.

(** ** A destroyed scanner stays destroyed *)

Lemma lasts_refl s : lasts s s.
Proof. intros H. repeat split; try apply H; auto. Qed.

Lemma lasts_trans s0 s1 s2 : lasts s0 s1 -> lasts s1 s2 -> lasts s0 s2.
Proof.
  intros H01 H12 H0. destruct (H01 H0) as (D1 & E1 & F1 & S1).
  destruct (H12 D1) as (D2 & E2 & F2 & S2). repeat split; try apply D2.
  - congruence.
  - lia.
  - destruct S2 as [S2|S2]; [rewrite S2; exact S1 | now right].
Qed.

Lemma keeps_lasts s0 s : keeps s0 s -> lasts s0 s.
Proof. now intros [H _]. Qed.

Lemma keepsButOne_lasts s0 s : keepsButOne s0 s -> lasts s0 s.
Proof. now intros [H _]. Qed.

Lemma keeps_refl s : keeps s s.
Proof. split; [apply lasts_refl | reflexivity]. Qed.

Lemma keeps_trans s0 s1 s2 : keeps s0 s1 -> keeps s1 s2 -> keeps s0 s2.
Proof.
  intros [L01 D01] [L12 D12]. split; [now apply (lasts_trans s0 s1 s2)|].
  intros H0. rewrite D12, D01; trivial. now apply L01.
Qed.

Lemma keeps_keepsButOne s0 s : keeps s0 s -> keepsButOne s0 s.
Proof. intros [L D]. split; trivial. intros H. rewrite D by trivial. lia. Qed.

Lemma keeps_then_one s0 s1 s2 : keeps s0 s1 -> keepsButOne s1 s2 -> keepsButOne s0 s2.
Proof.
  intros [L01 D01] [L12 D12]. split; [now apply (lasts_trans s0 s1 s2)|].
  intros H0. rewrite <- D01 by trivial. apply D12. now apply L01.
Qed.

Lemma one_then_keeps s0 s1 s2 : keepsButOne s0 s1 -> keeps s1 s2 -> keepsButOne s0 s2.
Proof.
  intros [L01 D01] [L12 D12]. split; [now apply (lasts_trans s0 s1 s2)|].
  intros H0. rewrite D12; [now apply D01 | now apply L01].
Qed.

Lemma keeps_active s0 s : _active (this s0) = true -> keeps s0 s.
Proof. intros H. split; intros (_ & H' & _); congruence. Qed.

Lemma keeps_alive s0 s : _destroyed (this s0) = false -> keeps s0 s.
Proof. intros H. split; intros (H' & _); congruence. Qed.

Lemma keeps_unpaused s0 s : _paused (this s0) = false -> keeps s0 s.
Proof. intros H. split; intros (_ & _ & H' & _); congruence. Qed.

Ltac harmless_tac :=
  intros s; split;
  [ intros (Hd & Ha & Hp & Hf); unfold Destroyed, errorReports; fields;
    repeat split; auto
  | intros _; unfold decodeCalls; fields; reflexivity ].

Lemma harmless_set_paused : harmless (with_this (set_paused true)).
Proof. harmless_tac. Qed.
Lemma harmless_set_active : harmless (with_this (set_active false)).
Proof. harmless_tac. Qed.
Lemma harmless_set_flashOn : harmless (with_this (set_flashOn false)).
Proof. harmless_tac. Qed.
Lemma harmless_set_destroyed : harmless (with_this (set_destroyed true)).
Proof. harmless_tac. Qed.
Lemma harmless_set_preferredCamera c : harmless (with_this (set_preferredCamera c)).
Proof. harmless_tac. Qed.
Lemma harmless_set_scanRegion r : harmless (with_this (set_scanRegion r)).
Proof. harmless_tac. Qed.
Lemma harmless_set_qrEnginePromise e : harmless (with_this (set_qrEnginePromise e)).
Proof. harmless_tac. Qed.
Lemma harmless_set_video_paused b : harmless (with_video (set_video_paused b)).
Proof. harmless_tac. Qed.
Lemma harmless_set_scaleX k : harmless (with_video (set_scaleX k)).
Proof. harmless_tac. Qed.
Lemma harmless_video_loads r w h e : harmless (with_video (video_loads r w h e)).
Proof. harmless_tac. Qed.
Lemma harmless_set_srcObject_null : harmless (with_video (set_srcObject SrcNull)).
Proof. harmless_tac. Qed.
Lemma harmless_with_streams f : harmless (with_streams f).
Proof. harmless_tac. Qed.
Lemma harmless_with_canvases f : harmless (with_canvases f).
Proof. harmless_tac. Qed.
Lemma harmless_with_engines f : harmless (with_engines f).
Proof. harmless_tac. Qed.
Lemma harmless_with_browser f : harmless (with_browser f).
Proof. harmless_tac. Qed.
Lemma harmless_set_listening b : harmless (set_listening b).
Proof. harmless_tac. Qed.
Lemma harmless_log e :
  isErrorReport e = false -> isOnDecode e = false -> harmless (log e).
Proof.
  intros He Hc s. split.
  - intros (Hd & Ha & Hp & Hf); unfold Destroyed, errorReports; fields.
    repeat split; auto. rewrite filter_app. cbn. rewrite He. apply app_nil_r.
  - intros _. unfold decodeCalls. fields. rewrite filter_app. cbn. rewrite Hc.
    apply app_nil_r.
Qed.

Lemma harmless_scanFrame : harmless _scanFrame.
Proof.
  intros s. unfold _scanFrame.
  destruct (_active (this s)) eqn:Ha; [now apply keeps_active|].
  cbn. apply keeps_refl.
Qed.

Lemma harmless_calculateScanRegion : harmless calculateScanRegion.
Proof. unfold calculateScanRegion. harmless_tac. Qed.

Create HintDb harmless.
#[export] Hint Resolve harmless_set_paused harmless_set_active harmless_set_flashOn
  harmless_set_destroyed harmless_set_preferredCamera harmless_set_scanRegion
  harmless_set_qrEnginePromise harmless_set_video_paused harmless_set_scaleX
  harmless_set_srcObject_null harmless_with_streams harmless_with_canvases
  harmless_with_engines harmless_with_browser harmless_set_listening
  harmless_scanFrame harmless_calculateScanRegion harmless_video_loads : harmless.

(** *** The rules of the monad *)

Lemma Safe_ret {A} (a : A) : Safe (ret a).
Proof. intros s. split; [apply keeps_refl | constructor]. Qed.

Lemma Safe_throw {A} e : Safe (@throw A e).
Proof. intros s. split; [apply keeps_refl | constructor]. Qed.

Lemma Safe_get : Safe get.
Proof. intros s. split; [apply keeps_refl | constructor]. Qed.

Lemma Safe_modify f : harmless f -> Safe (modify f).
Proof. intros H s. split; [apply H | constructor]. Qed.

Lemma Safe_emit e : isErrorReport e = false -> isOnDecode e = false -> Safe (emit e).
Proof. intros H H'. now apply Safe_modify, harmless_log. Qed.

Lemma Safe_await w : Safe (await w).
Proof.
  intros s. split; [apply keeps_refl|].
  constructor; intros r s'; destruct r; cbn; try apply keeps_refl; constructor.
Qed.

Lemma stateOf_bindCo_keeps {A B} (c : Co A) (f : A -> M B) s0 :
  keeps s0 (stateOf c) -> (forall a, Safe (f a)) -> keeps s0 (stateOf (bindCo c f)).
Proof.
  intros Hk Hf. induction c as [s a|s e|s w k IH|w k rest IH]; cbn in *; trivial.
  - eapply keeps_trans; [exact Hk | apply Hf].
  - now apply IH.
Qed.

Lemma Robust_bindCo {A B} (c : Co A) (f : A -> M B) :
  Robust c -> (forall a, Safe (f a)) -> Robust (bindCo c f).
Proof.
  intros Hc Hf. induction Hc as [s a|s e|s w k Hk Hr IH|w k rest Hk Hr Hrest IH]; cbn.
  - apply Hf.
  - constructor.
  - constructor; intros r s'; [|apply IH].
    now apply stateOf_bindCo_keeps.
  - constructor; trivial.
Qed.

Lemma Safe_bind {A B} (m : M A) (f : A -> M B) :
  Safe m -> (forall a, Safe (f a)) -> Safe (bind m f).
Proof.
  intros Hm Hf s. destruct (Hm s) as [Hk Hr]. unfold bind. split.
  - now apply stateOf_bindCo_keeps.
  - now apply Robust_bindCo.
Qed.

Lemma Safe_mbind {A B} (m : M A) (f : A -> M B) :
  Safe m -> (forall a, Safe (f a)) -> Safe (m ≫= f).
Proof. apply Safe_bind. Qed.

Lemma stateOf_captureCo {A} (c : Co A) : stateOf (captureCo c) = stateOf c.
Proof. induction c; cbn; auto. Qed.

Lemma Robust_captureCo {A} (c : Co A) : Robust c -> Robust (captureCo c).
Proof.
  intros Hc. induction Hc; cbn; constructor; auto.
  all: intros; now rewrite stateOf_captureCo.
Qed.

Lemma Safe_capture {A} (m : M A) : Safe m -> Safe (capture m).
Proof.
  intros Hm s. destruct (Hm s). unfold capture. rewrite stateOf_captureCo.
  split; trivial. now apply Robust_captureCo.
Qed.

Lemma Safe_tryCatch {A} (m : M A) h :
  Safe m -> (forall e, Safe (h e)) -> Safe (tryCatch m h).
Proof.
  intros Hm Hh. unfold tryCatch. apply Safe_mbind; [now apply Safe_capture|].
  intros [a|e]; [apply Safe_ret | apply Hh].
Qed.

Lemma stateOfTask_forget {A} (c : Co A) : stateOfTask (forget c) = stateOf c.
Proof. induction c; cbn; auto. Qed.

Lemma RobustTask_forget {A} (c : Co A) : Robust c -> RobustTask (forget c).
Proof.
  intros Hc. induction Hc; cbn; constructor; auto.
  all: intros; now rewrite stateOfTask_forget.
Qed.

Lemma stateOf_detach {A} (c : Co A) : stateOf (detach c) = stateOf c.
Proof. induction c; cbn; auto. Qed.

Lemma Robust_detach {A} (c : Co A) : Robust c -> Robust (detach c).
Proof.
  intros Hc. induction Hc as [s a|s e|s w k Hk Hr IH|w k rest Hk Hr Hrest IH]; cbn.
  - constructor.
  - constructor.
  - apply Robust_Forked; [| |constructor].
    + intros r s'. rewrite stateOfTask_forget. apply Hk.
    + intros r s'. apply RobustTask_forget, Hr.
  - constructor; auto.
Qed.

Lemma Safe_spawn {A} (m : M A) : Safe m -> Safe (spawn m).
Proof.
  intros Hm s. destruct (Hm s). unfold spawn. rewrite stateOf_detach.
  split; trivial. now apply Robust_detach.
Qed.

Lemma Safe_awaitCall {A} (m : M A) : Safe m -> Safe (awaitCall m).
Proof.
  intros Hm. unfold awaitCall. apply Safe_mbind; [now apply Safe_capture|].
  intros r. apply Safe_mbind; [apply Safe_capture, Safe_await|].
  intros _. destruct r; [apply Safe_ret | apply Safe_throw].
Qed.

Lemma Safe_if {A} (b : bool) (m1 m2 : M A) :
  Safe m1 -> Safe m2 -> Safe (if b then m1 else m2).
Proof. now destruct b. Qed.

(** [s <- get; f s], where every [f s] may rely on being run on [s]. *)
Lemma Safe_get_bind {A} (f : State -> M A) :
  (forall s, keeps s (stateOf (f s s)) /\ Robust (f s s)) -> Safe (get ≫= f).
Proof. intros H s. apply H. Qed.

Create HintDb safe.

Ltac safe_step :=
  first
    [ solve [auto with safe]
    | apply Safe_ret | apply Safe_throw | apply Safe_get | apply Safe_await
    | apply Safe_mbind | apply Safe_capture | apply Safe_tryCatch
    | apply Safe_spawn | apply Safe_awaitCall
    | apply Safe_modify; solve [auto with harmless]
    | apply Safe_emit; reflexivity
    | match goal with
      | |- forall _, _ => intro
      | |- Safe (if ?b then _ else _) => destruct b
      | |- Safe (match ?x with _ => _ end) => destruct x
      end ].

Ltac safe := repeat safe_step.

(** *** The methods *)

Lemma Safe_stopVideoStream id : Safe (stopVideoStream id).
Proof. unfold stopVideoStream. safe. Qed.
#[export] Hint Resolve Safe_stopVideoStream : safe.

Lemma Safe_video_play : Safe video_play.
Proof. unfold video_play. safe. Qed.
#[export] Hint Resolve Safe_video_play : safe.

Lemma Safe_video_pause : Safe video_pause.
Proof. unfold video_pause. safe. Qed.
#[export] Hint Resolve Safe_video_pause : safe.

Lemma Safe_getUserMedia c : Safe (getUserMedia c).
Proof. unfold getUserMedia. safe. Qed.
#[export] Hint Resolve Safe_getUserMedia : safe.

Lemma Safe_getCameraStreamLoop l : Safe (getCameraStreamLoop l).
Proof. induction l as [|c l IH]; cbn [getCameraStreamLoop]; safe. Qed.
#[export] Hint Resolve Safe_getCameraStreamLoop : safe.

Lemma Safe_getCameraStream : Safe _getCameraStream.
Proof. unfold _getCameraStream. safe. Qed.
#[export] Hint Resolve Safe_getCameraStream : safe.

Lemma Safe_setVideoMirror f : Safe (_setVideoMirror f).
Proof. unfold _setVideoMirror. safe. Qed.
#[export] Hint Resolve Safe_setVideoMirror : safe.

Lemma Safe_torchInSettings id : Safe (torchInSettings id).
Proof. unfold torchInSettings. safe. Qed.
#[export] Hint Resolve Safe_torchInSettings : safe.

Lemma Safe_hasFlash : Safe hasFlash.
Proof. unfold hasFlash. safe. Qed.
#[export] Hint Resolve Safe_hasFlash : safe.

Lemma Safe_applyTorch : Safe applyTorch.
Proof. unfold applyTorch. safe. Qed.
#[export] Hint Resolve Safe_applyTorch : safe.

Lemma Safe_stopStream : Safe stopStream.
Proof. unfold stopStream. safe. Qed.
#[export] Hint Resolve Safe_stopStream : safe.

Lemma Safe_pause b : Safe (pause b).
Proof. unfold pause. safe. Qed.
#[export] Hint Resolve Safe_pause : safe.

Lemma Safe_stop : Safe stop.
Proof. unfold stop. safe. Qed.
#[export] Hint Resolve Safe_stop : safe.

Lemma mbind_modify {A} f (g : unit -> M A) s : (modify f ≫= g) s = g tt (f s).
Proof. reflexivity. Qed.

Lemma mbind_ret {A B} (a : A) (g : A -> M B) s : (ret a ≫= g) s = g a s.
Proof. reflexivity. Qed.

Lemma mbind_get {A} (g : State -> M A) s : (get ≫= g) s = g s s.
Proof. reflexivity. Qed.

(** The code after a guard that only lets scanners through that are not
    destroyed: a state that got through is not a destroyed one, and the
    code goes on to code that is safe. *)
Ltac after_guard lemma :=
  cbv beta;
  lazymatch goal with
  | |- keeps ?s0 (stateOf (?m ?s1)) /\ Robust (?m ?s1) =>
      let H := fresh "H" in
      assert (H : Safe m) by safe;
      destruct (H s1); split; [apply lemma; assumption | assumption]
  end.

Lemma Safe_turnFlashOn : Safe turnFlashOn.
Proof.
  unfold turnFlashOn. apply Safe_get_bind. intros s.
  destruct (_flashOn (this s) || _destroyed (this s)) eqn:E.
  - apply Safe_ret.
  - apply orb_false_iff in E. destruct E as [_ E].
    rewrite !mbind_modify. after_guard keeps_alive.
Qed.
#[export] Hint Resolve Safe_turnFlashOn : safe.

(** What [start] does with the stream it was given, where the test
    [!this._active || this._paused] lets only a scanner through that is
    active. *)
Lemma Safe_start_attach (stream : nat) (facingMode : string) :
  Safe (s ← get;
        if negb (_active (this s)) || _paused (this s)
        then stopVideoStream stream
        else
          modify (with_video (set_srcObject (SrcMediaStream stream)));;
          video_play;;
          _setVideoMirror facingMode;;
          s ← get;
          if _flashOn (this s)
          then modify (with_this (set_flashOn false));;
               spawn turnFlashOn
          else ret tt).
Proof.
  apply Safe_get_bind. intros s.
  destruct (negb (_active (this s)) || _paused (this s)) eqn:E.
  - apply Safe_stopVideoStream.
  - apply orb_false_iff in E. destruct E as [E _]. apply negb_false_iff in E.
    rewrite !mbind_modify. after_guard keeps_active.
Qed.
#[export] Hint Resolve Safe_start_attach : safe.

Lemma Safe_start : Safe start.
Proof.
  unfold start. apply Safe_get_bind. intros s.
  destruct ((_active (this s) && negb (_paused (this s))) || _destroyed (this s)) eqn:E.
  - apply Safe_ret.
  - apply orb_false_iff in E. destruct E as [_ E].
    unfold emit.
    destruct (https (browser s)); cbn [negb];
      rewrite ?mbind_modify, ?mbind_ret; cbv beta; rewrite ?mbind_modify; cbv beta;
      rewrite mbind_get; fields.
    all: destruct (hidden (browser s));
      [split; [now apply keeps_alive | constructor]|].
    all: rewrite !mbind_modify; after_guard keeps_alive.
Qed.
#[export] Hint Resolve Safe_start : safe.

Lemma Safe_restartVideoStream : Safe _restartVideoStream.
Proof. unfold _restartVideoStream. safe. Qed.
#[export] Hint Resolve Safe_restartVideoStream : safe.

Lemma Safe_turnFlashOff : Safe turnFlashOff.
Proof. unfold turnFlashOff. safe. Qed.
#[export] Hint Resolve Safe_turnFlashOff : safe.

Lemma Safe_toggleFlash : Safe toggleFlash.
Proof. unfold toggleFlash. safe. Qed.
#[export] Hint Resolve Safe_toggleFlash : safe.

Lemma Safe_setCamera c : Safe (setCamera c).
Proof. unfold setCamera. safe. Qed.
#[export] Hint Resolve Safe_setCamera : safe.

Lemma Safe_postWorkerMessage e t : Safe (_postWorkerMessage e t).
Proof. unfold _postWorkerMessage. safe. Qed.
#[export] Hint Resolve Safe_postWorkerMessage : safe.

Lemma Safe_destroy : Safe destroy.
Proof. unfold destroy. safe. Qed.
#[export] Hint Resolve Safe_destroy : safe.

Lemma Safe_loadImage i : Safe (_loadImage i).
Proof. unfold _loadImage. safe. Qed.
#[export] Hint Resolve Safe_loadImage : safe.

Lemma Safe_createQrEngine : Safe createQrEngine.
Proof. unfold createQrEngine. safe. Qed.
#[export] Hint Resolve Safe_createQrEngine : safe.

Lemma Safe_drawToCanvas i r c d : Safe (drawToCanvas i r c d).
Proof. unfold drawToCanvas. safe. Qed.
#[export] Hint Resolve Safe_drawToCanvas : safe.

Lemma Safe_decodeWithWorker w c : Safe (decodeWithWorker w c).
Proof. unfold decodeWithWorker. safe. Qed.
#[export] Hint Resolve Safe_decodeWithWorker : safe.

Lemma Safe_decodeWithDetector d : Safe (decodeWithDetector d).
Proof. unfold decodeWithDetector. safe. Qed.
#[export] Hint Resolve Safe_decodeWithDetector : safe.

Lemma Safe_scanImageTry i r e c d : Safe (scanImageTry i r e c d).
Proof. unfold scanImageTry. safe. Qed.
#[export] Hint Resolve Safe_scanImageTry : safe.

Lemma Safe_scanImageBody self i r e c d a :
  (forall i r e c d, Safe (self i r e c d)) -> Safe (scanImageBody self i r e c d a).
Proof. intros Hself. unfold scanImageBody. safe. Qed.

Lemma Safe_scanImage i r e c d a : Safe (scanImage i r e c d a).
Proof.
  unfold scanImage. apply Safe_scanImageBody. intros.
  unfold scanImageWithoutRetry. apply Safe_scanImageBody. intros. apply Safe_throw.
Qed.
#[export] Hint Resolve Safe_scanImage : safe.

(** *** A turn of the scan loop *)

Lemma RobustTask_TurnTask t : RobustTask t -> TurnTask t.
Proof. induction 1; constructor; auto using keeps_keepsButOne. Qed.

Lemma Robust_Turn {A} (c : Co A) : Robust c -> Turn c.
Proof. induction 1; constructor; auto using keeps_keepsButOne. Qed.

Lemma TurnTask_forget {A} (c : Co A) : Turn c -> TurnTask (forget c).
Proof.
  induction c as [s a|s e|s w k IH|w k rest IH]; intros Hc; cbn.
  - constructor.
  - constructor.
  - inversion Hc as [| |s0 w0 k0 H1 H2 H3|]; subst.
    constructor; intros r s'; rewrite ?stateOfTask_forget; auto.
    destruct (H3 r s'); [now left | right; now apply RobustTask_forget].
  - inversion Hc; subst. constructor; auto.
Qed.

(** Robust code followed by such code is a turn. *)
Lemma bindCo_last {A B} (c : Co A) (f : A -> M B) :
  Last f -> Robust c -> forall s0, keeps s0 (stateOf c) ->
  keepsButOne s0 (stateOf (bindCo c f))
  /\ Turn (bindCo c f)
  /\ (keeps s0 (stateOf (bindCo c f)) \/ Robust (bindCo c f)).
Proof.
  intros Hf. induction c as [s a|s e|s w k IH|w k rest IH]; intros Hc s0 Hk; cbn.
  - destruct (Hf a s) as [H1 H2]. split; [now apply (keeps_then_one s0 s)|].
    split; [now apply Robust_Turn | now right].
  - split; [now apply keeps_keepsButOne|]. split; [constructor | now left].
  - split; [now apply keeps_keepsButOne|]. split; [|now left].
    inversion Hc; subst.
    apply Turn_Susp; intros r s'; destruct (IH r s' (H3 r s') s' (H1 r s')) as (? & ? & ?);
      trivial.
  - inversion Hc; subst. destruct (IH H4 s0 Hk) as (H5 & H6 & H7).
    split; [exact H5|]. split; [now constructor|].
    destruct H7; [now left | right; now constructor].
Qed.

Lemma afterScan_last : Last afterScan.
Proof.
  intros r s. unfold afterScan. destruct r as [result|error].
  - cbv beta iota zeta delta [mbind mret M_bind M_ret bind modify emit ret].
    destruct (truthy result); cbn [bindCo stateOf]; (split; [|constructor]).
    + apply (one_then_keeps s (log (OnDecodeCall result) s)); [|apply harmless_scanFrame].
      split.
      * intros (Hd & Ha & Hp & Hf). unfold Destroyed, errorReports. fields.
        repeat split; auto. rewrite filter_app. cbn. apply app_nil_r.
      * intros _. unfold decodeCalls. fields. rewrite filter_app, length_app. cbn. destruct (decide True); [cbn; lia | tauto].
    + apply keeps_keepsButOne, harmless_scanFrame.
  - cbv beta iota zeta delta [mbind mret M_bind M_ret bind get].
    cbn [bindCo]. destruct (_active (this s)) eqn:E; cbn [negb].
    + split; [now apply keeps_keepsButOne, keeps_active|].
      unfold onDecodeError, createQrEngine.
      destruct (messageOr error) as [[]|]; try constructor.
      cbv beta iota zeta delta [mbind mret M_bind M_ret bind modify emit ret get throw].
      destruct (includes s0 "service unavailable"); cbn [bindCo]; fields.
      all: destruct (_onDecodeError (this s)); cbn [bindCo]; try constructor.
      all: destruct (is_NO_QR_CODE_FOUND error); cbn [bindCo]; constructor.
    + split; [apply keeps_keepsButOne, keeps_refl | constructor].
Qed.

Lemma animationFrame_turn : TurnCall animationFrame.
Proof.
  intros s. unfold animationFrame.
  cbv beta iota zeta delta [mbind mret M_bind M_ret bind get]. cbn [bindCo].
  destruct (Video.readyState (video s) <=? 1).
  - split; [apply keeps_keepsButOne, harmless_scanFrame|].
    split; [constructor | left; apply harmless_scanFrame].
  - match goal with
    | |- context [bindCo (capture ?m s) _] =>
        assert (Hm : Safe (capture m)) by (apply Safe_capture, Safe_awaitCall, Safe_scanImage);
        destruct (Hm s) as [H1 H2]
    end.
    now apply bindCo_last; [apply afterScan_last| |].
Qed.

Lemma Safe_onPlay : Safe _onPlay.
Proof. unfold _onPlay. safe. Qed.

Lemma Safe_onLoadedMetaData : Safe _onLoadedMetaData.
Proof. unfold _onLoadedMetaData. safe. Qed.

Lemma Safe_onVisibilityChange : Safe _onVisibilityChange.
Proof. unfold _onVisibilityChange. safe. Qed.
#[export] Hint Resolve Safe_onPlay Safe_onLoadedMetaData Safe_onVisibilityChange : safe.

(** *** The calls that wait *)

Lemma RobustKont_TurnKont wk : RobustKont wk -> TurnKont wk.
Proof.
  intros H r s'. destruct (H r s'). split; [now apply keeps_keepsButOne|].
  split; [now apply RobustTask_TurnTask | now left].
Qed.

Lemma Debt_weaken n l : Debt n l -> forall m, (n <= m)%nat -> Debt m l.
Proof.
  induction 1 as [n|n wk l Hk _ IH|n wk l Hk _ IH]; intros m Hm.
  - constructor.
  - apply Debt_robust; auto.
  - destruct m as [|m]; [lia|]. apply Debt_turn; trivial. apply IH. lia.
Qed.

Lemma Debt_app a l1 : Debt a l1 -> forall b l2, Debt b l2 -> Debt (a + b) (l1 ++ l2).
Proof.
  induction 1 as [n|n wk l Hk _ IH|n wk l Hk _ IH]; intros b l2 H2; cbn.
  - apply (Debt_weaken b); [trivial | lia].
  - apply Debt_robust; auto.
  - apply Debt_turn; auto.
Qed.

Lemma Debt_all l : Forall TurnKont l -> Debt (length l) l.
Proof. induction 1; cbn; [apply Debt_nil | now apply Debt_turn]. Qed.

Lemma Debt_TurnKont n l : Debt n l -> Forall TurnKont l.
Proof. induction 1; constructor; trivial. now apply RobustKont_TurnKont. Qed.

Lemma Debt_delete n l : Debt n l -> forall i wk, l !! i = Some wk ->
  (RobustKont wk /\ Debt n (delete i l))
  \/ (TurnKont wk /\ exists m, n = S m /\ Debt m (delete i l)).
Proof.
  induction 1 as [n|n wk0 l Hk Hl IH|n wk0 l Hk Hl IH]; intros i wk Hi.
  - discriminate.
  - destruct i as [|i]; cbn in Hi.
    + injection Hi as <-. left. auto.
    + destruct (IH i wk Hi) as [[H1 H2]|[H1 (m & -> & H2)]]; [left|right].
      * split; trivial. now apply Debt_robust.
      * split; trivial. exists m. split; trivial. now apply Debt_robust.
  - destruct i as [|i]; cbn in Hi.
    + injection Hi as <-. right. eauto.
    + destruct (IH i wk Hi) as [[H1 H2]|[H1 (m & -> & H2)]]; [left|right].
      * split; trivial. now apply Debt_turn.
      * split; trivial. exists (S m). split; trivial. now apply Debt_turn.
Qed.

Lemma now_absorb t : forall pool, now (absorb t pool) = stateOfTask t.
Proof. induction t; intros; cbn; auto. Qed.

Lemma absorb_robust t : forall pool n,
  RobustTask t -> Debt n pool -> Debt n (waiting (absorb t pool)).
Proof.
  induction t as [s|s w k _|w k _ rest IH]; intros pool n Ht Hpool; cbn.
  - trivial.
  - inversion Ht; subst. replace n with (n + 0)%nat by lia.
    apply Debt_app; trivial. apply Debt_robust; [|constructor].
    intros r s'. cbn. auto.
  - inversion Ht; subst. apply IH; trivial.
    replace n with (n + 0)%nat by lia.
    apply Debt_app; trivial. apply Debt_robust; [|constructor].
    intros r s'. cbn. auto.
Qed.

Lemma absorb_turn t : forall pool n,
  TurnTask t -> Debt n pool -> Debt (S n) (waiting (absorb t pool)).
Proof.
  induction t as [s|s w k _|w k _ rest IH]; intros pool n Ht Hpool; cbn.
  - apply (Debt_weaken n); [trivial | lia].
  - inversion Ht; subst. replace (S n) with (n + 1)%nat by lia.
    apply Debt_app; trivial. apply Debt_turn; [|constructor].
    intros r s'. cbn. auto.
  - inversion Ht; subst. apply IH; trivial.
    replace n with (n + 0)%nat by lia.
    apply Debt_app; trivial. apply Debt_robust; [|constructor].
    intros r s'. cbn. auto.
Qed.

Lemma now_call {A} (m : M A) mc : now (call m mc) = stateOf (m (now mc)).
Proof. unfold call. now rewrite now_absorb, stateOfTask_forget. Qed.

(** *** Before [destroy]: every call that waits is a turn or robust *)

Lemma absorb_TurnMachine t pool :
  TurnTask t -> Forall TurnKont pool -> Forall TurnKont (waiting (absorb t pool)).
Proof.
  intros Ht Hpool. apply (Debt_TurnKont (S (length pool))).
  now apply absorb_turn, Debt_all.
Qed.

Lemma call_TurnMachine {A} (m : M A) mc :
  TurnCall m -> TurnMachine mc -> TurnMachine (call m mc).
Proof.
  intros Hm Hmc. unfold call, TurnMachine. apply absorb_TurnMachine; trivial.
  apply TurnTask_forget. now destruct (Hm (now mc)) as (_ & H & _).
Qed.

Lemma Safe_TurnCall {A} (m : M A) : Safe m -> TurnCall m.
Proof.
  intros H s. destruct (H s). split; [now apply keeps_keepsButOne|].
  split; [now apply Robust_Turn | now left].
Qed.

Lemma invoke_Safe m : exists A (f : M A), Safe f /\ invoke m = call f.
Proof.
  destruct m; cbn [invoke]; eexists _, _; (split; [|reflexivity]); auto with safe.
Qed.

Lemma step_TurnMachine mc i : TurnMachine mc -> TurnMachine (step mc i).
Proof.
  intros Hmc. destruct i as [m| | |b| |i r|rs vw vh en]; cbn [step].
  - destruct (invoke_Safe m) as (A & f & Hf & ->).
    apply call_TurnMachine; [now apply Safe_TurnCall | trivial].
  - destruct (listening (now mc)); trivial.
  - destruct (listening (now mc)); trivial.
  - cbn [now]. destruct (listening _); trivial.
    apply call_TurnMachine; trivial. apply Safe_TurnCall; auto with safe.
  - destruct (animationFrames (now mc)); trivial.
    apply call_TurnMachine; trivial. apply animationFrame_turn.
  - destruct (waiting mc !! i) as [[w k]|] eqn:E; trivial.
    assert (Hk : TurnKont (w, k))
      by exact (proj1 (Forall_lookup TurnKont (waiting mc)) Hmc i (w, k) E).
    apply absorb_TurnMachine; [|now apply Forall_delete].
    now destruct (Hk r (now mc)) as (_ & H & _).
  - exact Hmc.
Qed.

Lemma run_TurnMachine inputs : forall mc, TurnMachine mc -> TurnMachine (run mc inputs).
Proof.
  induction inputs as [|i inputs IH]; intros mc Hmc; cbn; trivial.
  apply IH. now apply step_TurnMachine.
Qed.

(** *** After [destroy]: what the destroyed machine owes *)

Lemma owing_keeps bound s debt s' :
  Destroyed s -> keeps s s' ->
  (length (decodeCalls s) + animationFrames s + debt <= bound)%nat ->
  Destroyed s' /\ (length (decodeCalls s') + animationFrames s' + debt <= bound)%nat.
Proof.
  intros Hs [Hl Hd] Hb. destruct (Hl Hs) as (H1 & _ & H2 & _).
  split; trivial. rewrite Hd by trivial. lia.
Qed.

Lemma owing_one bound s debt s' :
  Destroyed s -> keepsButOne s s' ->
  (length (decodeCalls s) + animationFrames s + S debt <= bound)%nat ->
  Destroyed s' /\ (length (decodeCalls s') + animationFrames s' + debt <= bound)%nat.
Proof.
  intros Hs [Hl Hd] Hb. destruct (Hl Hs) as (H1 & _ & H2 & _).
  split; trivial. specialize (Hd Hs). lia.
Qed.

Lemma call_owing {A} (m : M A) bound mc :
  Safe m -> Owing bound mc ->
  Owing bound (call m mc) /\ lasts (now mc) (now (call m mc)).
Proof.
  intros Hm (Hs & debt & Hd & Hb). destruct (Hm (now mc)) as [Hk Hr].
  unfold Owing. rewrite !now_call. split; [|now apply keeps_lasts].
  destruct (owing_keeps _ _ _ _ Hs Hk Hb) as [H1 H2].
  split; [exact H1|]. exists debt. split; [|exact H2].
  unfold call. apply absorb_robust; [now apply RobustTask_forget | trivial].
Qed.

Lemma step_owing bound mc i :
  Owing bound mc ->
  Owing bound (step mc i)
  /\ lasts (now mc) (now (step mc i))
  /\ (animationFrames (now (step mc i)) <= animationFrames (now mc) - fired i)%nat.
Proof.
  intros Hmc.
  assert (Hfr : forall mc', lasts (now mc) (now mc') ->
                  (animationFrames (now mc') <= animationFrames (now mc) - 0)%nat).
  { intros mc' Hl. destruct Hmc as [Hs _]. destruct (Hl Hs) as (_ & _ & H & _). lia. }
  destruct i as [m| | |b| |i r|rs vw vh en]; cbn [step fired isAnimationFrame].
  - destruct (invoke_Safe m) as (A & f & Hf & ->).
    destruct (call_owing f bound mc Hf Hmc) as [H1 H2]. auto.
  - destruct (listening (now mc)).
    + destruct (call_owing _onPlay bound mc Safe_onPlay Hmc) as [H1 H2]. auto.
    + split; [trivial|]. split; [apply lasts_refl | lia].
  - destruct (listening (now mc)).
    + destruct (call_owing _onLoadedMetaData bound mc Safe_onLoadedMetaData Hmc)
        as [H1 H2]. auto.
    + split; [trivial|]. split; [apply lasts_refl | lia].
  - set (mc' := mkMachine (with_browser (set_hidden b) (now mc)) (waiting mc)).
    assert (Hk : keeps (now mc) (now mc')) by apply harmless_with_browser.
    assert (Hmc' : Owing bound mc').
    { destruct Hmc as (Hs & debt & Hd & Hb).
      destruct (owing_keeps _ _ _ _ Hs Hk Hb) as [H1 H2]. split; eauto. }
    destruct (listening (now mc')).
    + destruct (call_owing _onVisibilityChange bound mc' Safe_onVisibilityChange Hmc')
        as [H1 H2].
      assert (Hl : lasts (now mc) (now (call _onVisibilityChange mc')))
        by exact (lasts_trans _ _ _ (keeps_lasts _ _ Hk) H2).
      auto.
    + split; [exact Hmc'|]. split; [now apply keeps_lasts | apply Hfr, keeps_lasts, Hk].
  - destruct (animationFrames (now mc)) as [|n] eqn:E.
    + split; [trivial|]. split; [apply lasts_refl | lia].
    + set (mc' := mkMachine (with_animationFrames (fun _ => n) (now mc)) (waiting mc)).
      destruct Hmc as (Hs & debt & Hd & Hb).
      assert (Hs' : Destroyed (now mc')) by exact Hs.
      assert (Hl : lasts (now mc) (now mc')).
      { intros (Hd0 & Ha & Hp & Hf). unfold Destroyed, errorReports. subst mc'.
        cbn [now]. fields. rewrite E. repeat split; auto. }
      assert (Hb' : (length (decodeCalls (now mc')) + animationFrames (now mc') + S debt
                     <= bound)%nat).
      { subst mc'. cbn [now]. unfold decodeCalls in *. fields. lia. }
      unfold Owing. rewrite !now_call.
      destruct (animationFrame_turn (now mc')) as (Hk1 & Ht & [Hk|Hr]).
      * destruct (owing_keeps _ _ _ _ Hs' Hk Hb') as [H1 H2].
        split; [|split].
        -- split; [exact H1|]. exists (S debt). split; [|exact H2].
           unfold call. apply absorb_turn; [now apply TurnTask_forget | trivial].
        -- exact (lasts_trans _ _ _ Hl (keeps_lasts _ _ Hk)).
        -- destruct Hk as [Hk _]. destruct (Hk Hs') as (_ & _ & H3 & _).
           subst mc'. cbn [now animationFrames with_animationFrames] in H3 |- *. lia.
      * destruct (owing_one _ _ _ _ Hs' Hk1 Hb') as [H1 H2].
        split; [|split].
        -- split; [exact H1|]. exists debt. split; [|exact H2].
           unfold call. apply absorb_robust; [now apply RobustTask_forget | trivial].
        -- exact (lasts_trans _ _ _ Hl (keepsButOne_lasts _ _ Hk1)).
        -- destruct Hk1 as [Hk _]. destruct (Hk Hs') as (_ & _ & H3 & _).
           subst mc'. cbn [now animationFrames with_animationFrames] in H3 |- *. lia.
  - destruct (waiting mc !! i) as [[w k]|] eqn:E.
    + destruct Hmc as (Hs & debt & Hd & Hb). unfold Owing. rewrite !now_absorb.
      destruct (Debt_delete _ _ Hd i (w, k) E) as [[Hk Hdel]|[Hk (m & -> & Hdel)]].
      * destruct (Hk r (now mc)) as [H1 H2]. cbn [snd] in H1, H2.
        destruct (owing_keeps _ _ _ _ Hs H1 Hb) as [H3 H4].
        split; [|split].
        -- split; [exact H3|]. exists debt. split; [|exact H4].
           now apply absorb_robust.
        -- now apply keeps_lasts.
        -- destruct H1 as [H1 _]. destruct (H1 Hs) as (_ & _ & H5 & _). lia.
      * destruct (Hk r (now mc)) as (H0 & H2 & [H1|H1]); cbn [snd] in H0, H1, H2.
        -- destruct (owing_keeps _ _ _ _ Hs H1 Hb) as [H3 H4].
           split; [|split].
           ++ split; [exact H3|]. exists (S m). split; [|exact H4].
              now apply absorb_turn.
           ++ now apply keeps_lasts.
           ++ destruct H1 as [H1 _]. destruct (H1 Hs) as (_ & _ & H5 & _). lia.
        -- destruct (owing_one _ _ _ _ Hs H0 Hb) as [H3 H4].
           split; [|split].
           ++ split; [exact H3|]. exists m. split; [|exact H4].
              now apply absorb_robust.
           ++ now apply keepsButOne_lasts.
           ++ destruct H0 as [H0 _]. destruct (H0 Hs) as (_ & _ & H5 & _). lia.
    + split; [trivial|]. split; [apply lasts_refl | lia].
  - assert (Hk : keeps (now mc)
                   (with_video (video_loads rs vw vh en) (now mc)))
      by apply harmless_video_loads.
    destruct Hmc as (Hs & debt & Hd & Hb).
    destruct (owing_keeps _ _ _ _ Hs Hk Hb) as [H1 H2].
    split; [|split].
    + split; [exact H1|]. eauto.
    + now apply keeps_lasts.
    + destruct Hk as [Hk _]. destruct (Hk Hs) as (_ & _ & H5 & _). cbn [now]. lia.
Qed.

Lemma run_owing bound inputs : forall mc,
  Owing bound mc ->
  Owing bound (run mc inputs)
  /\ lasts (now mc) (now (run mc inputs))
  /\ (animationFrames (now (run mc inputs))
      <= animationFrames (now mc) - length (filter isAnimationFrame inputs))%nat.
Proof.
  induction inputs as [|i inputs IH]; intros mc Hmc.
  - cbn. split; [trivial|]. split; [apply lasts_refl | lia].
  - change (run mc (i :: inputs)) with (run (step mc i) inputs).
    destruct (step_owing bound mc i Hmc) as (H1 & H2 & H3).
    destruct (IH _ H1) as (H4 & H5 & H6). split; [exact H4|]. split.
    + exact (lasts_trans _ _ _ H2 H5).
    + assert (Hc : length (filter isAnimationFrame (i :: inputs))
                   = (fired i + length (filter isAnimationFrame inputs))%nat).
      { unfold fired. destruct i; reflexivity. }
      rewrite Hc. lia.
Qed.

Lemma construct_TurnMachine v h c p b : TurnMachine (construct v h c p b).
Proof. constructor. Qed.

Lemma destroy_Destroyed s : Destroyed (stateOf (destroy s)).
Proof.
  unfold destroy, stop, pause, video_pause, _postWorkerMessage. monad. fields.
  destruct (_active (this s)); monad; fields; repeat split.
Qed.

(** *** The methods on a destroyed scanner *)

Lemma Idle_Ret_eq {A} s0 s (a : A) : s = s0 -> Idle s0 (Ret s a).
Proof. intros ->. constructor. Qed.

Lemma Idle_Exn_eq {A} s0 s e : s = s0 -> @Idle A s0 (Exn s e).
Proof. intros ->. constructor. Qed.

Lemma Idle_Susp_eq {A} s0 s (k : Settled -> State -> Co A) :
  s = s0 -> (forall r s', Destroyed s' -> Idle s' (k r s')) -> Idle s0 (Susp s Microtask k).
Proof. intros ->. now constructor. Qed.

(** The state is the one it was: a flag was set to the value it had. *)
Ltac same :=
  lazymatch goal with
  | H : _paused (this ?s) = true |- _ = _ =>
      destruct s as [[] ? ? ? ? ? ? ? ?]; cbn in *; subst; reflexivity
  end.

Ltac destroyed H :=
  let Hd := fresh "Hd" in let Ha := fresh "Ha" in
  let Hp := fresh "Hp" in let Hf := fresh "Hf" in
  destruct H as (Hd & Ha & Hp & Hf).

Ltac idle :=
  repeat (progress (monad; fields;
    repeat match goal with
    | H : _active (this ?s) = _ |- context [_active (this ?s)] => rewrite H
    | H : _paused (this ?s) = _ |- context [_paused (this ?s)] => rewrite H
    | H : _flashOn (this ?s) = _ |- context [_flashOn (this ?s)] => rewrite H
    | H : _destroyed (this ?s) = _ |- context [_destroyed (this ?s)] => rewrite H
    end));
  first
    [ apply Idle_Ret_eq; same
    | apply Idle_Exn_eq; same
    | apply Idle_Susp_eq;
      [ same
      | let r := fresh "r" in let s' := fresh "s'" in let H := fresh "H" in
        intros r s' H; destroyed H; try destruct r; idle ] ].

Lemma Idle_start s : Destroyed s -> Idle s (start s).
Proof. intros H. destroyed H. unfold start. idle. Qed.

Lemma Idle_pause b s : Destroyed s -> Idle s (pause b s).
Proof. intros H. destroyed H. unfold pause. idle. Qed.

Lemma Idle_turnFlashOn s : Destroyed s -> Idle s (turnFlashOn s).
Proof. intros H. destroyed H. unfold turnFlashOn. idle. Qed.

Lemma Idle_turnFlashOff s : Destroyed s -> Idle s (turnFlashOff s).
Proof. intros H. destroyed H. unfold turnFlashOff. idle. Qed.

Lemma Idle_toggleFlash s : Destroyed s -> Idle s (toggleFlash s).
Proof. intros H. destroyed H. unfold toggleFlash, turnFlashOn. idle. Qed.

Lemma Idle_setCamera c s :
  Destroyed s -> Idle (with_this (set_preferredCamera c) s) (setCamera c s).
Proof.
  intros H. destroyed H. unfold setCamera, _restartVideoStream, pause.
  monad. destruct (String.eqb_spec c (_preferredCamera (this s))) as [->|_]; idle.
Qed.

(** C3, amended.  Once [destroy] was called, whatever is called, fired
    or settled afterwards, the calls that were waiting when [destroy] ran
    included: the scanner stays destroyed, inactive, paused and with the
    flash off; no error is reported; the decode callback is called at most
    once for each animation frame that was pending and each call that was
    waiting when [destroy] ran; no animation frame is requested, every one
    that fires taking a pending one away; the video keeps the stream it had
    or loses it, and gets no other.  And [start], [pause], [toggleFlash],
    [turnFlashOn] and [turnFlashOff] do nothing then: they leave the state
    as it is, request no stream, call no callback and wait for nothing but
    the next microtask; [setCamera] records the preferred camera and does
    nothing else. *)
Theorem destroyed_is_terminal (videoElement : Video.t) (onDecodeError : ErrorHandler)
    (calculateScanRegion : Video.t -> ScanRegion.t) (preferredCamera : string)
    (page : Browser) (before after : list Input) :
  let destroyedAt :=
    run (construct videoElement onDecodeError calculateScanRegion preferredCamera page)
      (before ++ [Calls Destroy]) in
  let s := now (run destroyedAt after) in
  Destroyed s
  /\ errorReports s = errorReports (now destroyedAt)
  /\ (length (decodeCalls s)
      <= length (decodeCalls (now destroyedAt))
         + animationFrames (now destroyedAt) + length (waiting destroyedAt))%nat
  /\ (animationFrames s
      <= animationFrames (now destroyedAt) - length (filter isAnimationFrame after))%nat
  /\ (Video.srcObject (video s) = Video.srcObject (video (now destroyedAt))
      \/ Video.srcObject (video s) = SrcNull)
  /\ Idle s (start s)
  /\ (forall stopStreamImmediately, Idle s (pause stopStreamImmediately s))
  /\ (forall facingModeOrDeviceId,
        Idle (with_this (set_preferredCamera facingModeOrDeviceId) s)
          (setCamera facingModeOrDeviceId s))
  /\ Idle s (toggleFlash s)
  /\ Idle s (turnFlashOn s)
  /\ Idle s (turnFlashOff s).
Proof.
  intros destroyedAt s.
  set (mc0 := construct videoElement onDecodeError calculateScanRegion preferredCamera page).
  assert (H0 : TurnMachine mc0) by apply construct_TurnMachine.
  assert (Ht : TurnMachine destroyedAt) by now apply run_TurnMachine.
  assert (Hd : Destroyed (now destroyedAt)).
  { subst destroyedAt. fold mc0. unfold run. rewrite fold_left_app.
    fold (run mc0 before). cbn [fold_left step invoke].
    rewrite now_call. apply destroy_Destroyed. }
  set (bound := (length (decodeCalls (now destroyedAt))
                 + animationFrames (now destroyedAt) + length (waiting destroyedAt))%nat).
  assert (Ho : Owing bound destroyedAt).
  { split; [exact Hd|]. exists (length (waiting destroyedAt)).
    split; [now apply Debt_all | subst bound; lia]. }
  destruct (run_owing bound after destroyedAt Ho) as ((HD & debt & _ & Hb) & Hl & Hf).
  destruct (Hl Hd) as (_ & HE & _ & HS). fold s in HD, HE, HS, Hb, Hf.
  split; [exact HD|]. split; [exact HE|]. split; [lia|]. split; [exact Hf|].
  split; [exact HS|].
  repeat split.
  - now apply Idle_start.
  - intros. now apply Idle_pause.
  - intros. now apply Idle_setCamera.
  - now apply Idle_toggleFlash.
  - now apply Idle_turnFlashOn.
  - now apply Idle_turnFlashOff.
Qed.

(** C3, as claimed, fails.  [destroy()] while a frame is with the worker:
    the worker's answer is still handed to the decode callback.  And
    [destroy()] while an animation frame is pending: the frame fires, is
    drawn and given to the detector, and what the detector finds is handed
    to the decode callback. *)
Lemma decode_callback_after_destroy :
  (let destroyed := run decoding [Calls Destroy] in
   _destroyed (this (now destroyed)) = true
   /\ awaited destroyed = [WorkerResponse 0; SetTimeout 300; Microtask]
   /\ effects (now (run destroyed [Settle 0 (Fulfilled (VStr "hello")); Settle 2 tick]))
      = (effects (now destroyed) ++ [OnDecodeCall (VStr "hello")])%list)
  /\ (let native :=
        construct exampleVideo DefaultOnDecodeError exampleRegion "environment"
          (mkBrowser false true true true) in
      let destroyed :=
        run native
          [Calls Start; Settle 0 (Fulfilled (VTracks rearCamera)); Settle 0 tick;
           Settle 0 tick; PlayEvent; VideoChange 4 640 480 false; Calls Destroy] in
      _destroyed (this (now destroyed)) = true
      /\ animationFrames (now destroyed) = 1%nat
      /\ awaited destroyed = [SetTimeout 300; Microtask]
      /\ decodeCalls
           (now (run destroyed
                   [AnimationFrame; Settle 2 tick;
                    Settle 2 (Fulfilled (VDetected ["hello"])); Settle 2 tick]))
         = [OnDecodeCall (VStr "hello")]).
Proof. vm_compute. repeat split. Qed.

(** ** The end of a scan *)

Lemma lookup_insert_same {A} (l : list A) i x y :
  l !! i = Some y -> <[i:=x]> l !! i = Some x.
Proof. intros H. apply list_lookup_insert_eq. now apply lookup_lt_Some in H. Qed.

Lemma drawToCanvas_returns image scanRegion id disallow s c :
  canvases s !! id = Some c ->
  drawToCanvas image scanRegion (Some id) disallow s
  = let resized :=
      with_canvases <[id := fst (_drawToCanvas (imageOf s image) scanRegion c disallow)]> s in
    if broken image then Exn resized (VError "InvalidStateError")
    else Ret (log (DrawImageCall id
                     (snd (_drawToCanvas (imageOf s image) scanRegion c disallow)))
                resized)
           id.
Proof.
  intros H. unfold drawToCanvas. run_with ltac:(rewrite ?H).
  destruct (_drawToCanvas (imageOf s image) scanRegion c disallow).
  destruct (broken image); reflexivity.
Qed.

(** One turn of the scan loop with a worker engine, from the animation
    frame to the end: the frame is drawn and posted, and whatever the
    request to the worker settles with is what [afterScan] is run on. *)
Lemma animationFrame_with_worker s w c r
    (Hready : (Video.readyState (video s) <=? 1) = false)
    (Hengine : _qrEnginePromise (this s) = Worker w)
    (Hcanvas : canvases s !! canvas (this s) = Some c)
    (Hwidth : Video.videoWidth (video s) <> 0)
    (Hheight : Video.videoHeight (video s) <> 0) :
  feed (animationFrame s) [tick; r; tick] = afterScan (settledToSum r) (framePosted w c s).
Proof.
  unfold tick, animationFrame. run_with ltac:(rewrite ?Hready).
  unfold scanImage, scanImageBody, scanImageTry, _loadImage.
  run_with ltac:(rewrite ?Hengine).
  rewrite (drawToCanvas_returns _ _ _ _ _ _ Hcanvas).
  run_with idtac.
  unfold decodeWithWorker. run_with idtac.
  rewrite (lookup_insert_same _ _ _ _ Hcanvas).
  rewrite drawToCanvas_size. cbn [Canvas.width Canvas.height].
  assert (Hw : (canvasWidth (imageOf s LoadedVideo) (Some (_scanRegion (this s))) =? 0) = false).
  { apply Z.eqb_neq, canvasWidth_nonzero. unfold sourceWidth, imageOf. cbn.
    destruct (Video.videoWidth (video s) =? 0) eqn:E; trivial. now apply Z.eqb_eq in E. }
  assert (Hh : (canvasHeight (imageOf s LoadedVideo) (Some (_scanRegion (this s))) =? 0) = false).
  { apply Z.eqb_neq, canvasHeight_nonzero. unfold sourceHeight, imageOf. cbn.
    destruct (Video.videoHeight (video s) =? 0) eqn:E; trivial. now apply Z.eqb_eq in E. }
  rewrite Hw, Hh. unfold framePosted. rewrite drawToCanvas_size.
  destruct r; run_with idtac; reflexivity.
Qed.





(** ** Nothing found *)

Lemma is_NO_QR_CODE_FOUND_eq error :
  is_NO_QR_CODE_FOUND error = true <-> error = VStr NO_QR_CODE_FOUND.
Proof.
  destruct error; cbn; try (split; discriminate).
  rewrite String.eqb_eq. split; congruence.
Qed.

Lemma find_none_app {A} (f : A -> bool) l1 l2 :
  find f l1 = None -> find f (l1 ++ l2)%list = find f l2.
Proof.
  induction l1 as [|x l1 IH]; cbn; trivial.
  destruct (f x); [discriminate | exact IH].
Qed.

Lemma app_one_neq {A} (l : list A) x : (l ++ [x])%list <> l.
Proof.
  intros H. apply (f_equal (@length A)) in H. rewrite length_app in H. cbn in H. lia.
Qed.

Lemma onDecodeError_effects error s :
  effects (stateOf (onDecodeError error s))
  = match _onDecodeError (this s) with
    | CallerOnDecodeError => effects s ++ [OnDecodeErrorCall error]
    | DefaultOnDecodeError =>
        if is_NO_QR_CODE_FOUND error then effects s else effects s ++ [ConsoleLog error]
    end%list.
Proof.
  unfold onDecodeError. monad. destruct (_onDecodeError (this s)); monad; trivial.
  destruct (is_NO_QR_CODE_FOUND error); monad; trivial.
Qed.

Lemma afterScan_not_found s :
  exists s',
    afterScan (inr (VStr NO_QR_CODE_FOUND)) s = Ret s' tt
    /\ effects s'
       = match _onDecodeError (this s) with
         | CallerOnDecodeError =>
             if _active (this s)
             then effects s ++ [OnDecodeErrorCall (VStr NO_QR_CODE_FOUND)]
             else effects s
         | DefaultOnDecodeError => effects s
         end%list.
Proof.
  unfold afterScan, onDecodeError, _scanFrame. monad.
  destruct (_active (this s)) eqn:Ha; monad.
  - cbn [messageOr].
    change (includes NO_QR_CODE_FOUND "service unavailable") with false.
    change (is_NO_QR_CODE_FOUND (VStr NO_QR_CODE_FOUND)) with true.
    monad. destruct (_onDecodeError (this s)) eqn:Hh; monad; fields;
      rewrite ?Ha; cbn [negb orb]; fields.
    all: destruct (Video.paused (video s) || Video.ended (video s)); eexists; split;
        reflexivity || fields; reflexivity.
  - eexists. split; [reflexivity|]. now destruct (_onDecodeError (this s)).
Qed.

(** C8. A message [{type: 'qrResult', data: null}] of the worker settles
    the request as rejected with ['No QR code found'], so not as a result;
    a message of any other type changes nothing of the request.  The turn
    of the scan loop whose request settles so ends without the decode
    callback being called: with the default error handler nothing at all is
    reported, with a handler of the caller only that handler is called.
    And the default handler logs an error exactly when the error is not the
    string ['No QR code found']. *)
Theorem not_found_is_silent (ignored : list WorkerRequest.Event)
    (s : State) (w : nat) (c : Canvas.t)
    (Hignored : find WorkerRequest.settles ignored = None)
    (Hready : (Video.readyState (video s) <=? 1) = false)
    (Hengine : _qrEnginePromise (this s) = Worker w)
    (Hcanvas : canvases s !! canvas (this s) = Some c)
    (Hwidth : Video.videoWidth (video s) <> 0)
    (Hheight : Video.videoHeight (video s) <> 0) :
  let notFound := Rejected (VStr NO_QR_CODE_FOUND) in
  WorkerRequest.promise
    (WorkerRequest.run (ignored ++ [WorkerRequest.Message "qrResult" VNull]))
  = Some notFound
  /\ (forall q type data,
        WorkerRequest.dispatch q (WorkerRequest.Message type data)
        = if String.eqb type "qrResult"
          then WorkerRequest.dispatch q (WorkerRequest.Message "qrResult" data)
          else q)
  /\ (let done := feed (animationFrame s) [tick; notFound; tick] in
      resultOf done = Some (inl tt)
      /\ filter isOnDecode (effects (stateOf done)) = filter isOnDecode (effects s)
      /\ effects (stateOf done)
         = match _onDecodeError (this s) with
           | CallerOnDecodeError =>
               if _active (this s)
               then effects (framePosted w c s) ++ [OnDecodeErrorCall (VStr NO_QR_CODE_FOUND)]
               else effects (framePosted w c s)
           | DefaultOnDecodeError => effects (framePosted w c s)
           end%list)
  /\ (forall error s',
        _onDecodeError (this s') = DefaultOnDecodeError ->
        (effects (stateOf (onDecodeError error s')) = effects s'
         <-> error = VStr NO_QR_CODE_FOUND)
        /\ (error <> VStr NO_QR_CODE_FOUND ->
            effects (stateOf (onDecodeError error s'))
            = (effects s' ++ [ConsoleLog error])%list)).
Proof.
  intros notFound. split; [|split; [|split]].
  - rewrite run_find, (find_none_app _ _ _ Hignored).
    cbn [find WorkerRequest.settles]. reflexivity.
  - intros q type data. unfold WorkerRequest.dispatch.
    destruct (WorkerRequest.messageListener q).
    + unfold WorkerRequest.onMessage.
      destruct (String.eqb type "qrResult"); reflexivity.
    + destruct (String.eqb type "qrResult"); reflexivity.
  - cbv zeta. rewrite (animationFrame_with_worker s w c notFound); trivial.
    destruct (afterScan_not_found (framePosted w c s)) as (s' & H1 & H2).
    cbn [settledToSum notFound]. rewrite H1. cbn [stateOf resultOf]. rewrite H2.
    split; [reflexivity|]. split; [|reflexivity].
    unfold framePosted. fields.
    destruct (_onDecodeError (this s)); [|destruct (_active (this s))];
      rewrite !filter_app; cbn [filter isOnDecode]; now rewrite ?app_nil_r.
  - intros error s' H. split; [split|].
    + rewrite onDecodeError_effects, H.
      destruct (is_NO_QR_CODE_FOUND error) eqn:E.
      * intros _. now apply is_NO_QR_CODE_FOUND_eq.
      * intros H'. now apply app_one_neq in H'.
    + intros ->. rewrite onDecodeError_effects, H. reflexivity.
    + intros Hne. rewrite onDecodeError_effects, H.
      destruct (is_NO_QR_CODE_FOUND error) eqn:E; trivial.
      now apply is_NO_QR_CODE_FOUND_eq in E.
Qed.

Lemma not_found_is_silent_witness :
  effects (stateOf (feed (animationFrame showingFrames)
                      [tick; Rejected (VStr NO_QR_CODE_FOUND); tick]))
  = effects (framePosted 0 Canvas.fresh showingFrames).
Proof.
  refine (proj2 (proj2 (proj1 (proj2 (proj2
    (not_found_is_silent [WorkerRequest.Message "progress" VNull] showingFrames
       0%nat Canvas.fresh eq_refl eq_refl eq_refl eq_refl _ _)))))); vm_compute; lia.
Defined.

(** ** Calls run to their end *)

Lemma runTo_bindCo {A B} (c : Co A) (f : A -> M B) : forall a1 a2 s1 x,
  runTo c a1 = Some (s1, inl x) ->
  runTo (bindCo c f) (a1 ++ a2) = runTo (f x s1) a2.
Proof.
  induction c as [s a|s e|s w k IH|w k rest IH]; intros a1 a2 s1 x H; cbn in *.
  - destruct a1; [|discriminate]. now injection H as -> ->.
  - destruct a1; discriminate.
  - destruct a1 as [|r a1]; [discriminate|]. cbn. now apply IH.
  - now apply IH.
Qed.

Lemma runTo_bindCo_exn {A B} (c : Co A) (f : A -> M B) : forall a1 s1 e,
  runTo c a1 = Some (s1, inr e) ->
  runTo (bindCo c f) a1 = Some (s1, inr e).
Proof.
  induction c as [s a|s e0|s w k IH|w k rest IH]; intros a1 s1 e H; cbn in *.
  - destruct a1; discriminate.
  - destruct a1; [|discriminate]. now injection H as -> ->.
  - destruct a1 as [|r a1]; [discriminate|]. now apply IH.
  - now apply IH.
Qed.

Lemma runTo_captureCo {A} (c : Co A) : forall a s out,
  runTo c a = Some (s, out) ->
  runTo (captureCo c) a = Some (s, inl out).
Proof.
  induction c as [s0 a0|s0 e0|s0 w k IH|w k rest IH]; intros a s out H; cbn in *.
  - destruct a; [|discriminate]. now injection H as -> <-.
  - destruct a; [|discriminate]. now injection H as -> <-.
  - destruct a as [|r a]; [discriminate|]. now apply IH.
  - now apply IH.
Qed.

Lemma runTo_detach {A} (c : Co A) s : stateOf c = s -> runTo (detach c) [] = Some (s, inl tt).
Proof.
  induction c as [s0 a0|s0 e0|s0 w k IH|w k rest IH]; intros H; cbn in *; subst; auto.
Qed.

(** The [finally] of [scanImage]: posting ['close'] is not waited for. *)
Lemma close_runTo (b : bool) qrEngine s :
  runTo ((if b then spawn (_postWorkerMessage qrEngine "close") else ret tt) s) []
  = Some (s, inl tt).
Proof. destruct b; reflexivity. Qed.

(** The end of [scanImage] after an attempt that is not tried again. *)
Lemma scanImageBody_done self input scanRegion qrEngine canvas disallow alsoTry s
    answers s1 qrEngine1 canvas1 r1 :
  runTo (scanImageTry input scanRegion qrEngine canvas disallow s) answers
  = Some (s1, inl (qrEngine1, canvas1, r1)) ->
  match r1 with
  | inl _ => True
  | inr _ => negb (isSome scanRegion) || negb alsoTry = true
  end ->
  runTo (scanImageBody self input scanRegion qrEngine canvas disallow alsoTry s) answers
  = Some (s1, r1).
Proof.
  intros Htry Hr. unfold scanImageBody, mbind, M_bind, bind.
  rewrite <- (app_nil_r answers).
  rewrite (runTo_bindCo _ _ _ _ _ _ Htry).
  assert (Hfin : forall (r : Value + Value),
             runTo (bindCo ((if negb (isSome qrEngine)
                             then spawn (_postWorkerMessage qrEngine1 "close")
                             else ret tt) s1)
                      (fun _ => match r with inl v => ret v | inr e => throw e end)) []
             = Some (s1, r)).
  { intros r. rewrite <- (app_nil_r []).
    rewrite (runTo_bindCo _ _ _ _ _ _ (close_runTo _ _ _)). now destruct r. }
  destruct r1 as [v|e].
  - cbn [bindCo ret]. exact (Hfin (inl v)).
  - rewrite Hr. cbn [bindCo ret]. exact (Hfin (inr e)).
Qed.

(** C5. An attempt of [scanImage] is its [try] block.  If the first
    attempt returns a result, the result is returned.  If it fails and
    there is no scan region, or trying without the region was not asked
    for, what it threw is thrown at once, nothing having been done in
    between.  If it fails with a scan region and trying without it was
    asked for, one more attempt is made, on the same image with no region,
    with the engine and the canvas of the first; whatever that attempt
    returns or throws is what [scanImage] returns or throws, and no third
    attempt is made. *)
Theorem scanImage_retries_once (input : ImageSource) (scanRegion : option ScanRegion.t)
    (qrEngine : option Engine) (canvas : option nat) (disallowCanvasResizing : bool)
    (s s1 : State) (answers1 : list Settled)
    (qrEngine1 : option Engine) (canvas1 : option nat) (r1 : Value + Value)
    (Hfirst : runTo (scanImageTry input scanRegion qrEngine canvas
                       disallowCanvasResizing s) answers1
              = Some (s1, inl (qrEngine1, canvas1, r1))) :
  (forall result alsoTryWithoutScanRegion,
      r1 = inl result ->
      runTo (scanImage input scanRegion qrEngine canvas disallowCanvasResizing
               alsoTryWithoutScanRegion s) answers1
      = Some (s1, inl result))
  /\ (forall e alsoTryWithoutScanRegion,
        r1 = inr e ->
        scanRegion = None \/ alsoTryWithoutScanRegion = false ->
        runTo (scanImage input scanRegion qrEngine canvas disallowCanvasResizing
                 alsoTryWithoutScanRegion s) answers1
        = Some (s1, inr e))
  /\ (forall e region answers2 s2 qrEngine2 canvas2 r2 t,
        r1 = inr e ->
        scanRegion = Some region ->
        runTo (scanImageTry input None qrEngine1 canvas1 disallowCanvasResizing s1)
          answers2
        = Some (s2, inl (qrEngine2, canvas2, r2)) ->
        runTo (scanImage input scanRegion qrEngine canvas disallowCanvasResizing true s)
          (answers1 ++ answers2 ++ [t])
        = Some (s2, r2)).
Proof.
  repeat split.
  - intros result a ->. unfold scanImage. now apply (scanImageBody_done _ _ _ _ _ _ _ _ _ _ _ _ _ Hfirst).
  - intros e a -> Hno. unfold scanImage.
    apply (scanImageBody_done _ _ _ _ _ _ _ _ _ _ _ _ _ Hfirst).
    destruct Hno as [-> | ->]; [reflexivity | apply orb_true_r].
  - intros e region answers2 s2 qrEngine2 canvas2 r2 t -> -> Hsecond.
    assert (Hretry : runTo (scanImageWithoutRetry input None qrEngine1 canvas1
                              disallowCanvasResizing s1) answers2
                     = Some (s2, r2)).
    { unfold scanImageWithoutRetry.
      apply (scanImageBody_done _ _ _ _ _ _ _ _ _ _ _ _ _ Hsecond).
      now destruct r2. }
    unfold scanImage, scanImageBody, mbind, M_bind, bind.
    rewrite (runTo_bindCo _ _ _ _ _ _ Hfirst).
    cbn [isSome negb orb]. unfold capture, awaitCall, mbind, M_bind, bind.
    apply runTo_captureCo in Hretry.
    assert (Hawait : runTo
              (captureCo
                 (bindCo (captureCo (scanImageWithoutRetry input None qrEngine1 canvas1
                                       disallowCanvasResizing s1))
                    (fun r s0 =>
                       bindCo (captureCo (await Microtask s0))
                         (fun _ => match r with inl a => ret a | inr e0 => throw e0 end))))
              (answers2 ++ [t])
            = Some (s2, inl r2)).
    { apply runTo_captureCo. rewrite (runTo_bindCo _ _ _ _ _ _ Hretry).
      destruct t, r2; reflexivity. }
    rewrite <- (app_nil_r (answers2 ++ [t])).
    rewrite (runTo_bindCo _ _ _ _ _ _ Hawait).
    rewrite <- (app_nil_r []).
    rewrite (runTo_bindCo _ _ _ _ _ _ (close_runTo _ _ _)). now destruct r2.
Qed.

Lemma scanImage_retries_once_witness :
  exists s2,
    runTo (scanImage (Drawable (Image.mk None None 100 100))
             (Some (ScanRegion.mk (Some 10) (Some 10) (Some 20) (Some 20) None None))
             (Some (Worker 0)) None false true (now newScanner))
      ([tick; Rejected (VStr NO_QR_CODE_FOUND)] ++ [tick; Fulfilled (VStr "hello")] ++ [tick])
    = Some (s2, inl (VStr "hello")).
Proof.
  eassert (Hfirst : runTo (scanImageTry (Drawable (Image.mk None None 100 100))
                             (Some (ScanRegion.mk (Some 10) (Some 10) (Some 20) (Some 20)
                                      None None))
                             (Some (Worker 0)) None false (now newScanner))
                      [tick; Rejected (VStr NO_QR_CODE_FOUND)]
                    = Some (_, inl (_, _, _))) by reflexivity.
  eexists.
  eapply (proj2 (proj2 (scanImage_retries_once _ _ _ _ _ _ _ _ _ _ _ Hfirst)));
    reflexivity.
Defined.

(** ** The flash *)

Lemma firstTier camera :
  exists rest, (constraintsWithCamera camera ++ constraintsWithoutCamera)%list
               = nth 0 (tiers camera) noConstraints :: rest.
Proof.
  rewrite tiers_spec. unfold tiers. destruct (re_environment_or_user camera); eexists; reflexivity.
Qed.

Lemma turnFlashOff_stops s id stream
    (Hflash : _flashOn (this s) = true) (Hactive : _active (this s) = true)
    (Hsrc : Video.srcObject (video s) = SrcMediaStream id)
    (Hstream : streams s !! id = Some stream) :
  let c := turnFlashOff s in
  awaitOf c = Some Microtask
  /\ _flashOn (this (stateOf c)) = false
  /\ Video.srcObject (video (stateOf c)) = SrcNull
  /\ streams (stateOf c) !! id = Some (releasedStream stream)
  /\ effects (stateOf c) = (effects s ++ [VideoPause])%list.
Proof.
  unfold turnFlashOff, _restartVideoStream, pause, video_pause.
  run_with ltac:(rewrite ?Hflash, ?Hactive).
  rewrite stopStream_returns. run_with idtac.
  match goal with |- context [afterStopStream ?s0] =>
    destruct (stopStream_releases s0 id stream Hsrc Hstream) as (H1 & H2 & H3 & H4) end.
  rewrite H1, H2, H3, H4. fields. auto.
Qed.

Lemma afterStopStream_eq s id :
  Video.srcObject (video s) = SrcMediaStream id ->
  afterStopStream s
  = with_video (set_srcObject SrcNull) (with_streams (alter _stopVideoStream id) s).
Proof.
  intros H. unfold afterStopStream, stopStream, stopVideoStream. monad.
  rewrite H. reflexivity.
Qed.

Lemma turnFlashOff_paused s id stream t1 t2
    (Hflash : _flashOn (this s) = true) (Hactive : _active (this s) = true)
    (Hsrc : Video.srcObject (video s) = SrcMediaStream id)
    (Hstream : streams s !! id = Some stream)
    (Hpaused : _paused (this s) = true) :
  runTo (turnFlashOff s) [t1; t2] = Some (stateOf (turnFlashOff s), inl tt).
Proof.
  unfold turnFlashOff, _restartVideoStream, pause, video_pause.
  run_with ltac:(rewrite ?Hflash, ?Hactive, ?Hpaused).
  rewrite stopStream_returns. run_with idtac. cbn [runTo].
  destruct t1; run_with ltac:(rewrite ?Hpaused); cbn [runTo];
    destruct t2; reflexivity.
Qed.

Lemma turnFlashOff_first s id stream t1
    (Hflash : _flashOn (this s) = true) (Hactive : _active (this s) = true)
    (Hsrc : Video.srcObject (video s) = SrcMediaStream id)
    (Hstream : streams s !! id = Some stream)
    (Hunpaused : _paused (this s) = false)
    (Hvisible : hidden (browser s) = false)
    (Halive : _destroyed (this s) = false)
    (Hdevices : mediaDevices (browser s) = true) :
  let c := feed (turnFlashOff s) [t1] in
  awaitOf c = Some (GetUserMedia (nth 0 (tiers (_preferredCamera (this s))) noConstraints))
  /\ _flashOn (this (stateOf c)) = false
  /\ Video.srcObject (video (stateOf c)) = SrcNull.
Proof.
  destruct (firstTier (_preferredCamera (this s))) as [rest Htiers].
  unfold turnFlashOff, _restartVideoStream, pause, video_pause.
  run_with ltac:(rewrite ?Hflash, ?Hactive, ?Hunpaused).
  rewrite stopStream_returns. run_with idtac.
  rewrite (afterStopStream_eq _ id) by exact Hsrc.
  unfold start, _getCameraStream, getUserMedia, video_play, _setVideoMirror.
  destruct (https (browser s)) eqn:Hs; destruct t1.
  all: repeat (progress (run_with ltac:(rewrite ?Hunpaused, ?Hactive, ?Halive, ?Hvisible,
                                          ?Hs, ?Hdevices, ?Htiers);
                         cbn [getCameraStreamLoop])).
  all: repeat split; trivial.
Qed.


(** An answer is consumed by rewriting, so that the two sides of no
    conversion are runs of different lengths. *)
Lemma runTo_Susp {A} s w (k : Settled -> State -> Co A) r rest :
  runTo (Susp s w k) (r :: rest) = runTo (k r s) rest.
Proof. reflexivity. Qed.

Lemma turnFlashOff_second s id stream t1 tracks t2 p t3 t4
    (Hflash : _flashOn (this s) = true) (Hactive : _active (this s) = true)
    (Hsrc : Video.srcObject (video s) = SrcMediaStream id)
    (Hstream : streams s !! id = Some stream)
    (Hunpaused : _paused (this s) = false)
    (Hvisible : hidden (browser s) = false)
    (Halive : _destroyed (this s) = false)
    (Hdevices : mediaDevices (browser s) = true) :
       exists s3,
         runTo (turnFlashOff s) [t1; Fulfilled (VTracks tracks); t2; Fulfilled p; t3; t4]
         = Some (s3, inl tt)
         /\ Video.srcObject (video s3) = SrcMediaStream (length (streams s))
         /\ streams s3 !! length (streams s) = Some (mkStream tracks [])
         /\ _flashOn (this s3) = false
         /\ _active (this s3) = true /\ _paused (this s3) = false.
Proof.
  destruct (firstTier (_preferredCamera (this s))) as [rest Htiers].
  unfold turnFlashOff, _restartVideoStream, pause, video_pause.
  args_with ltac:(rewrite ?Hflash, ?Hactive, ?Hunpaused).
  rewrite stopStream_returns. args_with idtac.
  rewrite (afterStopStream_eq _ id) by exact Hsrc.
  unfold start, _getCameraStream, video_play, _setVideoMirror.
  destruct (https (browser s)) eqn:Hs; destruct t1, t2, t3, t4.
  all: repeat (progress (args_with ltac:(rewrite ?Hunpaused, ?Hactive, ?Halive, ?Hvisible,
                                          ?Hs, ?Hdevices, ?Htiers, ?Hflash, ?runTo_Susp);
                         cbn [getCameraStreamLoop]; try unfold getUserMedia)).
  all: eexists.
  all: (split; [reflexivity|]).
  all: fields.
  all: rewrite length_alter.
  all: (split; [reflexivity|]).
  all: (split; [apply list_lookup_middle; now rewrite length_alter|]).
  all: repeat split.
Qed.

Lemma turnFlashOn_keeps_stream t id stream track t1 a
    (Hoff : _flashOn (this t) = false) (Halive : _destroyed (this t) = false)
    (Hactive : _active (this t) = true) (Hunpaused : _paused (this t) = false)
    (Hsrc : Video.srcObject (video t) = SrcMediaStream id)
    (Hstream : streams t !! id = Some stream)
    (Htrack : head (getTracks stream) = Some track)
    (Htorch : torch track = true) :
  awaitOf (turnFlashOn t) = Some Microtask
  /\ awaitOf (feed (turnFlashOn t) [t1]) = Some (ApplyConstraints id)
  /\ stateOf (feed (turnFlashOn t) [t1]) = with_this (set_flashOn true) t
  /\ runTo (turnFlashOn t) [t1; a]
     = Some (match a with
             | Fulfilled _ =>
                 (with_streams (alter lightFirstTrack id) (with_this (set_flashOn true) t),
                  inl tt)
             | Rejected e =>
                 (with_this (set_flashOn false) (with_this (set_flashOn true) t), inr e)
             end).
Proof.
  unfold turnFlashOn, hasFlash, torchInSettings, applyTorch, firstVideoTrack.
  destruct t1.
  all: repeat (progress (run_with ltac:(rewrite ?Hoff, ?Halive, ?Hactive, ?Hunpaused,
                                          ?Hsrc, ?Hstream, ?Htrack, ?Htorch))).
  all: repeat split; destruct a; reflexivity.
Qed.

(** X24. What holds of the flash.  [turnFlashOff] on an active scanner whose flash is
    on clears the flag and, before it waits for anything, pauses the video
    and stops and takes out the tracks of the stream; if the scanner was
    paused that is all, and if it was not, on a visible page, [start] asks
    for a camera again and the stream it gets is attached, with the flag
    off.  [turnFlashOn] on a playing scanner whose stream has a torch asks
    the track for the torch and does nothing else: the video is not paused,
    no camera is asked for and the stream stays attached as it is. *)
Lemma flash_off_restarts_flash_on_does_not
    (s : State) (id : nat) (stream : MediaStream)
    (Hflash : _flashOn (this s) = true) (Hactive : _active (this s) = true)
    (Hsrc : Video.srcObject (video s) = SrcMediaStream id)
    (Hstream : streams s !! id = Some stream)
    (t : State) (idT : nat) (streamT : MediaStream) (track : MediaStreamTrack)
    (HoffT : _flashOn (this t) = false) (HaliveT : _destroyed (this t) = false)
    (HactiveT : _active (this t) = true) (HunpausedT : _paused (this t) = false)
    (HsrcT : Video.srcObject (video t) = SrcMediaStream idT)
    (HstreamT : streams t !! idT = Some streamT)
    (HtrackT : head (getTracks streamT) = Some track)
    (HtorchT : torch track = true) :
  (let c := turnFlashOff s in
   awaitOf c = Some Microtask
   /\ _flashOn (this (stateOf c)) = false
   /\ Video.srcObject (video (stateOf c)) = SrcNull
   /\ streams (stateOf c) !! id = Some (releasedStream stream)
   /\ effects (stateOf c) = (effects s ++ [VideoPause])%list)
  /\ (_paused (this s) = true ->
      forall t1 t2, runTo (turnFlashOff s) [t1; t2] = Some (stateOf (turnFlashOff s), inl tt))
  /\ (_paused (this s) = false -> hidden (browser s) = false ->
      _destroyed (this s) = false -> mediaDevices (browser s) = true ->
      forall t1,
        let c := feed (turnFlashOff s) [t1] in
        awaitOf c
        = Some (GetUserMedia (nth 0 (tiers (_preferredCamera (this s))) noConstraints))
        /\ _flashOn (this (stateOf c)) = false
        /\ Video.srcObject (video (stateOf c)) = SrcNull
        /\ forall tracks t2 p t3 t4,
             exists s3,
               runTo (turnFlashOff s)
                 [t1; Fulfilled (VTracks tracks); t2; Fulfilled p; t3; t4]
               = Some (s3, inl tt)
               /\ Video.srcObject (video s3) = SrcMediaStream (length (streams s))
               /\ streams s3 !! length (streams s) = Some (mkStream tracks [])
               /\ _flashOn (this s3) = false
               /\ _active (this s3) = true /\ _paused (this s3) = false)
  /\ (forall t1 a,
        awaitOf (turnFlashOn t) = Some Microtask
        /\ awaitOf (feed (turnFlashOn t) [t1]) = Some (ApplyConstraints idT)
        /\ stateOf (feed (turnFlashOn t) [t1]) = with_this (set_flashOn true) t
        /\ runTo (turnFlashOn t) [t1; a]
           = Some (match a with
                   | Fulfilled _ =>
                       (with_streams (alter lightFirstTrack idT)
                          (with_this (set_flashOn true) t), inl tt)
                   | Rejected e =>
                       (with_this (set_flashOn false) (with_this (set_flashOn true) t),
                        inr e)
                   end)).
Proof.
  split; [|split; [|split; [|split]]].
  - now apply turnFlashOff_stops.
  - intros Hp t1 t2. now apply (turnFlashOff_paused s id stream).
  - intros Hp Hv Ha Hm t1.
    destruct (turnFlashOff_first s id stream t1) as (H1 & H2 & H3); trivial.
    repeat (split; trivial). intros tracks t2 p t3 t4.
    now apply (turnFlashOff_second s id stream).
  - apply (turnFlashOn_keeps_stream t idT streamT track); trivial.
  - apply (turnFlashOn_keeps_stream t idT streamT track); trivial.
Qed.

Lemma flash_off_restarts_flash_on_does_not_witness :
  streams (stateOf (turnFlashOff torchLit)) !! 0%nat
  = Some (mkStream [] [mkTrack "camera2 0, facing back" true true false])
  /\ awaitOf (feed (turnFlashOn playing) [tick]) = Some (ApplyConstraints 0).
Proof.
  pose proof (flash_off_restarts_flash_on_does_not
                torchLit 0 (mkStream [mkTrack "camera2 0, facing back" true false true] [])
                eq_refl eq_refl eq_refl eq_refl
                playing 0 (mkStream rearCamera [])
                (mkTrack "camera2 0, facing back" true false false)
                eq_refl eq_refl eq_refl eq_refl eq_refl eq_refl eq_refl eq_refl) as H.
  split.
  - exact (proj1 (proj2 (proj2 (proj2 (proj1 H))))).
  - exact (proj1 (proj2 (proj2 (proj2 (proj2 H)) tick tick))).
Defined.

(** C7.  [turnFlashOff] does not always stop the stream, as its comments
    say it has to: after [stop()] the stream stays on the video for 300ms;
    [turnFlashOff()] called then clears the flag and returns with
    the track of the stream neither stopped nor taken out and its light on;
    and if [start()] follows before the 300ms are over, the scanner plays
    that stream again, the light on and the flag off. *)
Theorem flash_off_after_stop_keeps_stream :
  let stopped := run lit_up [Calls Stop] in
  let off := run stopped [Calls TurnFlashOff; Settle 1 tick; Settle 1 tick] in
  let restarted := run off [Calls Start; Settle 0 tick; Settle 0 tick] in
  let burning := [mkStream [mkTrack "camera2 0, facing back" true false true] []] in
  (_flashOn (this (now stopped)) = true
   /\ Video.srcObject (video (now stopped)) = SrcMediaStream 0
   /\ streams (now stopped) = burning)
  /\ (awaited off = [SetTimeout 300]
      /\ _flashOn (this (now off)) = false
      /\ Video.srcObject (video (now off)) = SrcMediaStream 0
      /\ streams (now off) = burning)
  /\ (awaited restarted = []
      /\ _active (this (now restarted)) = true
      /\ _flashOn (this (now restarted)) = false
      /\ Video.srcObject (video (now restarted)) = SrcMediaStream 0
      /\ streams (now restarted) = burning).
Proof. vm_compute. repeat split. Qed.

(** * Further properties *)

(** ** The default scan region *)

Lemma Math_round_thirds m : 0 <= m ->
  let size := Math_round (2 * m) 3 in
  0 <= size <= m /\ -1 <= 3 * size - 2 * m <= 1 /\ (1 <= m -> 1 <= size).
Proof.
  intros Hm. unfold Math_round. cbv zeta.
  pose proof (Z.div_mod (2 * (2 * m) + 3) (2 * 3) ltac:(lia)) as H.
  pose proof (Z.mod_pos_bound (2 * (2 * m) + 3) (2 * 3) ltac:(lia)) as Hb.
  pose proof (Z.mod_divide (2 * (2 * m) + 3) 6 ltac:(lia)) as Hd.
  assert (Hodd : (2 * (2 * m) + 3) mod (2 * 3) <> 0 /\ (2 * (2 * m) + 3) mod (2 * 3) <> 2
                 /\ (2 * (2 * m) + 3) mod (2 * 3) <> 4).
  { repeat split; intros E; rewrite E in H; lia. }
  lia.
Qed.

Lemma Math_round_half n : 0 <= n ->
  let x := Math_round n 2 in
  0 <= x <= n /\ 0 <= x - (n - x) <= 1.
Proof.
  intros Hn. unfold Math_round. cbv zeta.
  pose proof (Z.div_mod (2 * n + 2) (2 * 2) ltac:(lia)) as H.
  pose proof (Z.mod_pos_bound (2 * n + 2) (2 * 2) ltac:(lia)) as Hb.
  assert (Hodd : (2 * n + 2) mod (2 * 2) <> 1 /\ (2 * n + 2) mod (2 * 2) <> 3).
  { split; intros E; rewrite E in H; lia. }
  lia.
Qed.

(** X1. The default scan region of a video is a square inside the frame:
    its side is two thirds of the smaller dimension of the video, rounded,
    it is centred, the left and upper margins being the larger ones by at
    most a pixel, and it is scaled down to the legacy canvas size.  On a
    video that has frames, and with a legacy canvas size that a canvas
    keeps, an integer from 1 to 2^31 - 1, [_drawToCanvas] with this region
    draws exactly that square on a canvas of the legacy size. *)
Theorem default_scan_region_inside_frame (size : Z) (s : State) (c : Canvas.t)
    (Hw : 0 <= Video.videoWidth (video s)) (Hh : 0 <= Video.videoHeight (video s)) :
  let v := video s in
  let r := Default._calculateScanRegion size v in
  exists x y side,
    r = ScanRegion.mk (Some x) (Some y) (Some side) (Some side) (Some size) (Some size)
    /\ -1 <= 3 * side - 2 * Z.min (Video.videoWidth v) (Video.videoHeight v) <= 1
    /\ 0 <= x /\ x + side <= Video.videoWidth v
    /\ 0 <= y /\ y + side <= Video.videoHeight v
    /\ 0 <= x - (Video.videoWidth v - side - x) <= 1
    /\ 0 <= y - (Video.videoHeight v - side - y) <= 1
    /\ (1 <= Video.videoWidth v -> 1 <= Video.videoHeight v ->
        1 <= size <= 2147483647 ->
        _drawToCanvas (imageOf s LoadedVideo) (Some r) c false
        = (Canvas.mk size size, mkDrawImage x y side side 0 0 size size)).
Proof.
  cbv zeta. unfold Default._calculateScanRegion. cbv zeta.
  set (m := Z.min (Video.videoWidth (video s)) (Video.videoHeight (video s))).
  assert (Hm : 0 <= m) by (subst m; lia).
  destruct (Math_round_thirds m Hm) as (Hs & Hn & H1).
  set (side := Math_round (2 * m) 3) in *.
  assert (Hsw : 0 <= Video.videoWidth (video s) - side) by (subst m; lia).
  assert (Hsh : 0 <= Video.videoHeight (video s) - side) by (subst m; lia).
  destruct (Math_round_half _ Hsw) as (Hx & Hxm).
  destruct (Math_round_half _ Hsh) as (Hy & Hym).
  set (x := Math_round (Video.videoWidth (video s) - side) 2) in *.
  set (y := Math_round (Video.videoHeight (video s) - side) 2) in *.
  exists x, y, side. repeat split; try lia.
  intros Hw1 Hh1 Hrange.
  assert (Hsize : size <> 0) by lia.
  assert (Hside : side <> 0) by (subst m; lia).
  unfold imageOf, _drawToCanvas, canvasWidth, canvasHeight, scanRegionWidth, scanRegionHeight,
    scanRegionX, scanRegionY, regionField, orElse. cbn [ScanRegion.x ScanRegion.y
    ScanRegion.width ScanRegion.height ScanRegion.downScaledWidth
    ScanRegion.downScaledHeight negb].
  destruct (Z.eqb_spec size 0); [contradiction|].
  destruct (Z.eqb_spec side 0); [contradiction|].
  assert (Hxy : forall a, (if a =? 0 then 0 else a) = a).
  { intros a. destruct (Z.eqb_spec a 0); congruence. }
  rewrite !Hxy.
  destruct c as [cw ch]. cbn [Canvas.width Canvas.height].
  destruct (Z.eqb_spec cw size), (Z.eqb_spec ch size); subst;
    cbn [negb Canvas.width Canvas.height]; rewrite ?Z.eqb_refl; cbn [negb];
    try reflexivity.
  all: destruct (Z.eqb_spec ch size); try contradiction; reflexivity.
Qed.

Lemma default_scan_region_inside_frame_witness :
  exists x y side,
    Default._calculateScanRegion DEFAULT_CANVAS_SIZE (video showingFrames)
    = ScanRegion.mk (Some x) (Some y) (Some side) (Some side) (Some 400) (Some 400)
    /\ 0 <= x /\ x + side <= 640
    /\ _drawToCanvas (imageOf showingFrames LoadedVideo)
         (Some (Default._calculateScanRegion DEFAULT_CANVAS_SIZE (video showingFrames)))
         Canvas.fresh false
       = (Canvas.mk 400 400, mkDrawImage x y side side 0 0 400 400).
Proof.
  destruct (default_scan_region_inside_frame DEFAULT_CANVAS_SIZE showingFrames Canvas.fresh
              ltac:(simpl; lia) ltac:(simpl; lia))
    as (x & y & side & H & _ & Hx & Hxs & _ & _ & _ & _ & Hdraw).
  exists x, y, side. repeat split; try assumption.
  apply Hdraw; unfold DEFAULT_CANVAS_SIZE; simpl; lia.
Defined.

(** ** Stopping a stream *)

(** X2. [_stopVideoStream] stops every track of the stream, which puts
    its light out, and takes it out of the stream, in the order of the
    tracks, so that the stream is left without tracks; tracks taken out
    before stay as they were; and on a stream that was stopped already the
    call changes nothing. *)
Theorem stopVideoStream_stops_every_track (stream : MediaStream) :
  let st := _stopVideoStream stream in
  getTracks st = []
  /\ removedTracks st = (removedTracks stream ++ map stopTrack (getTracks stream))%list
  /\ Forall (fun t => stopped t = true /\ lit t = false) (map stopTrack (getTracks stream))
  /\ map label (map stopTrack (getTracks stream)) = map label (getTracks stream)
  /\ _stopVideoStream st = st.
Proof.
  cbv zeta. rewrite stopVideoStream_released.
  repeat split.
  - induction (getTracks stream); constructor; auto.
  - rewrite map_map. reflexivity.
Qed.

(** ** Listing the cameras *)

Lemma cameraLabel_not_empty i label : cameraLabel i label <> "".
Proof.
  unfold cameraLabel. destruct (String.eqb_spec label ""); [|assumption].
  destruct (i =? 0)%nat; discriminate.
Qed.

Lemma cameraLabel_given i label : label <> "" -> cameraLabel i label = label.
Proof.
  intros H. unfold cameraLabel. destruct (String.eqb_spec label ""); congruence.
Qed.

Lemma imap_toCamera_ids cameras :
  map Camera.id (imap toCamera cameras) = map MediaDeviceInfo.deviceId cameras.
Proof.
  change (imap toCamera cameras) with (imap (fun i => toCamera (id i)) cameras).
  generalize (@id nat). induction cameras as [|c l IH]; intros g; [reflexivity|].
  cbn. f_equal. apply (IH (fun i => g (S i))).
Qed.

Lemma imap_toCamera_labels cameras :
  Forall (fun c => Camera.label c <> "") (imap toCamera cameras).
Proof.
  apply Forall_lookup. intros i c Hc. rewrite list_lookup_imap in Hc.
  destruct (cameras !! i); [|discriminate]. cbn in Hc. injection Hc as <-.
  apply cameraLabel_not_empty.
Qed.

(** X3. What [listCameras] resolves with: without [navigator.mediaDevices]
    the empty list; otherwise one camera for each device of kind
    ['videoinput'] of the last enumeration, in their order and with their
    device ids, the enumeration being the second one exactly when labels
    were requested.  A camera whose device has a label has that label, and
    no camera has an empty one: without a label of its device the first
    camera is ['Default Camera'] and the one at index [i] is ['Camera i+1']. *)
Theorem listCameras_lists_video_inputs (requestLabels : bool) (nav : Navigator.t)
    (cameras : list Camera.t)
    (Hresolves : snd (listCameras requestLabels nav) = inl cameras) :
  Forall (fun c => Camera.label c <> "") cameras
  /\ (Navigator.mediaDevices nav = false -> cameras = [])
  /\ (Navigator.mediaDevices nav = true ->
      exists devices,
        Navigator.enumerateDevices nav (if requestLabels then 1 else 0)%nat = inl devices
        /\ map Camera.id cameras = map MediaDeviceInfo.deviceId (videoInputs devices)
        /\ (forall i device,
              videoInputs devices !! i = Some device ->
              MediaDeviceInfo.label device <> "" ->
              cameras !! i
              = Some (Camera.mk (MediaDeviceInfo.deviceId device)
                        (MediaDeviceInfo.label device)))
        /\ (forall i device,
              videoInputs devices !! i = Some device ->
              MediaDeviceInfo.label device = "" ->
              cameras !! i
              = Some (Camera.mk (MediaDeviceInfo.deviceId device)
                        (if Nat.eqb i 0 then "Default Camera"
                         else "Camera " ++ NilZero.string_of_uint (Nat.to_uint (i + 1)))))).
Proof.
  unfold listCameras in Hresolves.
  destruct (Navigator.mediaDevices nav) eqn:Hm; cbn [negb] in Hresolves.
  2: { cbn in Hresolves. injection Hresolves as <-. repeat split; auto. discriminate. }
  assert (Hcalls : exists did openedStream,
            (if requestLabels then
               match enumerateCameras nav 0 with
               | inl cameras =>
                   if forallb unlabelled cameras then
                     match Navigator.getUserMedia nav with
                     | inl tracks =>
                         ([EnumerateDevicesCall; GetUserMediaVideoCall], 1%nat,
                          Some (mkStream tracks []))
                     | inr _ => ([EnumerateDevicesCall; GetUserMediaVideoCall], 1%nat, None)
                     end
                   else ([EnumerateDevicesCall], 1%nat, None)
               | inr _ => ([EnumerateDevicesCall], 1%nat, None)
               end
             else ([], 0%nat, None))
            = (did, (if requestLabels then 1 else 0)%nat, openedStream)).
  { destruct requestLabels; [|now eexists _, _].
    destruct (enumerateCameras nav 0); [|now eexists _, _].
    destruct (forallb unlabelled l); [|now eexists _, _].
    destruct (Navigator.getUserMedia nav); now eexists _, _. }
  destruct Hcalls as (did & openedStream & Hcalls). rewrite Hcalls in Hresolves.
  cbn [snd] in Hresolves. unfold enumerateCameras in Hresolves.
  destruct (Navigator.enumerateDevices nav (if requestLabels then 1 else 0)%nat)
    as [devices|e] eqn:He; [|discriminate].
  injection Hresolves as <-. fold (videoInputs devices).
  split; [apply imap_toCamera_labels|]. split; [discriminate|].
  intros _. exists devices. split; [reflexivity|]. split; [apply imap_toCamera_ids|].
  split.
  - intros i device Hi Hl. rewrite list_lookup_imap, Hi. cbn. unfold toCamera.
    now rewrite cameraLabel_given.
  - intros i device Hi Hl. rewrite list_lookup_imap, Hi. cbn. unfold toCamera, cameraLabel.
    now rewrite Hl.
Qed.

Lemma listCameras_lists_video_inputs_witness :
  Forall (fun c => Camera.label c <> "")
    [Camera.mk "cam0" "Back Camera"; Camera.mk "cam1" "Camera 2"].
Proof.
  exact (proj1 (listCameras_lists_video_inputs true exampleNavigator
                  [Camera.mk "cam0" "Back Camera"; Camera.mk "cam1" "Camera 2"]
                  eq_refl)).
Defined.

Lemma forallb_unlabelled l :
  forallb unlabelled l = true
  <-> Forall (fun d => MediaDeviceInfo.label d = "") l.
Proof.
  induction l as [|d l IH]; cbn.
  - split; auto.
  - rewrite andb_true_iff, IH. unfold unlabelled.
    split.
    + intros [H1 H2]. constructor; [now apply String.eqb_eq|assumption].
    + intros H. inversion H; subst. split; [now apply String.eqb_eq|assumption].
Qed.

(** X4. The stream [listCameras] opens to get at the labels.  It asks for
    one exactly when labels are requested, the first enumeration succeeds
    and none of its cameras has a label, which is also so when there is no
    camera at all.  When it got one, the last things it does are the second
    enumeration, a warning, and stopping that stream, every track of it,
    whether the second enumeration succeeded or not.  And its promise is
    rejected only with what the last enumeration was rejected with: a first
    enumeration or a request for the stream that fails is passed over. *)
Theorem listCameras_temporary_stream (requestLabels : bool) (nav : Navigator.t) :
  let did := fst (listCameras requestLabels nav) in
  (In GetUserMediaVideoCall did
   <-> Navigator.mediaDevices nav = true /\ requestLabels = true
       /\ exists devices,
            Navigator.enumerateDevices nav 0 = inl devices
            /\ Forall (fun d => MediaDeviceInfo.label d = "") (videoInputs devices))
  /\ (forall tracks,
        In GetUserMediaVideoCall did ->
        Navigator.getUserMedia nav = inl tracks ->
        did = [EnumerateDevicesCall; GetUserMediaVideoCall; EnumerateDevicesCall;
               Warn "Call listCameras after successfully starting a QR scanner to avoid creating a temporary video stream";
               StopVideoStream (releasedStream (mkStream tracks []))])
  /\ ((~ In GetUserMediaVideoCall did \/ exists e, Navigator.getUserMedia nav = inr e) ->
      Forall (fun d => d = EnumerateDevicesCall \/ d = GetUserMediaVideoCall) did)
  /\ (forall e,
        snd (listCameras requestLabels nav) = inr e ->
        Navigator.mediaDevices nav = true
        /\ Navigator.enumerateDevices nav (if requestLabels then 1 else 0)%nat = inr e).
Proof.
  cbv zeta. unfold listCameras, enumerateCameras.
  destruct (Navigator.mediaDevices nav) eqn:Hm; cbn [negb].
  2: { cbn. repeat split; try tauto; try discriminate; try (now intros (H & _)).
       intros _. constructor. }
  destruct requestLabels.
  2: { cbn [app fst snd].
       assert (Hno : ~ In GetUserMediaVideoCall [EnumerateDevicesCall])
         by (intros [H|[]]; discriminate).
       repeat split; try tauto; try discriminate.
       - intros (_ & H & _). discriminate.
       - intros _. repeat constructor.
       - destruct (Navigator.enumerateDevices nav 0); cbn in *; congruence. }
  destruct (Navigator.enumerateDevices nav 0) as [devices|e0] eqn:He0.
  2: { cbn [app fst snd].
       assert (Hno : ~ In GetUserMediaVideoCall [EnumerateDevicesCall; EnumerateDevicesCall])
         by (intros [H|[H|[]]]; discriminate).
       repeat split; try tauto; try discriminate.
       - intros (_ & _ & d & H & _). discriminate.
       - intros _. repeat constructor; auto.
       - destruct (Navigator.enumerateDevices nav 1); cbn in *; congruence. }
  fold (videoInputs devices).
  destruct (forallb unlabelled (videoInputs devices)) eqn:Hall.
  2: { cbn [app fst snd].
       assert (Hno : ~ In GetUserMediaVideoCall [EnumerateDevicesCall; EnumerateDevicesCall])
         by (intros [H|[H|[]]]; discriminate).
       repeat split; try tauto; try discriminate.
       - intros (_ & _ & d & H & Hf). injection H as <-.
         apply forallb_unlabelled in Hf. congruence.
       - intros _. repeat constructor; auto.
       - destruct (Navigator.enumerateDevices nav 1); cbn in *; congruence. }
  apply forallb_unlabelled in Hall.
  destruct (Navigator.getUserMedia nav) as [tracks|e1] eqn:Hg; cbn [app fst snd].
  - repeat split; try (cbn; tauto); try discriminate.
    + exists devices. now split.
    + intros tracks' _ H. injection H as <-. now rewrite stopVideoStream_released.
    + intros [H|[e H]]; [|discriminate]. exfalso. apply H. cbn. tauto.
    + destruct (Navigator.enumerateDevices nav 1); cbn in *; congruence.
  - repeat split; try (cbn; tauto); try discriminate.
    + exists devices. now split.
    + intros _. repeat (constructor; [auto|]). constructor.
    + destruct (Navigator.enumerateDevices nav 1); cbn in *; congruence.
Qed.

(** X5. [hasCamera] never rejects and never asks for a stream, so it never
    makes the browser ask the user for the camera: it enumerates the devices
    at most once, and it answers [true] exactly when there are media
    devices, the enumeration succeeds and lists a device of kind
    ['videoinput']. *)
Theorem hasCamera_enumerates_only (nav : Navigator.t) :
  exists b,
    snd (hasCamera nav) = inl b
    /\ (b = true
        <-> Navigator.mediaDevices nav = true
            /\ exists devices,
                 Navigator.enumerateDevices nav 0 = inl devices
                 /\ videoInputs devices <> [])
    /\ (fst (hasCamera nav) = [] \/ fst (hasCamera nav) = [EnumerateDevicesCall]).
Proof.
  unfold hasCamera, listCameras, enumerateCameras.
  destruct (Navigator.mediaDevices nav); cbn [negb].
  2: { exists false. cbn. repeat split; auto; try discriminate. now intros (H & _). }
  cbn [app fst snd].
  destruct (Navigator.enumerateDevices nav 0) as [devices|e]; cbn [fst snd].
  - fold (videoInputs devices). eexists. split; [reflexivity|]. split; [|now right].
    rewrite length_imap. destruct (videoInputs devices) as [|d l] eqn:Hv; cbn.
    + split; [discriminate|]. intros (_ & l & H & Hl). injection H as <-.
      congruence.
    + split; [|reflexivity]. intros _. split; [reflexivity|].
      exists devices. split; [reflexivity|]. rewrite Hv. discriminate.
  - exists false. repeat split; auto; try discriminate.
    intros (_ & l & H & _). discriminate.
Qed.

(** ** Calls that run to their end *)

Lemma runTo_awaitCall {A} (m : M A) s answers t s1 out :
  runTo (m s) answers = Some (s1, out) ->
  runTo (awaitCall m s) (answers ++ [t]) = Some (s1, out).
Proof.
  intros H. unfold awaitCall. unfold mbind, M_bind, bind.
  rewrite (runTo_bindCo _ _ answers [t] s1 out).
  - unfold capture, await. cbn [captureCo bindCo]. rewrite runTo_Susp.
    destruct t, out; reflexivity.
  - unfold capture. now apply runTo_captureCo.
Qed.

Lemma asked_effects l : forall s,
  effects (asked l s) = (effects s ++ map GetUserMediaCall l)%list.
Proof.
  induction l as [|c l IH]; intros s; cbn.
  - now rewrite app_nil_r.
  - unfold asked in IH. rewrite IH. cbn. now rewrite <- app_assoc.
Qed.

Lemma asked_same l : forall s,
  this (asked l s) = this s /\ video (asked l s) = video s
  /\ streams (asked l s) = streams s /\ browser (asked l s) = browser s
  /\ canvases (asked l s) = canvases s /\ engines (asked l s) = engines s
  /\ listening (asked l s) = listening s
  /\ animationFrames (asked l s) = animationFrames s.
Proof.
  induction l as [|c l IH]; intros s; cbn; [repeat split|].
  unfold asked in IH. destruct (IH (log (GetUserMediaCall c) s)) as (?&?&?&?&?&?&?&?).
  repeat split; assumption.
Qed.

Lemma asked_app l1 l2 s : asked (l1 ++ l2) s = asked l2 (asked l1 s).
Proof. unfold asked. apply fold_left_app. Qed.

(** The loop of [_getCameraStream] when the first negotiations fail and
    the next one succeeds. *)
Lemma getCameraStreamLoop_runTo l : forall rejected tracks s,
  Forall refused rejected ->
  (length rejected < length l)%nat ->
  let k := length rejected in
  let s' := acquired tracks (asked (take (S k) l) s) in
  runTo (getCameraStreamLoop l s) (rejected ++ [Fulfilled (VTracks tracks)])
  = Some (s', inl (length (streams s), facingModeOf s' (length (streams s))
                                          (nth k l noConstraints))).
Proof.
  induction l as [|c l IH]; intros rejected tracks s Hr Hl; [cbn in Hl; lia|].
  destruct rejected as [|r rejected].
  - reflexivity.
  - inversion Hr as [|? ? Hr1 Hr2]; subst. cbn [length] in Hl.
    cbn [app]. change (getCameraStreamLoop (c :: l) s)
      with (Susp (log (GetUserMediaCall c) s) (GetUserMedia c)
              (fun r s' => resumeOn r s' (getCameraStreamLoop (c :: l) s))).
    rewrite runTo_Susp, getCameraStreamLoop_resumes. unfold refused in Hr1. rewrite Hr1.
    rewrite IH by (trivial; lia). cbn [length take nth].
    destruct (asked_same (take (S (length rejected)) l) (log (GetUserMediaCall c) s))
      as (_ & _ & Hs & _).
    reflexivity.
Qed.

(** The loop when every negotiation fails. *)
Lemma getCameraStreamLoop_runTo_none l : forall rejected s,
  Forall refused rejected ->
  length rejected = length l ->
  runTo (getCameraStreamLoop l s) rejected
  = Some (asked l s, inr (VStr "Camera not found.")).
Proof.
  induction l as [|c l IH]; intros rejected s Hr Hl.
  - destruct rejected; [reflexivity|discriminate].
  - destruct rejected as [|r rejected]; [discriminate|].
    inversion Hr as [|? ? Hr1 Hr2]; subst. cbn [length] in Hl.
    change (getCameraStreamLoop (c :: l) s)
      with (Susp (log (GetUserMediaCall c) s) (GetUserMedia c)
              (fun r s' => resumeOn r s' (getCameraStreamLoop (c :: l) s))).
    rewrite runTo_Susp, getCameraStreamLoop_resumes. unfold refused in Hr1. rewrite Hr1.
    rewrite IH by (trivial; lia). reflexivity.
Qed.

Lemma tiers_length camera : length (tiers camera) = 6%nat.
Proof. unfold tiers. now destruct (re_environment_or_user camera). Qed.

(** [_getCameraStream] on a page with media devices. *)
Lemma getCameraStream_runTo s rejected tracks :
  mediaDevices (browser s) = true ->
  Forall refused rejected ->
  (length rejected < 6)%nat ->
  let k := length rejected in
  let l := tiers (_preferredCamera (this s)) in
  let s' := acquired tracks (asked (take (S k) l) s) in
  runTo (_getCameraStream s) (rejected ++ [Fulfilled (VTracks tracks)])
  = Some (s', inl (length (streams s),
                   inferredSide (head tracks) (isSome (facingMode_exact (nth k l noConstraints)))
                     (_preferredCamera (this s)))).
Proof.
  intros Hm Hr Hl. cbv zeta. unfold _getCameraStream.
  unfold mbind, M_bind, bind, get. cbn [bindCo]. rewrite Hm. cbn [negb].
  rewrite tiers_spec.
  rewrite getCameraStreamLoop_runTo by (trivial; rewrite tiers_length; lia).
  cbv zeta. do 3 f_equal.
  destruct (asked_same (take (S (length rejected)) (tiers (_preferredCamera (this s)))) s)
    as (Ht & _ & Hs & _).
  rewrite (facingModeOf_inferredSide _ (streams s) tracks).
  - unfold acquired. cbn. now rewrite Ht.
  - unfold acquired. cbn. now rewrite Hs.
Qed.

Lemma getCameraStream_runTo_none s rejected :
  mediaDevices (browser s) = true ->
  Forall refused rejected ->
  length rejected = 6%nat ->
  runTo (_getCameraStream s) rejected
  = Some (asked (tiers (_preferredCamera (this s))) s, inr (VStr "Camera not found.")).
Proof.
  intros Hm Hr Hl. unfold _getCameraStream.
  unfold mbind, M_bind, bind, get. cbn [bindCo]. rewrite Hm. cbn [negb].
  rewrite tiers_spec.
  now rewrite getCameraStreamLoop_runTo_none by (trivial; rewrite tiers_length; lia).
Qed.

Lemma asked_this l s : this (asked l s) = this s.
Proof. apply asked_same. Qed.

Lemma asked_video l s : video (asked l s) = video s.
Proof. apply asked_same. Qed.

Lemma asked_streams l s : streams (asked l s) = streams s.
Proof. apply asked_same. Qed.

Lemma asked_browser l s : browser (asked l s) = browser s.
Proof. apply asked_same. Qed.

(** Running the code up to the next call of an [async] function, which is
    left as it is. *)
Ltac sync_with tac :=
  repeat (progress
    (cbv beta iota zeta delta [mbind mret M_bind M_ret bind ret get modify emit throw];
     cbn [bindCo captureCo negb andb orb isSome]; fields; tac)).

(** ** Starting *)

Lemma startable_guard s : startable s ->
  (_active (this s) && negb (_paused (this s))) || _destroyed (this s) = false.
Proof.
  intros ([H|H] & Hd & _); rewrite H, Hd; cbn; trivial.
  now destruct (_active (this s)).
Qed.

Lemma entered_fields s :
  _active (this (entered s)) = true /\ _paused (this (entered s)) = false
  /\ _flashOn (this (entered s)) = _flashOn (this s)
  /\ _preferredCamera (this (entered s)) = _preferredCamera (this s)
  /\ video (entered s) = video s /\ streams (entered s) = streams s
  /\ browser (entered s) = browser s
  /\ effects (entered s) = (effects s ++ httpsWarning s)%list.
Proof.
  unfold entered, httpsWarning. destruct (https (browser s)); cbn; repeat split.
  now rewrite app_nil_r.
Qed.

Lemma start_runTo_attached s rejected tracks t p
    (Hs : startable s) (Hm : mediaDevices (browser s) = true)
    (Hoff : _flashOn (this s) = false)
    (Hr : Forall refused rejected) (Hl : (length rejected < 6)%nat) :
  let k := length rejected in
  let l := tiers (_preferredCamera (this s)) in
  let side := inferredSide (head tracks) (isSome (facingMode_exact (nth k l noConstraints)))
                (_preferredCamera (this s)) in
  runTo (start s) (rejected ++ [Fulfilled (VTracks tracks); t; Fulfilled p])
  = Some (with_video (set_scaleX (if String.eqb side "user" then -1 else 1))
            (log VideoPlay
               (with_video (set_video_paused false)
                  (with_video (set_srcObject (SrcMediaStream (length (streams s))))
                     (acquired tracks (asked (take (S k) l) (entered s)))))),
          inl tt).
Proof.
  pose proof (startable_guard s Hs) as Hg.
  destruct (entered_fields s) as (Ea & Ep & Ef & Ec & Ev & Es & Eb & Ee).
  destruct Hs as (_ & Hd & Hv & Hn).
  assert (H1 : runTo (awaitCall _getCameraStream (entered s))
                 ((rejected ++ [Fulfilled (VTracks tracks)]) ++ [t])
               = Some (acquired tracks
                         (asked (take (S (length rejected))
                                   (tiers (_preferredCamera (this s)))) (entered s)),
                       inl (length (streams s),
                            inferredSide (head tracks)
                              (isSome (facingMode_exact
                                         (nth (length rejected)
                                            (tiers (_preferredCamera (this s)))
                                            noConstraints)))
                              (_preferredCamera (this s))))).
  { apply runTo_awaitCall.
    rewrite getCameraStream_runTo by (trivial; now rewrite Eb).
    cbv zeta. now rewrite Ec, Es. }
  cbv zeta.
  replace (rejected ++ [Fulfilled (VTracks tracks); t; Fulfilled p])%list
    with ((((rejected ++ [Fulfilled (VTracks tracks)]) ++ [t]) ++ [Fulfilled p]) ++ [])%list
    by (rewrite app_nil_r, <- !app_assoc; reflexivity).
  unfold start.
  assert (Hentered : entered s
            = with_this (set_paused false)
                (with_this (set_active true)
                   (if https (browser s) then s
                    else log (ConsoleWarn "The camera stream is only accessible if the page is transferred via https.") s)))
    by reflexivity.
  destruct (https (browser s)) eqn:Hh.
  all: sync_with ltac:(rewrite ?Hg, ?Hh, ?Hv, ?Hn).
  all: rewrite <- Hentered; unfold tryCatch, capture.
  all: sync_with idtac.
  all: erewrite runTo_bindCo;
    [|apply runTo_captureCo; erewrite runTo_bindCo by exact H1;
      unfold acquired, video_play, _setVideoMirror;
      sync_with ltac:(rewrite ?asked_this, ?Ea, ?Ep, ?Ef, ?Hoff, ?runTo_Susp);
      unfold await; cbn [bindCo]; rewrite runTo_Susp;
      sync_with ltac:(rewrite ?asked_this, ?Ea, ?Ep, ?Ef, ?Hoff, ?runTo_Susp);
      reflexivity];
    reflexivity.
Qed.

(** X6. [start] on a scanner that is not running, on a visible page and a
    video without a source: the scanner is marked active and not paused,
    the constraint sets are asked for in their order until one is granted,
    and when the stream is there and nothing has stopped the scanner in
    between, the stream is put on the video, the video is played, and, once
    it plays, mirrored exactly when the facing side inferred for the stream
    is ['user'].  Nothing but the warning about https, the requests and the
    call of [play] is done to the outside. *)
Theorem start_attaches_stream (s : State) (rejected : list Settled)
    (tracks : list MediaStreamTrack) (t : Settled) (p : Value)
    (Hs : startable s) (Hm : mediaDevices (browser s) = true)
    (Hoff : _flashOn (this s) = false)
    (Hr : Forall refused rejected) (Hl : (length rejected < 6)%nat) :
  let k := length rejected in
  let l := tiers (_preferredCamera (this s)) in
  let side := inferredSide (head tracks) (isSome (facingMode_exact (nth k l noConstraints)))
                (_preferredCamera (this s)) in
  exists s3,
    runTo (start s) (rejected ++ [Fulfilled (VTracks tracks); t; Fulfilled p])
    = Some (s3, inl tt)
    /\ Video.srcObject (video s3) = SrcMediaStream (length (streams s))
    /\ streams s3 = (streams s ++ [mkStream tracks []])%list
    /\ Video.paused (video s3) = false
    /\ Video.scaleX (video s3) = (if String.eqb side "user" then -1 else 1)
    /\ _active (this s3) = true /\ _paused (this s3) = false
    /\ effects s3
       = (effects s ++ httpsWarning s ++ map GetUserMediaCall (take (S k) l)
          ++ [VideoPlay])%list.
Proof.
  cbv zeta. eexists. split; [now apply start_runTo_attached|].
  destruct (entered_fields s) as (Ea & Ep & Ef & Ec & Ev & Es & Eb & Ee).
  unfold acquired. fields. rewrite asked_streams, asked_this, asked_effects, Es, Ea, Ep, Ee.
  repeat split. now rewrite <- !app_assoc.
Qed.

Lemma start_attaches_stream_witness :
  exists s3,
    runTo (start (now newScanner))
      ([Rejected (VError "OverconstrainedError"); Rejected (VError "OverconstrainedError")]
       ++ [Fulfilled (VTracks rearCamera); tick; Fulfilled VUndefined])
    = Some (s3, inl tt)
    /\ Video.srcObject (video s3) = SrcMediaStream 0.
Proof.
  destruct (start_attaches_stream (now newScanner)
              [Rejected (VError "OverconstrainedError");
               Rejected (VError "OverconstrainedError")]
              rearCamera tick VUndefined) as (s3 & H & Hsrc & _).
  - repeat split; auto.
  - reflexivity.
  - reflexivity.
  - repeat constructor.
  - simpl. lia.
  - exists s3. split; assumption.
Defined.

Lemma start_runTo_not_found s rejected t
    (Hs : startable s)
    (Hr : if mediaDevices (browser s)
          then Forall refused rejected /\ length rejected = 6%nat
          else rejected = []) :
  runTo (start s) (rejected ++ [t])
  = Some (with_this (set_active false)
            (if mediaDevices (browser s)
             then asked (tiers (_preferredCamera (this s))) (entered s)
             else entered s),
          inr (VStr "Camera not found.")).
Proof.
  pose proof (startable_guard s Hs) as Hg.
  destruct (entered_fields s) as (Ea & Ep & Ef & Ec & Ev & Es & Eb & Ee).
  destruct Hs as (_ & Hd & Hv & Hn).
  assert (H1 : runTo (awaitCall _getCameraStream (entered s)) (rejected ++ [t])
               = Some (if mediaDevices (browser s)
                       then asked (tiers (_preferredCamera (this s))) (entered s)
                       else entered s,
                       inr (VStr "Camera not found."))).
  { apply runTo_awaitCall. destruct (mediaDevices (browser s)) eqn:Hm.
    - destruct Hr as [Hr Hl].
      rewrite getCameraStream_runTo_none by (trivial; now rewrite Eb). now rewrite Ec.
    - subst rejected. unfold _getCameraStream, mbind, M_bind, bind, get. cbn [bindCo].
      now rewrite Eb, Hm. }
  rewrite <- (app_nil_r (rejected ++ [t])).
  unfold start.
  assert (Hentered : entered s
            = with_this (set_paused false)
                (with_this (set_active true)
                   (if https (browser s) then s
                    else log (ConsoleWarn "The camera stream is only accessible if the page is transferred via https.") s)))
    by reflexivity.
  destruct (https (browser s)) eqn:Hh.
  all: sync_with ltac:(rewrite ?Hg, ?Hh, ?Hv, ?Hn).
  all: rewrite <- Hentered; unfold tryCatch, capture.
  all: sync_with idtac.
  all: erewrite runTo_bindCo;
    [|apply runTo_captureCo; erewrite runTo_bindCo_exn by exact H1; reflexivity].
  all: sync_with idtac.
  all: destruct (mediaDevices (browser s)); rewrite ?asked_this, Ep; reflexivity.
Qed.

(** X7. [start] when no camera can be had: on a page without media
    devices, or when all six constraint sets are refused, the promise of
    [start] is rejected with ['Camera not found.'], the scanner is not
    active any more and not paused, the video has no source and no stream
    exists that did not exist before. *)
Theorem start_fails_without_camera (s : State) (rejected : list Settled) (t : Settled)
    (Hs : startable s)
    (Hr : if mediaDevices (browser s)
          then Forall refused rejected /\ length rejected = 6%nat
          else rejected = []) :
  exists s',
    runTo (start s) (rejected ++ [t]) = Some (s', inr (VStr "Camera not found."))
    /\ _active (this s') = false /\ _paused (this s') = false
    /\ Video.srcObject (video s') = SrcNull
    /\ streams s' = streams s
    /\ effects s'
       = (effects s ++ httpsWarning s
          ++ if mediaDevices (browser s)
             then map GetUserMediaCall (tiers (_preferredCamera (this s)))
             else [])%list.
Proof.
  eexists. split; [now apply start_runTo_not_found|].
  destruct (entered_fields s) as (Ea & Ep & Ef & Ec & Ev & Es & Eb & Ee).
  destruct Hs as (_ & Hd & Hv & Hn).
  destruct (mediaDevices (browser s)); fields;
    rewrite ?asked_streams, ?asked_this, ?asked_effects, ?asked_video, Es, Ep, Ee, Ev, Hn.
  - repeat split. now rewrite <- !app_assoc.
  - repeat split. now rewrite app_nil_r.
Qed.

Lemma start_fails_without_camera_witness :
  exists s',
    runTo (start (now newScanner))
      (repeat (Rejected (VError "NotAllowedError")) 6 ++ [tick])
    = Some (s', inr (VStr "Camera not found."))
    /\ _active (this s') = false.
Proof.
  destruct (start_fails_without_camera (now newScanner)
              (repeat (Rejected (VError "NotAllowedError")) 6) tick)
    as (s' & H & Ha & _).
  - repeat split; auto.
  - simpl. split; [repeat constructor|reflexivity].
  - exists s'. split; assumption.
Defined.

(** ** Asking for the flash *)

Lemma NeverRejects_capture_bind {A B} (c : Co A) (f : A + Value -> M B) :
  (forall r s, NeverRejects (f r s)) ->
  NeverRejects (bindCo (captureCo c) f).
Proof.
  intros Hf. induction c as [s a|s e|s w k IH|w k rest IH]; cbn; auto.
  - now constructor.
  - now constructor.
Qed.

Lemma NeverRejects_runTo {A} (c : Co A) : NeverRejects c ->
  forall answers s' e, runTo c answers <> Some (s', inr e).
Proof.
  induction 1 as [s a|s w k _ IH|w k rest _ IH]; intros answers s' e; cbn.
  - destruct answers; discriminate.
  - destruct answers; [discriminate|]. apply IH.
  - apply IH.
Qed.

Lemma NeverRejects_resumeOn {A} (c : Co A) r s' :
  NeverRejects c -> NeverRejects (resumeOn r s' c).
Proof.
  induction 1 as [s a|s w k H IH|w k rest H IH]; cbn.
  - constructor.
  - apply H.
  - now constructor.
Qed.

(** X8. [hasFlash] never rejects: whatever the video has as its source,
    however the requests for a camera are answered and whatever happens to
    the scanner while it waits, its promise is fulfilled, with [false] in
    place of an error. *)
Theorem hasFlash_never_rejects (s : State) :
  NeverRejects (hasFlash s)
  /\ (forall r s', NeverRejects (resumeOn r s' (hasFlash s)))
  /\ (forall answers s' e, runTo (hasFlash s) answers <> Some (s', inr e)).
Proof.
  assert (H : NeverRejects (hasFlash s)).
  { unfold hasFlash. unfold mbind at 1, M_bind at 1, bind at 1, get. cbn [bindCo].
    destruct (Video.srcObject (video s)).
    - unfold mbind, M_bind, bind, capture. apply NeverRejects_capture_bind.
      intros [[stream facingMode]|e] s1; [|constructor].
      apply NeverRejects_capture_bind. intros r s2.
      unfold get, emit, modify, stopVideoStream, ret. cbn [bindCo].
      destruct (negb (srcObject_is s2 stream)); cbn [bindCo]; constructor.
    - unfold mbind, M_bind, bind, capture. apply NeverRejects_capture_bind.
      intros r s1. constructor.
    - constructor. }
  split; [exact H|]. split.
  - intros r s'. now apply NeverRejects_resumeOn.
  - now apply NeverRejects_runTo.
Qed.

Lemma torchInSettings_new_stream s l tracks :
  streams s = (l ++ [mkStream tracks []])%list ->
  captureCo (torchInSettings (length l) s)
  = Ret s (match head tracks with
           | Some track => inl (torch track)
           | None => inr TypeError
           end).
Proof.
  intros H. unfold torchInSettings, firstVideoTrack, mbind, M_bind, bind, get.
  cbn [bindCo]. rewrite H, list_lookup_middle by reflexivity. cbn [getTracks].
  now destruct (head tracks).
Qed.

Lemma hasFlash_runTo_probe s rejected tracks t
    (Hn : Video.srcObject (video s) = SrcNull)
    (Hm : mediaDevices (browser s) = true)
    (Hr : Forall refused rejected) (Hl : (length rejected < 6)%nat) :
  runTo (hasFlash s) (rejected ++ [Fulfilled (VTracks tracks); t])
  = Some (with_streams (alter _stopVideoStream (length (streams s)))
            (log (ConsoleWarn "Call hasFlash after successfully starting the scanner to avoid creating a temporary video stream")
               (acquired tracks
                  (asked (take (S (length rejected)) (tiers (_preferredCamera (this s)))) s))),
          inl (torchOf tracks)).
Proof.
  assert (H1 := runTo_awaitCall _getCameraStream s _ t _ _
                  (getCameraStream_runTo s rejected tracks Hm Hr Hl)).
  cbv zeta in H1.
  replace (rejected ++ [Fulfilled (VTracks tracks); t])%list
    with (((rejected ++ [Fulfilled (VTracks tracks)]) ++ [t]) ++ [])%list
    by (rewrite app_nil_r, <- !app_assoc; reflexivity).
  unfold hasFlash. unfold mbind at 1, M_bind at 1, bind at 1, get. cbn [bindCo].
  rewrite Hn. unfold mbind at 1, M_bind at 1, bind at 1, capture at 1.
  erewrite runTo_bindCo by (apply runTo_captureCo; exact H1).
  cbv beta iota. unfold mbind at 1, M_bind at 1, bind at 1, capture at 1.
  rewrite (torchInSettings_new_stream _ (streams s) tracks)
    by (unfold acquired; cbn; now rewrite asked_streams).
  cbn [bindCo]. unfold srcObject_is, acquired, stopVideoStream, torchOf.
  sync_with ltac:(rewrite ?asked_video, ?Hn).
  now destruct (head tracks).
Qed.

(** X9. [hasFlash] on a scanner whose video has no source opens a stream
    of its own to look at: it asks for the constraint sets in their order
    until one is granted, answers whether the first track of that stream
    has a torch setting, [false] if the stream has no track, and before it
    answers it logs a warning and stops and takes out every track of the
    stream.  The scanner and its video are left as they were. *)
Theorem hasFlash_releases_its_stream (s : State) (rejected : list Settled)
    (tracks : list MediaStreamTrack) (t : Settled)
    (Hn : Video.srcObject (video s) = SrcNull)
    (Hm : mediaDevices (browser s) = true)
    (Hr : Forall refused rejected) (Hl : (length rejected < 6)%nat) :
  exists s',
    runTo (hasFlash s) (rejected ++ [Fulfilled (VTracks tracks); t])
    = Some (s', inl (torchOf tracks))
    /\ streams s' = (streams s ++ [releasedStream (mkStream tracks [])])%list
    /\ this s' = this s /\ video s' = video s
    /\ effects s'
       = (effects s
          ++ map GetUserMediaCall
               (take (S (length rejected)) (tiers (_preferredCamera (this s))))
          ++ [ConsoleWarn "Call hasFlash after successfully starting the scanner to avoid creating a temporary video stream"])%list.
Proof.
  eexists. split; [now apply hasFlash_runTo_probe|].
  unfold acquired. fields. rewrite asked_streams, asked_this, asked_video, asked_effects.
  repeat split.
  - rewrite <- (Nat.add_0_r (length (streams s))), alter_app_r.
    unfold alter, list_alter. now rewrite stopVideoStream_released.
  - now rewrite <- app_assoc.
Qed.

Lemma hasFlash_releases_its_stream_witness :
  exists s',
    runTo (hasFlash (now newScanner))
      ([Rejected (VError "OverconstrainedError")] ++ [Fulfilled (VTracks rearCamera); tick])
    = Some (s', inl true)
    /\ streams s' = [mkStream [] [mkTrack "camera2 0, facing back" true true false]].
Proof.
  destruct (hasFlash_releases_its_stream (now newScanner)
              [Rejected (VError "OverconstrainedError")] rearCamera tick)
    as (s' & H & Hs & _).
  - reflexivity.
  - reflexivity.
  - repeat constructor.
  - simpl. lia.
  - exists s'. split; assumption.
Defined.

(** ** Symbolic evaluation of the machine *)

Lemma run_cons mc i l : run mc (i :: l) = run (step mc i) l.
Proof. reflexivity. Qed.

Lemma run_nil mc : run mc [] = mc.
Proof. reflexivity. Qed.

Ltac machine_with tac :=
  repeat (progress
    (cbv beta iota zeta delta [step invoke call alone];
     cbn [absorb forget now waiting app lookup list_lookup delete list_delete];
     monad_args; fields; tac)).

(** One input at a time, the machine being evaluated before the next. *)
Ltac step_with tac :=
  rewrite run_cons;
  match goal with
  | |- context [run (step ?mc ?i) ?l] =>
      let mc1 := fresh "mc" in
      let E := fresh "E" in
      evar (mc1 : Machine);
      assert (E : step mc i = mc1) by (machine_with tac; subst mc1; reflexivity);
      rewrite E; clear E; subst mc1
  end.

Ltac steps_with tac := repeat step_with tac; rewrite ?run_nil.

(** The same for an answer that is not known, when the machine goes on in
    the same way whatever the answer is. *)
Ltac step_any_with tac :=
  rewrite run_cons;
  match goal with
  | |- context [run (step ?mc (Settle ?i ?r)) ?l] =>
      let mc1 := fresh "mc" in
      let E := fresh "E" in
      evar (mc1 : Machine);
      assert (E : step mc (Settle i r) = mc1)
        by (try (is_var r; destruct r); machine_with tac; subst mc1; reflexivity);
      rewrite E; clear E; subst mc1
  end.

Ltac steps_any_with tac := repeat step_any_with tac; rewrite ?run_nil.

(** ** Destroying *)

Lemma run_app mc l1 l2 : run (run mc l1) l2 = run mc (l1 ++ l2).
Proof. unfold run. now rewrite fold_left_app. Qed.

(** X10. [destroy] on a running scanner lets go of the camera and of the
    engine.  At once the listeners are off, the scanner is destroyed,
    inactive and paused and the video is paused; what is left waiting is
    the timer of [pause] and the message to the engine.  Once both are
    through, in either order, the stream is off the video with every track
    stopped and taken out, ['close'] was posted to the engine if it is a
    worker, and nothing waits any more. *)
Theorem destroy_releases_camera_and_engine (s : State) (id : nat) (stream : MediaStream)
    (Hactive : _active (this s) = true)
    (Hsrc : Video.srcObject (video s) = SrcMediaStream id)
    (Hstream : streams s !! id = Some stream) :
  let mc := run (alone s) [Calls Destroy] in
  awaited mc = [SetTimeout 300; Microtask]
  /\ listening (now mc) = false
  /\ Destroyed (now mc)
  /\ Video.paused (video (now mc)) = true
  /\ forall t1 t2,
       let final := run mc [Settle 0 t1; Settle 0 t2] in
       now (run mc [Settle 1 t2; Settle 0 t1]) = now final
       /\ awaited final = []
       /\ awaited (run mc [Settle 1 t2; Settle 0 t1]) = []
       /\ Video.srcObject (video (now final)) = SrcNull
       /\ streams (now final) !! id = Some (releasedStream stream)
       /\ effects (now final)
          = (effects s ++ [VideoPause] ++ closing (_qrEnginePromise (this s)))%list
       /\ listening (now final) = false
       /\ Destroyed (now final).
Proof.
  cbv zeta. split; [|split; [|split; [|split]]].
  1-4: steps_with ltac:(try unfold destroy, stop, pause, video_pause, _postWorkerMessage;
                        rewrite ?Hactive).
  1-4: cbn [awaited map fst now waiting]; fields; unfold Destroyed;
       repeat split; fields; reflexivity.
  intros t1 t2. rewrite !run_app. cbn [app].
  set (paused := with_this (set_active false)
                   (log VideoPause
                      (with_video (set_video_paused true)
                         (with_this (set_paused true)
                            (with_this (set_flashOn false)
                               (with_this (set_destroyed true)
                                  (set_listening false s))))))).
  assert (Hpsrc : Video.srcObject (video paused) = SrcMediaStream id) by exact Hsrc.
  assert (Hpst : streams paused !! id = Some stream) by exact Hstream.
  destruct (stopStream_releases paused id stream Hpsrc Hpst) as (R1 & R2 & R3 & R4).
  assert (Hboth :
    now (run (alone s) [Calls Destroy; Settle 0 t1; Settle 0 t2])
    = fold_right log (afterStopStream paused) (closing (_qrEnginePromise (this s)))
    /\ waiting (run (alone s) [Calls Destroy; Settle 0 t1; Settle 0 t2]) = []
    /\ now (run (alone s) [Calls Destroy; Settle 1 t2; Settle 0 t1])
       = fold_right log (afterStopStream paused) (closing (_qrEnginePromise (this s)))
    /\ waiting (run (alone s) [Calls Destroy; Settle 1 t2; Settle 0 t1]) = []).
  { destruct (_qrEnginePromise (this s)) eqn:He; destruct t1, t2.
    all: repeat split.
    all: steps_with ltac:(try unfold destroy, stop, pause, video_pause, _postWorkerMessage;
                          rewrite ?Hactive, ?He, ?stopStream_returns).
    all: cbn [now waiting closing fold_right]; fold paused.
    all: try reflexivity.
    all: rewrite !(afterStopStream_eq _ id) by exact Hsrc; reflexivity. }
  destruct Hboth as (HA & HAw & HB & HBw).
  unfold awaited. rewrite HA, HAw, HB, HBw. cbn [map].
  rewrite (afterStopStream_eq _ id) by exact Hsrc. subst paused.
  unfold Destroyed.
  destruct (_qrEnginePromise (this s)); cbn [closing fold_right]; fields;
    rewrite list_lookup_alter_eq, Hstream, ?app_nil_r, <- ?app_assoc;
    cbn [fmap option_fmap option_map]; rewrite stopVideoStream_released;
    repeat split.
Qed.

Lemma destroy_releases_camera_and_engine_witness :
  awaited (run (alone playing) [Calls Destroy]) = [SetTimeout 300; Microtask].
Proof.
  exact (proj1 (destroy_releases_camera_and_engine playing 0 (mkStream rearCamera [])
                  eq_refl eq_refl eq_refl)).
Defined.

(** ** The flash and [start] *)

Ltac start_and_flash Hg Hh Hv Hn Hd Hm Hon Htiers Htorch :=
  steps_with ltac:(try unfold start, _getCameraStream, getUserMedia, video_play,
                     _setVideoMirror, turnFlashOn, hasFlash, torchInSettings,
                     applyTorch, firstVideoTrack, stopVideoStream;
                   rewrite ?Hg, ?Hh, ?Hv, ?Hn, ?Hd, ?Hm, ?Hon, ?Htiers, ?Htorch,
                     ?(list_lookup_middle _ _ _ _ eq_refl);
                   cbn [getCameraStreamLoop getTracks head]).

(** X11. The flash asked for before the scanner runs is lit by [start].
    On a scanner whose flash flag is set, [start] attaches the stream it
    gets, plays it, and then runs [turnFlashOn] without waiting for it: if
    the first track of the stream has a torch, the torch constraint is
    applied to it, and the flag stays set if that succeeds and is cleared if
    it fails; if the stream has no torch, the flag is cleared.  The stream
    stays on the video in every case. *)
Theorem start_lights_requested_flash (s : State) (tracks : list MediaStreamTrack)
    (t : Settled) (p : Value)
    (Hs : startable s) (Hm : mediaDevices (browser s) = true)
    (Hon : _flashOn (this s) = true) :
  let id := length (streams s) in
  let mc := run (alone s)
              [Calls Start; Settle 0 (Fulfilled (VTracks tracks)); Settle 0 t;
               Settle 0 (Fulfilled p)] in
  Video.srcObject (video (now mc)) = SrcMediaStream id
  /\ streams (now mc) = (streams s ++ [mkStream tracks []])%list
  /\ _flashOn (this (now mc)) = true
  /\ awaited mc = [Microtask]
  /\ forall t2,
       if torchOf tracks then
         awaited (run mc [Settle 0 t2]) = [ApplyConstraints id]
         /\ forall a,
              let final := run mc [Settle 0 t2; Settle 0 a] in
              awaited final = []
              /\ Video.srcObject (video (now final)) = SrcMediaStream id
              /\ match a with
                 | Fulfilled _ =>
                     _flashOn (this (now final)) = true
                     /\ streams (now final)
                        = (streams s ++ [lightFirstTrack (mkStream tracks [])])%list
                 | Rejected _ =>
                     _flashOn (this (now final)) = false
                     /\ streams (now final) = (streams s ++ [mkStream tracks []])%list
                 end
       else
         let final := run mc [Settle 0 t2] in
         awaited final = []
         /\ Video.srcObject (video (now final)) = SrcMediaStream id
         /\ _flashOn (this (now final)) = false
         /\ streams (now final) = (streams s ++ [mkStream tracks []])%list.
Proof.
  pose proof (startable_guard s Hs) as Hg.
  destruct Hs as (_ & Hd & Hv & Hn).
  destruct (firstTier (_preferredCamera (this s))) as [more Htiers].
  cbv zeta. unfold torchOf.
  destruct tracks as [|track rest]; cbn [head]; [|destruct (torch track) eqn:Htorch].
  all: destruct (https (browser s)) eqn:Hh; destruct t.
  all: match goal with
       | |- context [run (alone ?s0) ?l] =>
           let mc4 := fresh "mc" in
           let E4 := fresh "E" in
           evar (mc4 : Machine);
           assert (E4 : run (alone s0) l = mc4)
             by (first [start_and_flash Hg Hh Hv Hn Hd Hm Hon Htiers Htorch
                       |start_and_flash Hg Hh Hv Hn Hd Hm Hon Htiers Hon];
                 subst mc4; reflexivity);
           rewrite !E4; clear E4; subst mc4
       end.
  all: split; [|split; [|split; [|split]]].
  all: try (intros t2; destruct t2; try split; try (intros a; destruct a)).
  all: first [start_and_flash Hg Hh Hv Hn Hd Hm Hon Htiers Htorch
             |start_and_flash Hg Hh Hv Hn Hd Hm Hon Htiers Hon
             |idtac].
  all: cbn [awaited map fst now waiting]; fields; repeat split.
  all: rewrite <- (Nat.add_0_r (length (streams s))), alter_app_r; reflexivity.
Qed.

Lemma start_lights_requested_flash_witness :
  awaited (run (alone (with_this (set_flashOn true) (now newScanner)))
             [Calls Start; Settle 0 (Fulfilled (VTracks rearCamera)); Settle 0 tick;
              Settle 0 (Fulfilled VUndefined)])
  = [Microtask].
Proof.
  refine (proj1 (proj2 (proj2 (proj2
            (start_lights_requested_flash (with_this (set_flashOn true) (now newScanner))
               rearCamera tick VUndefined _ eq_refl eq_refl))))).
  repeat split; auto.
Defined.

(** ** The page is hidden and shown *)

Ltac visibility Ha Hp Hd Hl Hsrc Hh Hm Htiers :=
  steps_with ltac:(try unfold _onVisibilityChange, pause, start, video_pause, video_play,
                     _getCameraStream, getUserMedia;
                   rewrite ?Ha, ?Hp, ?Hd, ?Hl, ?Hsrc, ?Hh, ?Hm, ?Htiers, ?stopStream_returns;
                   cbn [getCameraStreamLoop]).

(** X12. The page is hidden while the scanner plays and no earlier
    [pause] waits for its timer: the scanner is paused and the video with
    it, the stream staying on the video while the call waits 300ms.  If the
    page is shown again within that time, the video is played again on the
    same stream and no camera is asked for, and when the 300ms are over with
    the scanner still playing, the stream is left alone.  If the page is
    shown and hidden again within that time, the timer of the first hiding
    finds the scanner paused and takes the stream off the video with its
    tracks stopped, while the timer of the second hiding still runs.  If
    the 300ms pass with the page hidden, the stream is taken off the video
    with its tracks stopped, and the page being shown again makes the
    scanner ask for a camera anew. *)
Theorem hidden_page_pauses_and_resumes (s : State) (id : nat) (stream : MediaStream)
    (Hs : playingStream s id stream) (Hm : mediaDevices (browser s) = true) :
  let away := run (alone s) [VisibilityChange true] in
  awaited away = [SetTimeout 300]
  /\ _paused (this (now away)) = true /\ _active (this (now away)) = true
  /\ Video.paused (video (now away)) = true
  /\ Video.srcObject (video (now away)) = SrcMediaStream id
  /\ (forall t p,
        let back := run away [VisibilityChange false; Settle 0 t; Settle 0 p] in
        awaited back = []
        /\ _paused (this (now back)) = false /\ _active (this (now back)) = true
        /\ Video.paused (video (now back)) = false
        /\ Video.srcObject (video (now back)) = SrcMediaStream id
        /\ streams (now back) = streams s
        /\ effects (now back)
           = (effects s ++ [VideoPause] ++ httpsWarning s ++ [VideoPlay])%list)
  /\ (forall t,
        let gone := run away [Settle 0 t] in
        awaited gone = []
        /\ Video.srcObject (video (now gone)) = SrcNull
        /\ streams (now gone) !! id = Some (releasedStream stream)
        /\ awaited (run gone [VisibilityChange false])
           = [GetUserMedia (nth 0 (tiers (_preferredCamera (this s))) noConstraints)])
  /\ (forall t,
        let awayAgain := run away [VisibilityChange false; VisibilityChange true] in
        let elapsed := run awayAgain [Settle 0 t] in
        awaited awayAgain = [SetTimeout 300; Play; SetTimeout 300]
        /\ Video.srcObject (video (now awayAgain)) = SrcMediaStream id
        /\ awaited elapsed = [Play; SetTimeout 300]
        /\ Video.srcObject (video (now elapsed)) = SrcNull
        /\ streams (now elapsed) !! id = Some (releasedStream stream)).
Proof.
  destruct Hs as (Hl & Ha & Hp & Hd & Hsrc & Hst).
  destruct (firstTier (_preferredCamera (this s))) as [more Htiers].
  cbv zeta.
  match goal with
  | |- context [run (alone ?s0) ?l] =>
      let mc1 := fresh "mc" in
      let E1 := fresh "E" in
      evar (mc1 : Machine);
      assert (E1 : run (alone s0) l = mc1)
        by (visibility Ha Hp Hd Hl Hsrc Hl Hm Htiers; subst mc1; reflexivity);
      rewrite !E1; clear E1; subst mc1
  end.
  split; [|split; [|split; [|split; [|split; [|split; [|split]]]]]].
  1-5: cbn [awaited map fst now waiting]; fields; rewrite ?Ha, ?Hsrc; reflexivity.
  - intros t p. unfold httpsWarning.
    destruct (https (browser s)) eqn:Hh; destruct t, p.
    all: visibility Ha Hp Hd Hl Hsrc Hh Hm Htiers.
    all: cbn [awaited map fst now waiting]; fields; rewrite ?Ha, ?Hsrc; repeat split.
    all: rewrite <- ?app_assoc; reflexivity.
  - intros t. destruct t.
    all: match goal with
         | |- context [run ?mc [Settle 0 ?r]] =>
             let mc1 := fresh "mc" in
             let E1 := fresh "E" in
             evar (mc1 : Machine);
             assert (E1 : run mc [Settle 0 r] = mc1)
               by (visibility Ha Hp Hd Hl Hsrc Hl Hm Htiers; subst mc1; reflexivity);
             rewrite !E1; clear E1; subst mc1
         end.
    all: rewrite (afterStopStream_eq _ id) by exact Hsrc.
    all: split; [|split; [|split]].
    all: try (cbn [awaited map fst now waiting]; fields; rewrite ?Ha, ?Hsrc; reflexivity).
    all: try (cbn [awaited map fst now waiting]; fields;
              rewrite list_lookup_alter_eq, Hst; cbn [fmap option_fmap option_map];
              now rewrite stopVideoStream_released).
    all: destruct (https (browser s)) eqn:Hh.
    all: visibility Ha Hp Hd Hl Hsrc Hh Hm Htiers.
    all: cbn [awaited map fst now waiting]; fields; rewrite ?Ha, ?Hsrc; reflexivity.
  - intros t.
    destruct (https (browser s)) eqn:Hh.
    all: match goal with
         | |- context [run ?mc [VisibilityChange false; VisibilityChange true]] =>
             let mc1 := fresh "mc" in
             let E1 := fresh "E" in
             evar (mc1 : Machine);
             assert (E1 : run mc [VisibilityChange false; VisibilityChange true] = mc1)
               by (visibility Ha Hp Hd Hl Hsrc Hh Hm Htiers; subst mc1; reflexivity);
             rewrite !E1; clear E1; subst mc1
         end.
    all: destruct t.
    all: match goal with
         | |- context [run ?mc [Settle 0 ?r]] =>
             let mc1 := fresh "mc" in
             let E1 := fresh "E" in
             evar (mc1 : Machine);
             assert (E1 : run mc [Settle 0 r] = mc1)
               by (visibility Ha Hp Hd Hl Hsrc Hl Hm Htiers; subst mc1; reflexivity);
             rewrite !E1; clear E1; subst mc1
         end.
    all: rewrite (afterStopStream_eq _ id) by exact Hsrc.
    all: split; [|split; [|split; [|split]]].
    all: try (cbn [awaited map fst now waiting]; fields; rewrite ?Ha, ?Hsrc; reflexivity).
    all: try (cbn [awaited map fst now waiting]; fields;
              rewrite list_lookup_alter_eq, Hst; cbn [fmap option_fmap option_map];
              now rewrite stopVideoStream_released).
Qed.

Lemma hidden_page_pauses_and_resumes_witness :
  let away := run (alone playing) [VisibilityChange true] in
  let awayAgain := run away [VisibilityChange false; VisibilityChange true] in
  let elapsed := run awayAgain [Settle 0 tick] in
  awaited awayAgain = [SetTimeout 300; Play; SetTimeout 300]
  /\ Video.srcObject (video (now awayAgain)) = SrcMediaStream 0
  /\ awaited elapsed = [Play; SetTimeout 300]
  /\ Video.srcObject (video (now elapsed)) = SrcNull
  /\ streams (now elapsed) !! 0%nat = Some (releasedStream (mkStream rearCamera [])).
Proof.
  refine (proj2 (proj2 (proj2 (proj2 (proj2 (proj2 (proj2
            (hidden_page_pauses_and_resumes playing 0 (mkStream rearCamera []) _ eq_refl)))))))
            tick).
  repeat split.
Defined.

(** X13. The page becomes visible with the scanner paused and no stream
    on the video, whether the page or a call of [pause()] has paused it.  A
    scanner that is active is started: it is marked as not paused and asks
    for a camera.  A scanner that is not active is left as it is. *)
Theorem visible_page_starts_paused_scanner (s : State)
    (Hl : listening s = true) (Hd : _destroyed (this s) = false)
    (Hp : _paused (this s) = true)
    (Hn : Video.srcObject (video s) = SrcNull)
    (Hm : mediaDevices (browser s) = true) :
  let mc := run (alone s) [VisibilityChange false] in
  if _active (this s) then
    awaited mc = [GetUserMedia (nth 0 (tiers (_preferredCamera (this s))) noConstraints)]
    /\ _paused (this (now mc)) = false /\ _active (this (now mc)) = true
    /\ effects (now mc)
       = (effects s ++ httpsWarning s
          ++ [GetUserMediaCall (nth 0 (tiers (_preferredCamera (this s))) noConstraints)])%list
  else
    mc = alone (with_browser (set_hidden false) s).
Proof.
  destruct (firstTier (_preferredCamera (this s))) as [more Htiers].
  cbv zeta. unfold httpsWarning.
  destruct (_active (this s)) eqn:Ha.
  - destruct (https (browser s)) eqn:Hh.
    all: visibility Ha Hp Hd Hl Hn Hh Hm Htiers.
    all: cbn [awaited map fst now waiting]; fields; repeat split.
    now rewrite <- app_assoc.
  - visibility Ha Ha Hd Hl Hn Hl Hm Htiers. reflexivity.
Qed.

Lemma visible_page_starts_paused_scanner_witness :
  let mc := run (alone pausedScanner) [VisibilityChange false] in
  awaited mc = [GetUserMedia (mkConstraints (Some 1024) (Some "environment") None)]
  /\ _paused (this (now mc)) = false /\ _active (this (now mc)) = true
  /\ effects (now mc)
     = (effects pausedScanner
        ++ [GetUserMediaCall (mkConstraints (Some 1024) (Some "environment") None)])%list.
Proof.
  exact (visible_page_starts_paused_scanner pausedScanner
           eq_refl eq_refl eq_refl eq_refl eq_refl).
Defined.

(** ** Restarting the stream *)

Lemma pause_runTo_at_once s id
    (Ha : _active (this s) = true)
    (Hsrc : Video.srcObject (video s) = SrcMediaStream id) :
  runTo (pause true s) [] = Some (pausedAtOnce id s, inl true).
Proof.
  unfold pause, video_pause. sync_with ltac:(rewrite ?Ha).
  rewrite stopStream_returns. cbn [bindCo runTo].
  now rewrite (afterStopStream_eq _ id) by exact Hsrc.
Qed.

Lemma pausedAtOnce_startable s id :
  _destroyed (this s) = false -> hidden (browser s) = false ->
  startable (pausedAtOnce id s).
Proof. intros Hd Hv. repeat split; auto. Qed.

Lemma restartVideoStream_runTo s id rejected tracks t1 t2 p t3
    (Ha : _active (this s) = true) (Hp : _paused (this s) = false)
    (Hd : _destroyed (this s) = false) (Hv : hidden (browser s) = false)
    (Hsrc : Video.srcObject (video s) = SrcMediaStream id)
    (Hm : mediaDevices (browser s) = true)
    (Hoff : _flashOn (this s) = false)
    (Hr : Forall refused rejected) (Hl : (length rejected < 6)%nat) :
  runTo (_restartVideoStream s)
    ([t1] ++ (rejected ++ [Fulfilled (VTracks tracks); t2; Fulfilled p]) ++ [t3])
  = Some (attached (length rejected) tracks (pausedAtOnce id s), inl tt).
Proof.
  unfold _restartVideoStream.
  unfold mbind at 1, M_bind at 1, bind at 1, get. cbn [bindCo]. cbv zeta.
  unfold mbind at 1, M_bind at 1, bind at 1.
  rewrite (runTo_bindCo _ _ [t1] _ (pausedAtOnce id s) true).
  2: { apply (runTo_awaitCall (pause true) s [] t1). now apply pause_runTo_at_once. }
  sync_with ltac:(rewrite ?Hp, ?Ha).
  change (_active (this (pausedAtOnce id s))) with (_active (this s)). rewrite Ha.
  cbn [negb]. apply runTo_awaitCall.
  apply (start_runTo_attached (pausedAtOnce id s)); trivial.
  now apply pausedAtOnce_startable.
Qed.

(** X14. [setCamera] with the camera that is preferred already does
    nothing.  With another camera on a scanner that plays a stream, the
    preference is stored, the video is paused and the stream taken off it
    with its tracks stopped, before anything is waited for; then the scanner
    starts again: the constraint sets of the new camera are asked for in
    their order, and the stream that is granted is attached, played and
    mirrored by the side inferred for it under the new preference. *)
Theorem setCamera_switches_stream (camera : string) (s : State) (id : nat)
    (stream : MediaStream) (rejected : list Settled) (tracks : list MediaStreamTrack)
    (t1 t2 t3 t4 : Settled) (p : Value)
    (Hs : playingStream s id stream) (Hv : hidden (browser s) = false)
    (Hm : mediaDevices (browser s) = true) (Hoff : _flashOn (this s) = false)
    (Hr : Forall refused rejected) (Hl : (length rejected < 6)%nat) :
  setCamera (_preferredCamera (this s)) s = Ret s tt
  /\ (camera <> _preferredCamera (this s) ->
      let k := length rejected in
      let side := inferredSide (head tracks)
                    (isSome (facingMode_exact (nth k (tiers camera) noConstraints)))
                    camera in
      (let c := setCamera camera s in
       awaitOf c = Some Microtask
       /\ _preferredCamera (this (stateOf c)) = camera
       /\ Video.srcObject (video (stateOf c)) = SrcNull
       /\ streams (stateOf c) !! id = Some (releasedStream stream))
      /\ exists s',
           runTo (setCamera camera s)
             ([t1] ++ (rejected ++ [Fulfilled (VTracks tracks); t2; Fulfilled p])
              ++ [t3] ++ [t4])
           = Some (s', inl tt)
           /\ _preferredCamera (this s') = camera
           /\ _active (this s') = true /\ _paused (this s') = false
           /\ Video.srcObject (video s') = SrcMediaStream (length (streams s))
           /\ streams s' !! id = Some (releasedStream stream)
           /\ streams s' !! length (streams s) = Some (mkStream tracks [])
           /\ Video.scaleX (video s') = (if String.eqb side "user" then -1 else 1)
           /\ effects s'
              = (effects s ++ [VideoPause] ++ httpsWarning s
                 ++ map GetUserMediaCall (take (S k) (tiers camera)) ++ [VideoPlay])%list).
Proof.
  destruct Hs as (Hli & Ha & Hp & Hd & Hsrc & Hst).
  split.
  { unfold setCamera. sync_with idtac. now rewrite String.eqb_refl. }
  intros Hc. cbv zeta.
  assert (Hneq : String.eqb camera (_preferredCamera (this s)) = false)
    by now apply String.eqb_neq.
  set (s1 := with_this (set_preferredCamera camera) s).
  assert (Hrestart := restartVideoStream_runTo s1 id rejected tracks t1 t2 p t3
                        Ha Hp Hd Hv Hsrc Hm Hoff Hr Hl).
  split.
  - unfold setCamera, _restartVideoStream, pause, video_pause.
    run_with ltac:(rewrite ?Hneq, ?Ha).
    rewrite stopStream_returns. run_with idtac.
    rewrite (afterStopStream_eq _ id) by exact Hsrc. fields.
    repeat split. rewrite list_lookup_alter_eq, Hst. cbn.
    now rewrite stopVideoStream_released.
  - exists (attached (length rejected) tracks (pausedAtOnce id s1)). split.
    + unfold setCamera. sync_with ltac:(rewrite ?Hneq). fold s1.
      replace ([t1] ++ (rejected ++ [Fulfilled (VTracks tracks); t2; Fulfilled p])
               ++ [t3] ++ [t4])%list
        with (([t1] ++ (rejected ++ [Fulfilled (VTracks tracks); t2; Fulfilled p])
               ++ [t3]) ++ [t4])%list
        by (rewrite <- !app_assoc; reflexivity).
      apply runTo_awaitCall. exact Hrestart.
    + unfold attached, acquired, pausedAtOnce, httpsWarning, entered.
      destruct (https (browser s)) eqn:Hh; subst s1; fields; rewrite Hh; fields;
        rewrite asked_this, asked_streams, asked_effects; fields; rewrite length_alter.
      all: repeat split.
      all: try (rewrite lookup_app_l by (rewrite length_alter; now apply lookup_lt_Some in Hst);
                rewrite list_lookup_alter_eq, Hst; cbn; now rewrite stopVideoStream_released).
      all: try (apply list_lookup_middle; now rewrite length_alter).
      all: rewrite <- ?app_assoc; reflexivity.
Qed.

Lemma setCamera_switches_stream_witness :
  setCamera "environment" playing = Ret playing tt.
Proof.
  refine (proj1 (setCamera_switches_stream "user" playing 0 (mkStream rearCamera [])
                   [] rearCamera tick tick tick tick VUndefined
                   _ eq_refl eq_refl eq_refl _ _)).
  - repeat split.
  - constructor.
  - simpl. lia.
Defined.

(** ** A turn of the scan loop *)

Lemma afterScan_active s r
    (Ha : _active (this s) = true)
    (Hp : Video.paused (video s) = false) (He : Video.ended (video s) = false)
    (Hr : match r with inl _ => True | inr e => exists m, e = VStr m end) :
  exists s',
    afterScan r s = Ret s' tt
    /\ effects s' = (effects s ++ delivered (_onDecodeError (this s)) r)%list
    /\ animationFrames s' = S (animationFrames s)
    /\ _active (this s') = true
    /\ canvases s' = canvases s /\ video s' = video s /\ streams s' = streams s.
Proof.
  unfold afterScan, _scanFrame, onDecodeError, createQrEngine, delivered, reported.
  destruct r as [result|error].
  - destruct (truthy result); eexists;
      (split; [run_with ltac:(rewrite ?Ha, ?Hp, ?He); reflexivity|]);
      fields; repeat split; now rewrite ?app_nil_r.
  - destruct Hr as [m ->]. cbn [messageOr].
    destruct (includes m "service unavailable"), (_onDecodeError (this s)) eqn:Hh;
      try destruct (is_NO_QR_CODE_FOUND (VStr m));
      eexists;
      (split; [run_with ltac:(rewrite ?Ha, ?Hp, ?He, ?Hh); reflexivity|]);
      fields; repeat split; now rewrite ?app_nil_r.
Qed.

Lemma outcome_string ev :
  match settledToSum (outcome ev) with
  | inl _ => True
  | inr e => exists m, e = VStr m
  end.
Proof.
  destruct ev as [type data|error|]; cbn.
  - destruct data; cbn; eauto.
  - eauto.
  - eauto.
Qed.

(** X15. A turn of the scan loop with a worker, on an active scanner whose
    video plays: however the request to the worker settles, with a result,
    with nothing found, with an error of the worker or with the timeout, the
    turn ends without throwing and requests the next animation frame, once.
    A result is handed to the decode callback unless it is the empty
    string, in which case no callback is called at all; an error is handed
    to the error handler, the default one logging it unless it is
    ['No QR code found']. *)
Theorem scan_turn_requests_next_frame (s : State) (w : nat) (c : Canvas.t)
    (ev : WorkerRequest.Event)
    (Hs : scanning s)
    (Hengine : _qrEnginePromise (this s) = Worker w)
    (Hcanvas : canvases s !! canvas (this s) = Some c) :
  let r := outcome ev in
  let done := feed (animationFrame s) [tick; r; tick] in
  resultOf done = Some (inl tt)
  /\ awaitOf done = None
  /\ effects (stateOf done)
     = (effects (framePosted w c s)
        ++ delivered (_onDecodeError (this s)) (settledToSum r))%list
  /\ delivered (_onDecodeError (this s)) (inl (VStr "")) = []
  /\ animationFrames (stateOf done) = S (animationFrames s)
  /\ _active (this (stateOf done)) = true.
Proof.
  destruct Hs as (Ha & Hp & He & Hready & Hw & Hh).
  cbv zeta. rewrite (animationFrame_with_worker s w c (outcome ev)); trivial.
  destruct (afterScan_active (framePosted w c s) (settledToSum (outcome ev)))
    as (s' & -> & E1 & E2 & E3 & _); trivial.
  - apply outcome_string.
  - cbn [resultOf awaitOf stateOf]. rewrite E1, E2. repeat split; trivial.
Qed.

Lemma scan_turn_requests_next_frame_witness :
  resultOf (feed (animationFrame showingFrames)
              [tick; outcome (WorkerRequest.Message "qrResult" (VStr "")); tick])
  = Some (inl tt).
Proof.
  refine (proj1 (scan_turn_requests_next_frame showingFrames 0 Canvas.fresh
                   (WorkerRequest.Message "qrResult" (VStr "")) _ eq_refl eq_refl)).
  repeat split; discriminate.
Defined.

(** ** The native detector in the scan loop *)

Lemma animationFrame_with_detector s d c r
    (Hready : (Video.readyState (video s) <=? 1) = false)
    (Hengine : _qrEnginePromise (this s) = BarcodeDetector d)
    (Hcanvas : canvases s !! canvas (this s) = Some c) :
  feed (animationFrame s) [tick; r; tick] = afterScan (detected r) (frameDetecting d c s).
Proof.
  unfold tick, animationFrame. run_with ltac:(rewrite ?Hready).
  unfold scanImage, scanImageBody, scanImageTry, _loadImage.
  run_with ltac:(rewrite ?Hengine).
  rewrite (drawToCanvas_returns _ _ _ _ _ _ Hcanvas).
  run_with idtac.
  unfold decodeWithDetector, frameDetecting, detected, nativeNotFound. run_with idtac.
  destruct r as [v|e].
  - destruct v as [| | | | | | |rawValues|]; try destruct rawValues; run_with idtac; reflexivity.
  - destruct e as [| | | |m| | | |]; try destruct (String.eqb m ""); run_with idtac;
      cbn [messageOr]; run_with idtac; reflexivity.
Qed.

Lemma includes_behind_prefix m :
  includes ("Scanner error: " ++ m) "service unavailable"
  = includes m "service unavailable".
Proof. reflexivity. Qed.

(** X16. A turn of the scan loop with the native detector.  A frame in
    which nothing is detected is an error that is not ['No QR code found']
    but ['Scanner error: No QR code found'], so that the error handler is
    called with it and the default handler logs it, for every such frame.
    When codes are detected, the raw value of the first one is handed to the
    decode callback, unless it is empty.  In both cases the next animation
    frame is requested. *)
Theorem native_detector_scan_turn (s : State) (d : nat) (c : Canvas.t)
    (Hs : scanning s)
    (Hengine : _qrEnginePromise (this s) = BarcodeDetector d)
    (Hcanvas : canvases s !! canvas (this s) = Some c) :
  (let done := feed (animationFrame s) [tick; Fulfilled (VDetected []); tick] in
   resultOf done = Some (inl tt)
   /\ effects (stateOf done)
      = (effects (frameDetecting d c s)
         ++ reported (_onDecodeError (this s)) nativeNotFound)%list
   /\ animationFrames (stateOf done) = S (animationFrames s))
  /\ reported DefaultOnDecodeError nativeNotFound = [ConsoleLog nativeNotFound]
  /\ nativeNotFound = VStr "Scanner error: No QR code found"
  /\ (forall rawValue others,
        let done := feed (animationFrame s)
                      [tick; Fulfilled (VDetected (rawValue :: others)); tick] in
        resultOf done = Some (inl tt)
        /\ effects (stateOf done)
           = (effects (frameDetecting d c s)
              ++ if String.eqb rawValue "" then [] else [OnDecodeCall (VStr rawValue)])%list
        /\ animationFrames (stateOf done) = S (animationFrames s)).
Proof.
  destruct Hs as (Ha & Hp & He & Hready & Hw & Hh).
  split; [|split; [|split]]; try reflexivity.
  - cbv zeta. rewrite (animationFrame_with_detector s d c); trivial.
    destruct (afterScan_active (frameDetecting d c s) (detected (Fulfilled (VDetected []))))
      as (s' & -> & E1 & E2 & _); trivial.
    + cbn. eauto.
    + cbn [resultOf stateOf]. rewrite E1, E2. repeat split.
  - intros rawValue others. cbv zeta. rewrite (animationFrame_with_detector s d c); trivial.
    destruct (afterScan_active (frameDetecting d c s)
                (detected (Fulfilled (VDetected (rawValue :: others)))))
      as (s' & -> & E1 & E2 & _); trivial.
    + cbn. trivial.
    + cbn [resultOf stateOf]. rewrite E1, E2. cbn [detected delivered truthy].
      destruct (String.eqb rawValue ""); repeat split.
Qed.

Lemma native_detector_scan_turn_witness :
  reported DefaultOnDecodeError nativeNotFound = [ConsoleLog nativeNotFound].
Proof.
  refine (proj1 (proj2 (native_detector_scan_turn
                          (with_this (set_qrEnginePromise (BarcodeDetector 0)) showingFrames)
                          0 Canvas.fresh _ eq_refl eq_refl))).
  repeat split; discriminate.
Defined.

(** X17. A native detector that crashed is replaced.  When [detect] fails
    with an error whose message contains ['service unavailable'], the turn
    of the scan loop creates a new engine and makes it the engine of the
    scanner before it calls the error handler; with any other message the
    engine stays.  In both cases the error handler gets
    ['Scanner error: '] followed by the message, nothing is posted to an
    engine, and the next animation frame is requested. *)
Theorem crashed_detector_is_replaced (s : State) (d : nat) (c : Canvas.t) (m : string)
    (Hs : scanning s)
    (Hengine : _qrEnginePromise (this s) = BarcodeDetector d)
    (Hcanvas : canvases s !! canvas (this s) = Some c)
    (Hm : m <> "") :
  let done := feed (animationFrame s) [tick; Rejected (VError m); tick] in
  resultOf done = Some (inl tt)
  /\ (if includes m "service unavailable"
      then _qrEnginePromise (this (stateOf done))
           = (if nativeBarcodeDetector (browser s)
              then BarcodeDetector (engines s) else Worker (engines s))
           /\ engines (stateOf done) = S (engines s)
      else _qrEnginePromise (this (stateOf done)) = BarcodeDetector d
           /\ engines (stateOf done) = engines s)
  /\ effects (stateOf done)
     = (effects (frameDetecting d c s)
        ++ reported (_onDecodeError (this s)) (VStr ("Scanner error: " ++ m)))%list
  /\ animationFrames (stateOf done) = S (animationFrames s).
Proof.
  destruct Hs as (Ha & Hp & He & Hready & Hw & Hh).
  cbv zeta. rewrite (animationFrame_with_detector s d c); trivial.
  assert (Hne : String.eqb m "" = false) by now apply String.eqb_neq.
  unfold detected. cbn [messageOr]. rewrite Hne. cbn [toString].
  unfold afterScan. cbn [messageOr]. rewrite includes_behind_prefix.
  unfold _scanFrame, onDecodeError, createQrEngine, reported, frameDetecting.
  change (is_NO_QR_CODE_FOUND (VStr ("Scanner error: " ++ m))) with false.
  destruct (includes m "service unavailable"), (_onDecodeError (this s)) eqn:Hh';
    run_with ltac:(rewrite ?Ha, ?Hp, ?He, ?Hh', ?Hengine);
    cbn [resultOf stateOf]; fields; rewrite ?Hengine, ?app_nil_r; repeat split.
Qed.

Lemma crashed_detector_is_replaced_witness :
  resultOf (feed (animationFrame
                    (with_this (set_qrEnginePromise (BarcodeDetector 0)) showingFrames))
              [tick; Rejected (VError "Barcode detection service unavailable."); tick])
  = Some (inl tt).
Proof.
  refine (proj1 (crashed_detector_is_replaced
                   (with_this (set_qrEnginePromise (BarcodeDetector 0)) showingFrames)
                   0 Canvas.fresh "Barcode detection service unavailable."
                   _ eq_refl eq_refl _)).
  - repeat split; discriminate.
  - discriminate.
Defined.

(** ** The engine of [scanImage] *)

Ltac scan_call Hnative :=
  match goal with
  | |- context [call ?m (alone ?s0)] =>
      let mc1 := fresh "mc" in
      let E1 := fresh "E" in
      evar (mc1 : Machine);
      assert (E1 : call m (alone s0) = mc1)
        by (machine_with ltac:(try unfold scanImage, scanImageBody, scanImageTry,
                                 _loadImage, createQrEngine; rewrite ?Hnative);
            subst mc1; reflexivity);
      rewrite !E1; clear E1; subst mc1
  end.

Ltac scan_steps Hnative Hcanvas c0 c1 Hw0 Hh0 Hw1 Hh1 :=
  steps_any_with ltac:(try unfold decodeWithWorker, _postWorkerMessage, scanImageWithoutRetry,
                     scanImageBody, scanImageTry, _loadImage;
                   rewrite ?Hnative, ?orb_true_r,
                     ?(drawToCanvas_returns _ _ _ _ _ c0) by exact Hcanvas;
                   rewrite ?(drawToCanvas_returns _ _ _ _ _ c1)
                     by exact (lookup_insert_same _ _ _ _ Hcanvas);
                   rewrite ?list_insert_insert_eq;
                   rewrite ?(lookup_insert_same _ _ _ _ Hcanvas), ?drawToCanvas_size;
                   cbn [Canvas.width Canvas.height imageOf];
                   rewrite ?Hw0, ?Hh0, ?Hw1, ?Hh1).

(** X18. [scanImage] closes the engine it created, and no other.  Called
    without an engine on a page without a native detector, it creates one
    worker, tells it to scan inverted codes too, posts the frame, and when
    the decode has settled, however it has, posts ['close'] to that worker;
    if the decode with the scan region fails and is tried again without the
    region, this is still the one worker, told once about inverted codes and
    closed once, after the second decode.  Called with a worker of the
    caller, it posts the frame to it and nothing else, and creates no
    engine. *)
Theorem scanImage_closes_its_own_engine (s : State) (image : Image.t)
    (region : option ScanRegion.t) (id : nat) (c0 : Canvas.t) (t t' : Settled) (r : Settled)
    (Hnative : nativeBarcodeDetector (browser s) = false)
    (Hcanvas : canvases s !! id = Some c0)
    (Hw : sourceWidth image <> 0) (Hh : sourceHeight image <> 0) :
  (let own := run (call (scanImage (Drawable image) region None (Some id) false false)
                     (alone s)) [Settle 0 t; Settle 0 r] in
   let final := run own [Settle 0 t'] in
   awaited own = [Microtask]
   /\ awaited final = []
   /\ engines (now final) = S (engines s)
   /\ effects (now final)
      = (effects s ++ [drawn image region c0 id;
                       PostMessage (engines s) "inversionMode";
                       PostMessage (engines s) "decode";
                       PostMessage (engines s) "close"])%list)
  /\ (forall w,
        let theirs := run (call (scanImage (Drawable image) region (Some (Worker w))
                                   (Some id) false false) (alone s))
                        [Settle 0 t; Settle 0 r] in
        awaited theirs = []
        /\ engines (now theirs) = engines s
        /\ effects (now theirs)
           = (effects s ++ [drawn image region c0 id; PostMessage w "decode"])%list)
  /\ (forall scanRegion e t2 r2 t3,
        let c1 := Canvas.mk (canvasWidth image (Some scanRegion))
                    (canvasHeight image (Some scanRegion)) in
        let again := run (call (scanImage (Drawable image) (Some scanRegion) None
                                  (Some id) false true) (alone s))
                       [Settle 0 t; Settle 0 (Rejected e); Settle 0 t2; Settle 0 r2;
                        Settle 0 t3; Settle 0 t'] in
        awaited again = []
        /\ engines (now again) = S (engines s)
        /\ effects (now again)
           = (effects s ++ [drawn image (Some scanRegion) c0 id;
                            PostMessage (engines s) "inversionMode";
                            PostMessage (engines s) "decode";
                            drawn image None c1 id;
                            PostMessage (engines s) "decode";
                            PostMessage (engines s) "close"])%list).
Proof.
  assert (Hw0 : forall rg, (canvasWidth image rg =? 0) = false)
    by (intros; now apply Z.eqb_neq, canvasWidth_nonzero).
  assert (Hh0 : forall rg, (canvasHeight image rg =? 0) = false)
    by (intros; now apply Z.eqb_neq, canvasHeight_nonzero).
  unfold drawn. cbv zeta. split; [|split].
  - rewrite run_app. cbn [app]. scan_call Hnative.
    split; [|split; [|split]].
    all: scan_steps Hnative Hcanvas c0 c0 (Hw0 region) (Hh0 region) Hw0 Hh0.
    all: cbn [awaited map fst now waiting]; fields; rewrite <- ?app_assoc; reflexivity.
  - intros w. scan_call Hnative.
    split; [|split].
    all: scan_steps Hnative Hcanvas c0 c0 (Hw0 region) (Hh0 region) Hw0 Hh0.
    all: cbn [awaited map fst now waiting]; fields; rewrite <- ?app_assoc; reflexivity.
  - intros scanRegion e t2 r2 t3. scan_call Hnative. destruct r2.
    all: match goal with
    | |- context [run ?mc ?l] =>
        let mc1 := fresh "mc" in
        let E1 := fresh "E" in
        evar (mc1 : Machine);
        assert (E1 : run mc l = mc1)
          by (scan_steps Hnative Hcanvas c0
                (Canvas.mk (canvasWidth image (Some scanRegion))
                   (canvasHeight image (Some scanRegion)))
                (Hw0 (Some scanRegion)) (Hh0 (Some scanRegion)) (Hw0 None) (Hh0 None);
              subst mc1; reflexivity);
        rewrite !E1; clear E1; subst mc1
    end.
    all: cbn [awaited map fst now waiting]; fields; rewrite <- ?app_assoc; repeat split.
Qed.

Lemma scanImage_closes_its_own_engine_witness :
  awaited (run (call (scanImage (Drawable (Image.mk None None 100 100)) None None (Some 0%nat)
                        false false) (alone (now newScanner)))
             [Settle 0 tick; Settle 0 (Fulfilled (VStr "hello"))])
  = [Microtask].
Proof.
  refine (proj1 (proj1 (scanImage_closes_its_own_engine (now newScanner)
                          (Image.mk None None 100 100) None 0 Canvas.fresh
                          tick tick (Fulfilled (VStr "hello"))
                          eq_refl eq_refl _ _))); discriminate.
Defined.

(** X19. [scanImage] creates its engine before it knows whether it gets
    an image, and closes it only when it got one.  Called without an engine
    on a page without a native detector: on an argument of no supported
    type, and on an image whose listener in [_awaitImageLoad] is handed an
    [ErrorEvent], a worker is created, the promise is rejected with
    ['Unsupported image type.'] or ['Image load error'], nothing is drawn,
    and nothing is posted to the worker, now or later, ['close'] neither.
    An image whose load fails with the plain [error] event is not such a
    case: [_awaitImageLoad] resolves, [drawImage] throws on the image, the
    promise is rejected with that exception and ['close'] is posted. *)
Theorem scanImage_load_error_leaves_engine (s : State) (scanRegion : option ScanRegion.t)
    (canvas : option nat) (t t' : Settled)
    (Hnative : nativeBarcodeDetector (browser s) = false) :
  (let c := scanImage Unsupported scanRegion None canvas false false s in
   awaitOf c = Some Microtask
   /\ engines (stateOf c) = S (engines s)
   /\ (exists s', runTo c [t] = Some (s', inr (VStr "Unsupported image type.")))
   /\ let mc := run (call (scanImage Unsupported scanRegion None canvas false false)
                       (alone s)) [Settle 0 t] in
      awaited mc = [Microtask]
      /\ let final := run mc [Settle 0 t'] in
         awaited final = []
         /\ effects (now final) = effects s
         /\ canvases (now final) = canvases s
         /\ engines (now final) = S (engines s))
  /\ (forall e,
        let c := scanImage Loading scanRegion None canvas false false s in
        awaitOf c = Some ImageLoad
        /\ engines (stateOf c) = S (engines s)
        /\ (exists s', runTo c [Rejected e; t] = Some (s', inr (VStr "Image load error")))
        /\ let mc := run (call (scanImage Loading scanRegion None canvas false false)
                            (alone s)) [Settle 0 (Rejected e); Settle 0 t] in
           awaited mc = [Microtask]
           /\ let final := run mc [Settle 0 t'] in
              awaited final = []
              /\ effects (now final) = effects s
              /\ canvases (now final) = canvases s
              /\ engines (now final) = S (engines s))
  /\ (forall v id c0,
        (forall image, v <> VImage image) ->
        canvases s !! id = Some c0 ->
        let c := scanImage Loading scanRegion None (Some id) false false s in
        (exists s', runTo c [Fulfilled v; t] = Some (s', inr (VError "InvalidStateError")))
        /\ let mc := run (call (scanImage Loading scanRegion None (Some id) false false)
                            (alone s)) [Settle 0 (Fulfilled v); Settle 0 t] in
           awaited mc = [Microtask]
           /\ let final := run mc [Settle 0 t'] in
              awaited final = []
              /\ effects (now final) = (effects s ++ [PostMessage (engines s) "close"])%list
              /\ engines (now final) = S (engines s)).
Proof.
  cbv zeta. split; [|split].
  - split; [|split; [|split; [|split; [|split; [|split; [|split]]]]]].
    1-3: unfold scanImage, scanImageBody, scanImageTry, _loadImage, createQrEngine,
           _postWorkerMessage.
    1-2: run_with ltac:(rewrite ?Hnative); reflexivity.
    + eexists. destruct t.
      all: args_with ltac:(rewrite ?Hnative, ?runTo_Susp, ?orb_true_r); reflexivity.
    + scan_call Hnative.
      steps_any_with ltac:(try unfold _postWorkerMessage; rewrite ?orb_true_r). reflexivity.
    + rewrite run_app. cbn [app]. scan_call Hnative.
      steps_any_with ltac:(try unfold _postWorkerMessage; rewrite ?orb_true_r). reflexivity.
    + rewrite run_app. cbn [app]. scan_call Hnative.
      steps_any_with ltac:(try unfold _postWorkerMessage; rewrite ?orb_true_r). reflexivity.
    + rewrite run_app. cbn [app]. scan_call Hnative.
      steps_any_with ltac:(try unfold _postWorkerMessage; rewrite ?orb_true_r). reflexivity.
    + rewrite run_app. cbn [app]. scan_call Hnative.
      steps_any_with ltac:(try unfold _postWorkerMessage; rewrite ?orb_true_r). reflexivity.
  - intros e. split; [|split; [|split; [|split; [|split; [|split; [|split]]]]]].
    1-3: unfold scanImage, scanImageBody, scanImageTry, _loadImage, createQrEngine,
           _postWorkerMessage.
    1-2: run_with ltac:(rewrite ?Hnative); reflexivity.
    + eexists. destruct t.
      all: args_with ltac:(rewrite ?Hnative, ?runTo_Susp, ?orb_true_r); reflexivity.
    + scan_call Hnative.
      steps_any_with ltac:(try unfold _postWorkerMessage; rewrite ?orb_true_r). reflexivity.
    + rewrite run_app. cbn [app]. scan_call Hnative.
      steps_any_with ltac:(try unfold _postWorkerMessage; rewrite ?orb_true_r). reflexivity.
    + rewrite run_app. cbn [app]. scan_call Hnative.
      steps_any_with ltac:(try unfold _postWorkerMessage; rewrite ?orb_true_r). reflexivity.
    + rewrite run_app. cbn [app]. scan_call Hnative.
      steps_any_with ltac:(try unfold _postWorkerMessage; rewrite ?orb_true_r). reflexivity.
    + rewrite run_app. cbn [app]. scan_call Hnative.
      steps_any_with ltac:(try unfold _postWorkerMessage; rewrite ?orb_true_r). reflexivity.
  - intros v id c0 Hv Hcanvas.
    destruct v; try solve [exfalso; eapply Hv; reflexivity].
    all: split; [|split; [|split; [|split]]].
    all: try (rewrite run_app; cbn [app]).
    all: try scan_call Hnative.
    all: try (steps_any_with ltac:(try unfold _postWorkerMessage;
                           rewrite ?orb_true_r,
                             ?(drawToCanvas_returns _ _ _ _ _ c0) by exact Hcanvas);
              cbn [now]; fields; reflexivity).
    all: unfold scanImage, scanImageBody, scanImageTry, _loadImage, createQrEngine,
        _postWorkerMessage.
    all: eexists; destruct t.
    all: args_with ltac:(rewrite ?Hnative, ?runTo_Susp, ?orb_true_r,
                             ?(drawToCanvas_returns _ _ _ _ _ c0) by exact Hcanvas).
    all: reflexivity.
Qed.

Lemma scanImage_load_error_leaves_engine_witness :
  let mc := run (call (scanImage Loading None None (Some 0%nat) false false)
                   (alone (now newScanner)))
              [Settle 0 (Fulfilled VUndefined); Settle 0 tick] in
  let final := run mc [Settle 0 tick] in
  effects (now final)
  = (effects (now newScanner) ++ [PostMessage (engines (now newScanner)) "close"])%list.
Proof.
  refine (proj1 (proj2 (proj2 (proj2 (proj2 (proj2
            (scanImage_load_error_leaves_engine (now newScanner) None None tick tick
               eq_refl))
            VUndefined 0%nat Canvas.fresh _ eq_refl))))).
  discriminate.
Defined.

(** ** Turning the flash on *)

Lemma Ends_capture_bind {A B} (P : State -> B + Value -> Prop) (c : Co A)
    (f : A + Value -> M B) :
  (forall r s, Ends P (f r s)) -> Ends P (bindCo (captureCo c) f).
Proof.
  intros Hf. induction c as [s a|s e|s w k IH|w k rest IH]; cbn; auto.
  - now constructor.
  - now constructor.
Qed.

Lemma Ends_runTo {A} (P : State -> A + Value -> Prop) (c : Co A) :
  Ends P c -> forall answers s' r, runTo c answers = Some (s', r) -> P s' r.
Proof.
  induction 1 as [s a H|s e H|s w k _ IH|w k rest _ IH]; intros answers s' r; cbn.
  - destruct answers; [|discriminate]. now intros [= <- <-].
  - destruct answers; [|discriminate]. now intros [= <- <-].
  - destruct answers; [discriminate|]. apply IH.
  - apply IH.
Qed.

Lemma turnFlashOn_ends s : Ends rejectedWithFlagOff (turnFlashOn s).
Proof.
  unfold turnFlashOn. sync_with idtac.
  destruct (_flashOn (this s) || _destroyed (this s)).
  { constructor. intros e. discriminate. }
  sync_with idtac.
  destruct (negb (_active (this s)) || _paused (this s)).
  { constructor. intros e. discriminate. }
  unfold tryCatch, capture. sync_with idtac.
  apply Ends_capture_bind. intros [[]|e] s1; sync_with idtac; constructor.
  - intros e. discriminate.
  - intros e' _. reflexivity.
Qed.

Lemma turnFlashOn_runTo_no_flash s id stream t
    (Hs : playingStream s id stream) (Hoff : _flashOn (this s) = false)
    (Hno : torchOf (getTracks stream) = false) :
  runTo (turnFlashOn s) [t]
  = Some (with_this (set_flashOn false) (with_this (set_flashOn true) s),
          inr (VStr "No flash available")).
Proof.
  destruct Hs as (Hl & Ha & Hp & Hd & Hsrc & Hst).
  unfold torchOf in Hno.
  unfold turnFlashOn, hasFlash, torchInSettings, firstVideoTrack.
  destruct t; destruct (head (getTracks stream)) as [track|] eqn:Hh.
  all: args_with ltac:(rewrite ?Hoff, ?Hd, ?Ha, ?Hp, ?Hsrc, ?Hst, ?Hh, ?Hno, ?runTo_Susp).
  all: reflexivity.
Qed.

(** X20. [turnFlashOn] never leaves the flag set when it fails: whenever
    its promise is rejected, whatever it waited for in between and whatever
    else ran then, the flash flag is off at that moment.  So it is on a
    scanner that plays a stream whose first track has no torch setting, or
    that has no track: the promise is rejected with ['No flash available']
    and the scanner, its video and its streams are as they were. *)
Theorem turnFlashOn_failure_clears_flag (s : State) (id : nat) (stream : MediaStream)
    (t : Settled)
    (Hs : playingStream s id stream) (Hoff : _flashOn (this s) = false)
    (Hno : torchOf (getTracks stream) = false) :
  (forall s0, Ends rejectedWithFlagOff (turnFlashOn s0))
  /\ (forall s0 answers s' e,
        runTo (turnFlashOn s0) answers = Some (s', inr e) -> _flashOn (this s') = false)
  /\ exists s',
       runTo (turnFlashOn s) [t] = Some (s', inr (VStr "No flash available"))
       /\ _flashOn (this s') = false
       /\ this s' = this s /\ video s' = video s /\ streams s' = streams s
       /\ effects s' = effects s.
Proof.
  split; [exact turnFlashOn_ends|]. split.
  - intros s0 answers s' e H.
    now apply (Ends_runTo _ _ (turnFlashOn_ends s0) answers s' (inr e) H e).
  - eexists. split; [now apply (turnFlashOn_runTo_no_flash s id stream)|].
    repeat split. destruct s as [[] ? ? ? ? ? ? ? ?]. cbn in *. now rewrite Hoff.
Qed.

Lemma turnFlashOn_failure_clears_flag_witness :
  exists s',
    runTo (turnFlashOn
             (with_streams (fun _ => [mkStream [mkTrack "webcam" false false false] []])
                playing)) [tick]
    = Some (s', inr (VStr "No flash available"))
    /\ _flashOn (this s') = false.
Proof.
  destruct (proj2 (proj2 (turnFlashOn_failure_clears_flag
                   (with_streams (fun _ => [mkStream [mkTrack "webcam" false false false] []])
                      playing)
                   0 (mkStream [mkTrack "webcam" false false false] []) tick
                   ltac:(repeat split) eq_refl eq_refl))) as (s' & H & Hf & _).
  exists s'. split; assumption.
Defined.

(** ** Reading the facing side off a label *)

Lemma prefix_spec word : forall text,
  String.prefix word text = true <-> exists after, text = word ++ after.
Proof.
  induction word as [|c word IH]; intros text.
  - split; [intros _; now exists text|intros _; now destruct text].
  - destruct text as [|d text]; cbn.
    + split; [discriminate|]. intros [after H]. discriminate.
    + destruct (Ascii.ascii_dec c d) as [->|Hcd].
      * rewrite IH. split; intros [after H]; exists after; congruence.
      * split; [discriminate|]. intros [after H]. congruence.
Qed.

Lemma includes_spec word : forall text,
  includes text word = true <-> occursIn word text.
Proof.
  induction text as [|d text IH].
  - cbn [includes]. rewrite orb_false_r, prefix_spec. split.
    + intros [after H]. now exists "", after.
    + intros (before & after & H). destruct before; cbn in H; [eauto|discriminate].
  - cbn [includes]. rewrite orb_true_iff, prefix_spec, IH. split.
    + intros [[after H]|(before & after & H)].
      * now exists "", after.
      * exists (String d before), after. cbn. now rewrite H.
    + intros (before & after & H). destruct before as [|b before]; cbn in H.
      * left. eauto.
      * right. exists before, after. congruence.
Qed.

Lemma re_rear_back_environment_spec label :
  re_rear_back_environment label = true
  <-> mentions label ["rear"; "back"; "environment"].
Proof.
  unfold re_rear_back_environment, mentions. cbv zeta.
  rewrite !orb_true_iff, !includes_spec, !Exists_cons, Exists_nil. tauto.
Qed.

Lemma re_front_user_face_spec label :
  re_front_user_face label = true
  <-> mentions label ["front"; "user"; "face"].
Proof.
  unfold re_front_user_face, mentions. cbv zeta.
  rewrite !orb_true_iff, !includes_spec, !Exists_cons, Exists_nil. tauto.
Qed.

Ltac label_facts :=
  repeat match goal with
         | H : exists _, _ |- _ => destruct H
         | H : _ /\ _ |- _ => destruct H
         | H : Some _ = Some _ |- _ => injection H as ?; subst
         | H : forall t, Some ?x = Some t -> _ |- _ => specialize (H _ eq_refl)
         end.

(** X21. [_getFacingMode] reads the facing side off the label of the first
    track of the stream: it answers ['environment'] exactly when
    ['rear'], ['back'] or ['environment'] occurs somewhere in the label, in
    whatever case its letters are, also when a word for the front occurs in
    it as well; it answers ['user'] exactly when none of these occurs but
    ['front'], ['user'] or ['face'] does; and it answers [null] otherwise,
    and when the stream has no track. *)
Theorem getFacingMode_reads_label (s : State) (id : nat) (stream : MediaStream)
    (Hstream : streams s !! id = Some stream) :
  let rear := ["rear"; "back"; "environment"] in
  let front := ["front"; "user"; "face"] in
  (_getFacingMode s id = Some "environment"
   <-> exists track, head (getTracks stream) = Some track /\ mentions (label track) rear)
  /\ (_getFacingMode s id = Some "user"
      <-> exists track, head (getTracks stream) = Some track
                        /\ ~ mentions (label track) rear /\ mentions (label track) front)
  /\ (_getFacingMode s id = None
      <-> forall track, head (getTracks stream) = Some track ->
                        ~ mentions (label track) rear /\ ~ mentions (label track) front)
  /\ (forall side, _getFacingMode s id = Some side -> side = "environment" \/ side = "user").
Proof.
  cbv zeta. unfold _getFacingMode, firstVideoTrack. rewrite Hstream.
  destruct (head (getTracks stream)) as [track|].
  2: { repeat split; intros; label_facts; try discriminate. }
  pose proof (re_rear_back_environment_spec (label track)) as Hr.
  pose proof (re_front_user_face_spec (label track)) as Hf.
  destruct (re_rear_back_environment (label track));
    [|destruct (re_front_user_face (label track))].
  - assert (Hm : mentions (label track) ["rear"; "back"; "environment"]) by now apply Hr.
    repeat split; intros; label_facts; try discriminate; try contradiction; eauto.
  - assert (Hn : ~ mentions (label track) ["rear"; "back"; "environment"]).
    { intros H. apply Hr in H. discriminate. }
    assert (Hm : mentions (label track) ["front"; "user"; "face"]) by now apply Hf.
    repeat split; intros; label_facts; try discriminate; try contradiction; eauto.
  - assert (Hn : ~ mentions (label track) ["rear"; "back"; "environment"]).
    { intros H. apply Hr in H. discriminate. }
    assert (Hm : ~ mentions (label track) ["front"; "user"; "face"]).
    { intros H. apply Hf in H. discriminate. }
    repeat split; intros; label_facts; try discriminate; try contradiction; eauto.
Qed.

Lemma getFacingMode_reads_label_witness :
  _getFacingMode playing 0 = Some "environment"
  <-> exists track, head rearCamera = Some track
                    /\ mentions (label track) ["rear"; "back"; "environment"].
Proof.
  exact (proj1 (getFacingMode_reads_label playing 0 (mkStream rearCamera []) eq_refl)).
Defined.

(** X26. The facing side [_getCameraStream] returns with the stream it
    acquired, when nothing else is called while it asks for the camera.  It
    is the side told by the label of the stream's first track: the rear when
    ['rear'], ['back'] or ['environment'] occurs in it, else the front when
    ['front'], ['user'] or ['face'] does.  When the label tells nothing or
    there is no track, it is the preferred side if the stream was obtained
    under it, which are the first three constraint sets when a side is
    preferred; the opposite side if a side is preferred and only a later
    constraint set was fulfilled; and the rear if a device is preferred.  So
    a request for ['user'] that only a constraint set without the camera can
    fulfil returns ['environment'], unless the label says the camera is in
    front. *)
Theorem facing_side_inferred (s : State) (answers : list Settled)
    (n : nat) (tracks : list MediaStreamTrack)
    (Hm : mediaDevices (browser s) = true)
    (Hn : firstNegotiated (take 6 answers) = Some (n, tracks)) :
  let camera := _preferredCamera (this s) in
  let rear := ["rear"; "back"; "environment"] in
  let front := ["front"; "user"; "face"] in
  let otherwise :=
    if String.eqb camera "environment" then if (n <? 3)%nat then "environment" else "user"
    else if String.eqb camera "user" then if (n <? 3)%nat then "user" else "environment"
    else "environment" in
  exists side,
    resultOf (feed (_getCameraStream s) answers) = Some (inl (length (streams s), side))
    /\ match head tracks with
       | Some track =>
           (mentions (label track) rear -> side = "environment")
           /\ (~ mentions (label track) rear -> mentions (label track) front ->
               side = "user")
           /\ (~ mentions (label track) rear -> ~ mentions (label track) front ->
               side = otherwise)
       | None => side = otherwise
       end.
Proof.
  cbv zeta. eexists. split.
  - unfold _getCameraStream, mbind, M_bind, bind, get. cbn [bindCo].
    rewrite Hm. cbn [negb]. rewrite tiers_spec.
    pose proof (getCameraStreamLoop_feed (tiers (_preferredCamera (this s))) answers s) as H.
    assert (Hlen : length (tiers (_preferredCamera (this s))) = 6%nat)
      by (unfold tiers; destruct (re_environment_or_user _); reflexivity).
    rewrite Hlen, Hn in H. cbn zeta in H. destruct H as (H1 & _ & H3 & H4).
    rewrite H1. rewrite (facingModeOf_inferredSide _ _ _ _ H3), H4. reflexivity.
  - pose proof (tiers_facingMode (_preferredCamera (this s)) n) as Hu.
    assert (Ho : (if isSome (facingMode_exact (nth n (tiers (_preferredCamera (this s)))
                                                noConstraints))
                  then _preferredCamera (this s)
                  else if re_environment_or_user (_preferredCamera (this s))
                       then oppositeSide (_preferredCamera (this s))
                       else "environment")
                 = (if String.eqb (_preferredCamera (this s)) "environment"
                    then if (n <? 3)%nat then "environment" else "user"
                    else if String.eqb (_preferredCamera (this s)) "user"
                         then if (n <? 3)%nat then "user" else "environment"
                         else "environment")).
    { unfold re_environment_or_user, oppositeSide in *.
      assert (Hlt : (n <? 3)%nat = true <-> (n < 3)%nat) by apply Nat.ltb_lt.
      revert Hu.
      destruct (String.eqb_spec (_preferredCamera (this s)) "environment") as [E1|E1];
        destruct (String.eqb_spec (_preferredCamera (this s)) "user") as [E2|E2];
        cbn [orb]; intros Hu.
      all: destruct (isSome _); destruct (n <? 3)%nat; trivial.
      all: try congruence.
      all: try (destruct Hu as [Hu _]; destruct (Hu eq_refl) as [Hu1 Hu2];
                apply Hlt in Hu1; discriminate).
      all: try (destruct Hu as [_ Hu]; destruct Hlt as [Hlt _];
                specialize (Hu (conj (Hlt eq_refl) eq_refl)); discriminate).
      all: destruct Hu as [Hu _]; destruct (Hu eq_refl); discriminate. }
    unfold inferredSide, sideOfLabel. destruct (head tracks) as [track|]; [|exact Ho].
    pose proof (re_rear_back_environment_spec (label track)) as Hr.
    pose proof (re_front_user_face_spec (label track)) as Hf.
    destruct (re_rear_back_environment (label track));
      [|destruct (re_front_user_face (label track))].
    + repeat split; trivial; intros Hnr; exfalso; apply Hnr, Hr; reflexivity.
    + repeat split; trivial.
      * intros H. apply Hr in H. discriminate.
      * intros _ Hnf. exfalso. apply Hnf, Hf. reflexivity.
    + repeat split; trivial.
      * intros H. apply Hr in H. discriminate.
      * intros _ H. apply Hf in H. discriminate.
Qed.

Lemma facing_side_inferred_witness :
  exists side,
    resultOf (feed (_getCameraStream (now (construct exampleVideo DefaultOnDecodeError
                                            exampleRegion "user" exampleBrowser)))
              [Rejected (VError "OverconstrainedError");
               Rejected (VError "OverconstrainedError");
               Rejected (VError "OverconstrainedError");
               Rejected (VError "OverconstrainedError");
               Fulfilled (VTracks [mkTrack "USB 2.0 Camera" false false false])])
    = Some (inl (0%nat, side))
    /\ (mentions "USB 2.0 Camera" ["rear"; "back"; "environment"] -> side = "environment")
    /\ (~ mentions "USB 2.0 Camera" ["rear"; "back"; "environment"] ->
        mentions "USB 2.0 Camera" ["front"; "user"; "face"] -> side = "user")
    /\ (~ mentions "USB 2.0 Camera" ["rear"; "back"; "environment"] ->
        ~ mentions "USB 2.0 Camera" ["front"; "user"; "face"] -> side = "environment").
Proof.
  exact (facing_side_inferred
           (now (construct exampleVideo DefaultOnDecodeError exampleRegion "user"
                   exampleBrowser))
           [Rejected (VError "OverconstrainedError");
            Rejected (VError "OverconstrainedError");
            Rejected (VError "OverconstrainedError");
            Rejected (VError "OverconstrainedError");
            Fulfilled (VTracks [mkTrack "USB 2.0 Camera" false false false])]
           4 [mkTrack "USB 2.0 Camera" false false false] eq_refl eq_refl).
Defined.

(** ** Calls that cross [start] *)

Ltac crossing Hg Hh Hv Hn Hd Hm Htiers :=
  steps_with ltac:(try unfold start, stop, pause, video_pause, _getCameraStream, getUserMedia,
                     video_play, _setVideoMirror, stopVideoStream;
                   rewrite ?Hg, ?Hh, ?Hv, ?Hn, ?Hd, ?Hm, ?Htiers, ?stopStream_returns;
                   cbn [getCameraStreamLoop]).

(** X22. A stream that arrives too late is let go.  When [stop()] or
    [pause()] is called while [start] waits for the camera, the stream that
    is then granted is not put on the video and not played: [start] stops
    every track of it and returns.  The scanner stays paused, and after
    [stop()] inactive. *)
Theorem start_releases_late_stream (s : State) (tracks : list MediaStreamTrack)
    (t : Settled) (stopping : bool)
    (Hs : startable s) (Hm : mediaDevices (browser s) = true) :
  let interrupt := if stopping then Calls Stop else Calls (Pause false) in
  let waits := run (alone s) [Calls Start; interrupt] in
  awaited waits
  = [GetUserMedia (nth 0 (tiers (_preferredCamera (this s))) noConstraints); SetTimeout 300]
  /\ let late := run waits [Settle 0 (Fulfilled (VTracks tracks)); Settle 1 t] in
     awaited late = [SetTimeout 300]
     /\ Video.srcObject (video (now late)) = SrcNull
     /\ streams (now late) = (streams s ++ [releasedStream (mkStream tracks [])])%list
     /\ _paused (this (now late)) = true
     /\ _active (this (now late)) = negb stopping
     /\ effects (now late)
        = (effects s ++ httpsWarning s
           ++ [GetUserMediaCall (nth 0 (tiers (_preferredCamera (this s))) noConstraints);
               VideoPause])%list.
Proof.
  pose proof (startable_guard s Hs) as Hg.
  destruct Hs as (_ & Hd & Hv & Hn).
  destruct (firstTier (_preferredCamera (this s))) as [more Htiers].
  cbv zeta. unfold httpsWarning.
  destruct stopping, (https (browser s)) eqn:Hh.
  all: match goal with
       | |- context [run (alone ?s0) ?l] =>
           let mc1 := fresh "mc" in
           let E1 := fresh "E" in
           evar (mc1 : Machine);
           assert (E1 : run (alone s0) l = mc1)
             by (crossing Hg Hh Hv Hn Hd Hm Htiers; subst mc1; reflexivity);
           rewrite !E1; clear E1; subst mc1
       end.
  all: split; [reflexivity|].
  all: destruct t.
  all: match goal with
       | |- context [run ?mc ?l] =>
           let mc1 := fresh "mc" in
           let E1 := fresh "E" in
           evar (mc1 : Machine);
           assert (E1 : run mc l = mc1)
             by (crossing Hg Hh Hv Hn Hd Hm Htiers; subst mc1; reflexivity);
           rewrite !E1; clear E1; subst mc1
       end.
  all: cbn [awaited map fst now waiting negb]; fields.
  all: rewrite <- (Nat.add_0_r (length (streams s))), alter_app_r.
  all: unfold alter, list_alter; rewrite stopVideoStream_released.
  all: rewrite ?Hn; repeat split.
  all: rewrite <- ?app_assoc; reflexivity.
Qed.

Lemma start_releases_late_stream_witness :
  awaited (run (alone (now newScanner)) [Calls Start; Calls Stop])
  = [GetUserMedia (mkConstraints (Some 1024) (Some "environment") None); SetTimeout 300].
Proof.
  refine (proj1 (start_releases_late_stream (now newScanner) rearCamera tick true _ eq_refl)).
  repeat split; auto.
Defined.

(** X23. [start] called again while the scanner starts or runs does
    nothing: a scanner that [start] was called on, on a visible page, is
    left by a second call as the first call left it, with one request for
    the camera waiting and not two. *)
Theorem start_twice_is_start_once (s : State)
    (Hs : startable s) (Hm : mediaDevices (browser s) = true) :
  run (alone s) [Calls Start; Calls Start] = run (alone s) [Calls Start]
  /\ awaited (run (alone s) [Calls Start; Calls Start])
     = [GetUserMedia (nth 0 (tiers (_preferredCamera (this s))) noConstraints)].
Proof.
  pose proof (startable_guard s Hs) as Hg.
  destruct Hs as (_ & Hd & Hv & Hn).
  destruct (firstTier (_preferredCamera (this s))) as [more Htiers].
  destruct (https (browser s)) eqn:Hh.
  all: split.
  all: repeat match goal with
       | |- context [run (alone ?s0) ?l] =>
           let mc1 := fresh "mc" in
           let E1 := fresh "E" in
           evar (mc1 : Machine);
           assert (E1 : run (alone s0) l = mc1)
             by (crossing Hg Hh Hv Hn Hd Hm Htiers; subst mc1; reflexivity);
           rewrite !E1; clear E1; subst mc1
       end.
  all: reflexivity.
Qed.

Lemma start_twice_is_start_once_witness :
  run (alone (now newScanner)) [Calls Start; Calls Start]
  = run (alone (now newScanner)) [Calls Start].
Proof.
  refine (proj1 (start_twice_is_start_once (now newScanner) _ eq_refl)).
  repeat split; auto.
Defined.

(** ** The events of the video *)

Ltac video_events Hl Ha Hp He Hr :=
  steps_with ltac:(try unfold _onPlay, _onLoadedMetaData, animationFrame, _scanFrame,
                     calculateScanRegion;
                   rewrite ?Hl, ?Ha, ?Hp, ?He, ?Hr).

(** X25. The events of the video and the scan loop.  While the listeners
    are registered, [loadedmetadata] and [play] make the scan region what
    the scanner's function computes for the video as it is then; [play]
    also requests an animation frame when the scanner is active and the
    video neither paused nor ended, and only then.  The callback of a frame
    that finds the video not ready yet draws and posts nothing and requests
    the next frame, so that the loop waits for the video.  Once the
    listeners are removed, the events change nothing. *)
Theorem play_event_starts_scan_loop (s : State) (Hl : listening s = true) :
  let region := _calculateScanRegion (this s) (video s) in
  let runs := _active (this s) && negb (Video.paused (video s))
              && negb (Video.ended (video s)) in
  run (alone s) [LoadedMetadataEvent] = alone (with_this (set_scanRegion region) s)
  /\ run (alone s) [PlayEvent]
     = alone (with_animationFrames (if runs then S else id)
                (with_this (set_scanRegion region) s))
  /\ (runs = true -> (Video.readyState (video s) <=? 1) = true ->
      run (alone s) [PlayEvent; AnimationFrame] = run (alone s) [PlayEvent])
  /\ (forall s', listening s' = false ->
      run (alone s') [PlayEvent; LoadedMetadataEvent] = alone s').
Proof.
  cbv zeta. split; [|split; [|split]].
  - video_events Hl Hl Hl Hl Hl. reflexivity.
  - destruct (_active (this s)) eqn:Ha, (Video.paused (video s)) eqn:Hp,
      (Video.ended (video s)) eqn:He; cbn [andb negb];
      video_events Hl Ha Hp He Hl; reflexivity.
  - destruct (_active (this s)) eqn:Ha, (Video.paused (video s)) eqn:Hp,
      (Video.ended (video s)) eqn:He; cbn [andb negb]; try discriminate.
    intros _ Hr.
    video_events Hl Ha Hp He Hr. cbn [animationFrames with_animationFrames].
    video_events Hl Ha Hp He Hr.
    destruct s as [? ? ? ? ? ? ? n ?]. reflexivity.
  - intros s' Hl'. video_events Hl' Hl' Hl' Hl' Hl'. reflexivity.
Qed.

Lemma play_event_starts_scan_loop_witness :
  run (alone playing) [LoadedMetadataEvent]
  = alone (with_this (set_scanRegion (_calculateScanRegion (this playing) (video playing)))
             playing).
Proof.
  exact (proj1 (play_event_starts_scan_loop playing eq_refl)).
Defined.
